(** * log-reporter: the issue detection engine

    A shallow embedding of the detection engine of log-reporter:
    - [Issue], from models/Issue.ts (the second part of src/index.js),
    - [PuertsExceptionDetector] and the interface [IIssueDetector], from
      issue_detecter/IssueDetector.ts (src/unnamed/part_001),
    - [LogScanner], from LogScanner.ts (src/unnamed/part_002),
    followed by the properties of the engine.

    Conventions of the embedding.
    - A JavaScript string is the [string] of the bytes of its UTF-8 text.
      The keywords searched for are ASCII, so an occurrence in the bytes is
      an occurrence in the JavaScript string and [Js.indexOf], the position
      of the first one in bytes, denotes the same place and has the same
      sign as in JavaScript.  Where the code counts characters (the offset
      of [getMessageFromFirstLogLine]) the model counts UTF-16 code units
      as JavaScript does ([Js.length16], [Js.indexOf16], [Js.substring16]).
    - Objects are passed explicitly: a method takes [this] and returns the
      updated [this].  The registry of a scanner is a [list] of detector
      objects and the reference [activatedIssueDetector] is the index of the
      referenced detector in the registry.
    - [uuidv4()] is a supply of fresh identifiers: a counter threaded through
      every computation that may create an [Issue] (the monad [M]).
    - A JavaScript exception is the completion [Throw]; console output is not
      modelled. *)

From Stdlib Require Import ZArith Lia Bool.
From stdpp Require Import base tactics list strings.

Local Open Scope Z_scope.

(** ** Completions and the identifier supply *)

Inductive completion (A : Type) : Type :=
| Normal (a : A)
| Throw (e : string).
Arguments Normal {A} a.
Arguments Throw {A} e.

Definition uuid : Type := nat.

Definition M (A : Type) : Type := uuid -> A * uuid.

Definition ret {A : Type} (a : A) : M A := fun u => (a, u).

Definition bind {A B : Type} (m : M A) (k : A -> M B) : M B :=
  fun u => let (a, u') := m u in k a u'.

Notation "'let*' x := m 'in' k" := (bind m (fun x => k))
  (at level 10, x name, m at level 100, k at level 200).
Notation "'let*' ' p := m 'in' k" := (bind m (fun x => let 'p := x in k))
  (at level 10, p strict pattern, m at level 100, k at level 200).

(** [uuidv4()]: the next identifier of the supply. *)
Definition uuidv4 : M uuid := fun u => (u, S u).

(** ** JavaScript string primitives used by the engine *)

Module Js.

(** [s.startsWith(p)], the test behind [indexOf]. *)
Fixpoint startsWith (p s : string) : bool :=
  match p, s with
  | EmptyString, _ => true
  | String _ _, EmptyString => false
  | String a p', String b s' => Ascii.eqb a b && startsWith p' s'
  end.

Fixpoint indexOfFrom (i : nat) (s needle : string) : Z :=
  if startsWith needle s then Z.of_nat i
  else match s with
       | EmptyString => -1
       | String _ s' => indexOfFrom (S i) s' needle
       end.

(** [s.indexOf(needle)]: position of the first occurrence, in bytes of
    the text, [-1] if none. *)
Definition indexOf (s needle : string) : Z := indexOfFrom 0 s needle.

Fixpoint drop (n : nat) (s : string) : string :=
  match n, s with
  | O, _ => s
  | S _, EmptyString => EmptyString
  | S n', String _ s' => drop n' s'
  end.

(** [s.substring(start)] for a [start] that is a position in bytes, as
    [indexOf] gives it: a negative start counts as 0, one past the end
    gives the empty string. *)
Definition substring (s : string) (start : Z) : string :=
  drop (Z.to_nat start) s.

Definition LF : Ascii.ascii := Ascii.ascii_of_nat 10.

(** [s.split('\n')]: never empty, [''.split('\n')] is [['']]. *)
Fixpoint split_lines (s : string) : list string :=
  match s with
  | EmptyString => [EmptyString]
  | String c s' =>
      if Ascii.eqb c LF then EmptyString :: split_lines s'
      else match split_lines s' with
           | [] => [String c EmptyString]
           | l :: ls => String c l :: ls
           end
  end.

(** [s.endsWith(p)]. *)
Definition endsWith (s p : string) : bool :=
  startsWith p (drop (String.length s - String.length p) s)
  && (String.length p <=? String.length s)%nat.

(** [a[i]] on an array: [undefined] (here [None]) out of range. *)
Definition at_ {A : Type} (a : list A) (i : Z) : option A :=
  if i <? 0 then None else a !! Z.to_nat i.

(** *** Counting in UTF-16 code units

    A character of the UTF-8 text begins with a byte that tells how many
    bytes follow it; it makes one code unit of the JavaScript string, and
    two (a surrogate pair) when it has four bytes. *)
Definition following (c : Ascii.ascii) : nat :=
  let n := Ascii.nat_of_ascii c in
  if (n <? 192)%nat then 0%nat
  else if (n <? 224)%nat then 1%nat
  else if (n <? 240)%nat then 2%nat
  else 3%nat.

Definition codeUnits (c : Ascii.ascii) : nat :=
  if (Ascii.nat_of_ascii c <? 240)%nat then 1%nat else 2%nat.

(** The code units of [s], which begins [inside] bytes before the end of
    a character. *)
Fixpoint unitsFrom (inside : nat) (s : string) : nat :=
  match s with
  | EmptyString => 0%nat
  | String c s' =>
      match inside with
      | S inside' => unitsFrom inside' s'
      | O => (codeUnits c + unitsFrom (following c) s')%nat
      end
  end.

(** [s.length]. *)
Definition length16 (s : string) : nat := unitsFrom 0 s.

(** The first [n] bytes of [s]. *)
Fixpoint take (n : nat) (s : string) : string :=
  match n, s with
  | O, _ => EmptyString
  | S _, EmptyString => EmptyString
  | S n', String c s' => String c (take n' s')
  end.

(** [s.indexOf(needle)] as JavaScript counts it: the code units before
    the first occurrence. *)
Definition indexOf16 (s needle : string) : Z :=
  let position := indexOf s needle in
  if position <? 0 then -1
  else Z.of_nat (length16 (take (Z.to_nat position) s)).

(** U+FFFD, which stands in UTF-8 text for half a surrogate pair. *)
Definition replacement : string :=
  String (Ascii.ascii_of_nat 239)
    (String (Ascii.ascii_of_nat 191)
       (String (Ascii.ascii_of_nat 189) EmptyString)).

(** [s] without its first [n] code units.  Dropping one code unit of a
    character that makes two leaves the other half of the pair. *)
Fixpoint skip (n : nat) (s : string) : string :=
  match n, s with
  | O, _ => s
  | S _, EmptyString => EmptyString
  | S n', String c s' =>
      let rest := drop (following c) s' in
      match codeUnits c, n' with
      | S (S _), O => replacement +:+ rest
      | S (S _), S n'' => skip n'' rest
      | _, _ => skip n' rest
      end
  end.

(** [s.substring(start)] as JavaScript counts it. *)
Definition substring16 (s : string) (start : Z) : string :=
  skip (Z.to_nat start) s.

End Js.

(** ** models/Issue.ts *)

Module EIssueType.
Inductive t : Set := Error | Exception | Crash.
End EIssueType.

Module Issue.

Record t : Type := mk {
  id : uuid;
  type : EIssueType.t;
  message : string;
  rawLogs : list string;
  stackTrace : list string;
  context : list string;
  source : string;
  severity : string
}.

Definition getSeverityFromType (type : EIssueType.t) : string :=
  match type with
  | EIssueType.Crash => "critical"
  | EIssueType.Exception => "high"
  | EIssueType.Error => "medium"
  end.

(** [new Issue(type, message)]; an omitted [type] defaults to [Error],
    an omitted (or empty) [message] to the empty string. *)
Definition new (type : option EIssueType.t) (message : option string) : M t :=
  let type := default EIssueType.Error type in
  let* id := uuidv4 in
  ret {| id := id;
         type := type;
         message := default EmptyString message;
         stackTrace := [];
         rawLogs := [];
         context := [];
         source := EmptyString;
         severity := getSeverityFromType type |}.

Definition addLogLine (this : t) (line : string) : t :=
  {| id := id this; type := type this; message := message this;
     rawLogs := rawLogs this ++ [line];
     stackTrace := stackTrace this; context := context this;
     source := source this; severity := severity this |}.

Definition addStacktraceLine (this : t) (stacktrace : string) : t :=
  {| id := id this; type := type this; message := message this;
     rawLogs := rawLogs this;
     stackTrace := stackTrace this ++ [stacktrace]; context := context this;
     source := source this; severity := severity this |}.

(** The assignment [issue.type = type] to the public field. *)
Definition set_type (this : t) (type : EIssueType.t) : t :=
  {| id := id this; type := type; message := message this;
     rawLogs := rawLogs this;
     stackTrace := stackTrace this; context := context this;
     source := source this; severity := severity this |}.

(** The assignment [issue.source = path] (done by [scanLogFile]). *)
Definition set_source (this : t) (path : string) : t :=
  {| id := id this; type := type this; message := message this;
     rawLogs := rawLogs this;
     stackTrace := stackTrace this; context := context this;
     source := path; severity := severity this |}.

End Issue.

(** ** issue_detecter/IssueDetector.ts *)

Module EIssueDetectorState.
Inductive t : Set := None | Activated | Finished.
End EIssueDetectorState.

(** The interface [IIssueDetector].  [receiveLine] may create an [Issue],
    hence runs in [M]; both methods return the updated detector. *)
Class IIssueDetector (D : Type) : Type := {
  receiveLine : D -> string -> M (D * completion EIssueDetectorState.t);
  pickIssue : D -> D * completion Issue.t
}.

Definition PUERTS_ERROR_KEYWORD : string := "Puerts: Error:".
Definition PUERTS_DEMO_PTR : string := "(0x0x300b08e68)".
Definition PUERTS_STACK_KEYWORD : string := "    at ".

Module PuertsExceptionDetector.

Record t : Type := mk {
  issue : option Issue.t;
  state : EIssueDetectorState.t
}.

(** [new PuertsExceptionDetector()]. *)
Definition new : t :=
  {| issue := None; state := EIssueDetectorState.None |}.

Definition getMessageFromFirstLogLine (line : string) : string :=
  let msgIndex :=
    Js.indexOf16 line PUERTS_ERROR_KEYWORD
    + Z.of_nat (Js.length16 PUERTS_ERROR_KEYWORD)
    + Z.of_nat (Js.length16 PUERTS_DEMO_PTR) in
  Js.substring16 line msgIndex.

Definition isLogIndicateFinished (line : string) : bool :=
  if 0 <? Js.indexOf line PUERTS_ERROR_KEYWORD then true else false.

Definition receiveLine (this : t) (line : string)
  : M (t * completion EIssueDetectorState.t) :=
  match state this with
  | EIssueDetectorState.None =>
      if 0 <? Js.indexOf line PUERTS_ERROR_KEYWORD then
        let* issue0 := Issue.new (Some EIssueType.Error)
                                 (Some (getMessageFromFirstLogLine line)) in
        let issue1 := Issue.addLogLine issue0 line in
        let stackKeywordIndex := Js.indexOf line PUERTS_STACK_KEYWORD in
        let issue2 :=
          if 0 <=? stackKeywordIndex
          then Issue.addStacktraceLine issue1
                 (Js.substring line stackKeywordIndex)
          else issue1 in
        ret ({| issue := Some issue2;
                state := EIssueDetectorState.Activated |},
             Normal EIssueDetectorState.Activated)
      else ret (this, Normal EIssueDetectorState.None)
  | _ =>
      if isLogIndicateFinished line then
        match issue this with
        | Some i =>
            ret ({| issue := Some (Issue.addLogLine i line);
                    state := state this |},
                 Normal EIssueDetectorState.Finished)
        | None =>
            (* [this.issue!.addLogLine] on [undefined] *)
            ret (this, Throw "TypeError")
        end
      else ret (this, Normal EIssueDetectorState.Activated)
  end.

Definition pickIssue (this : t) : t * completion Issue.t :=
  match issue this with
  | None => (this, Throw "issue not exist")
  | Some i =>
      ({| issue := None; state := EIssueDetectorState.None |}, Normal i)
  end.

Definition getState (this : t) : EIssueDetectorState.t := state this.

End PuertsExceptionDetector.

#[export] Instance PuertsExceptionDetector_IIssueDetector
  : IIssueDetector PuertsExceptionDetector.t :=
  {| receiveLine := PuertsExceptionDetector.receiveLine;
     pickIssue := PuertsExceptionDetector.pickIssue |}.

(** ** LogScanner.ts *)

Module LogScanner.

Section Engine.

Context {D : Type} `{IIssueDetector D}.

Record t : Type := mk {
  issueDetectors : list D;
  activatedIssueDetector : option nat
}.

(** The variables of [scanLogContent] that live across iterations:
    the cursor [i], the output array [issues] and the scanner. *)
Record frame : Type := Frame {
  i : Z;
  issues : list Issue.t;
  scanner : t
}.

(** The inner loop [for (const detector of this.issueDetectors)]:
    [seen] are the detectors already offered the line, [todo] the
    remaining ones.  Returns the registry, the slot and the completion.
    The loop is entered with an empty slot only, so the branch logging
    "activatedIssueDetector should be null!" is dead. *)
Fixpoint probe (seen todo : list D) (line : string)
  : M (list D * option nat * completion unit) :=
  match todo with
  | [] => ret (seen, None, Normal tt)
  | detector :: todo' =>
      let* '(detector', state) := receiveLine detector line in
      match state with
      | Throw e => ret (seen ++ detector' :: todo', None, Throw e)
      | Normal EIssueDetectorState.Activated =>
          (* this.activatedIssueDetector = detector; break *)
          ret (seen ++ detector' :: todo', Some (length seen), Normal tt)
      | Normal _ => probe (seen ++ [detector']) todo' line
      end
  end.

(** The body of the [for] loop of [scanLogContent] on [line = lines[i]].
    The slot always refers to a detector of the registry (lemma
    [forLoop_slot_valid]); the branch for a slot outside the registry is
    there only to make the function total. *)
Definition body (line : string) (f : frame) : M (frame * completion unit) :=
  let detectors := issueDetectors (scanner f) in
  match activatedIssueDetector (scanner f) with
  | Some k =>
      match detectors !! k with
      | None => ret (f, Throw "TypeError")
      | Some detector =>
          let* '(detector', state) := receiveLine detector line in
          let detectors' := <[k := detector']> detectors in
          let f' := {| i := i f; issues := issues f;
                       scanner := {| issueDetectors := detectors';
                                  activatedIssueDetector := Some k |} |} in
          match state with
          | Throw e => ret (f', Throw e)
          | Normal EIssueDetectorState.Activated => ret (f', Normal tt)
          | Normal EIssueDetectorState.Finished =>
              let '(detector'', picked) := pickIssue detector' in
              let detectors'' := <[k := detector'']> detectors' in
              match picked with
              | Throw e =>
                  ret ({| i := i f; issues := issues f;
                          scanner := {| issueDetectors := detectors'';
                                     activatedIssueDetector := Some k |} |},
                       Throw e)
              | Normal issue =>
                  ret ({| i := i f - 1;
                          issues := issues f ++ [issue];
                          scanner := {| issueDetectors := detectors'';
                                     activatedIssueDetector := None |} |},
                       Normal tt)
              end
          | Normal EIssueDetectorState.None =>
              (* no case of the switch matches *)
              ret (f', Normal tt)
          end
      end
  | None =>
      let* '(detectors', slot, r) := probe [] detectors line in
      ret ({| i := i f; issues := issues f;
              scanner := {| issueDetectors := detectors';
                         activatedIssueDetector := slot |} |}, r)
  end.

(** [for (let i = 0; i < lines.length; i++) { body }], started in frame
    [f].  [fuel] bounds the number of iterations; [None] is returned
    when it runs out.  [lines[i]] is defined at every iteration (the
    cursor never goes below 0, lemma [forLoop_cursor]). *)
Fixpoint forLoop (fuel : nat) (lines : list string) (f : frame)
  : M (frame * option (completion unit)) :=
  if i f <? Z.of_nat (length lines) then
    match fuel with
    | O => ret (f, None)
    | S fuel' =>
        match Js.at_ lines (i f) with
        | None => ret (f, Some (Throw "TypeError"))
        | Some line =>
            let* '(f', r) := body line f in
            match r with
            | Throw e => ret (f', Some (Throw e))
            | Normal _ =>
                forLoop fuel' lines
                  {| i := i f' + 1; issues := issues f'; scanner := scanner f' |}
            end
        end
    end
  else ret (f, Some (Normal tt)).

(** Iterations that [scanLogContent] can need on [lines]: every line is
    the cursor of at most two iterations, and one more closes a block
    left open by an earlier scan (theorem [forLoop_fuel]). *)
Definition iterations (lines : list string) : nat :=
  (2 * length lines + 1)%nat.

Definition scanLines (this : t) (lines : list string)
  : M (t * option (completion (list Issue.t))) :=
  let* '(f, r) :=
    forLoop (iterations lines) lines {| i := 0; issues := []; scanner := this |} in
  ret (scanner f,
       match r with
       | Some (Normal _) => Some (Normal (issues f))
       | Some (Throw e) => Some (Throw e)
       | None => None
       end).

Definition scanLogContent (this : t) (content : string)
  : M (t * option (completion (list Issue.t))) :=
  scanLines this (Js.split_lines content).

End Engine.

Arguments t D : clear implicits.
Arguments frame D : clear implicits.

(** [new LogScanner(config)]: the configuration is not used. *)
Definition new {Config : Type} (config : Config) : t PuertsExceptionDetector.t :=
  {| issueDetectors := [PuertsExceptionDetector.new];
     activatedIssueDetector := None |}.

Section Files.

Context {D : Type} `{IIssueDetector D}.

(** The collaborators [path] and [fs-extra]: a failing promise is the
    completion [Throw]. *)
Variable normalize : string -> string.
Variable join : string -> string -> string.
Variable pathExists : string -> bool.
Variable readFile : string -> completion string.
Variable readdir : string -> completion (list string).

(** [scanLogFile]: every exception is caught and turned into [[]]; the
    scanner keeps what the interrupted scan did to it. *)
Definition scanLogFile (this : t D) (filePath : string)
  : M (t D * option (list Issue.t)) :=
  let normalizedPath := normalize filePath in
  if negb (pathExists normalizedPath) then ret (this, Some [])
  else
    match readFile normalizedPath with
    | Throw _ => ret (this, Some [])
    | Normal content =>
        let* '(this', r) := scanLogContent this content in
        match r with
        | None => ret (this', None)
        | Some (Throw _) => ret (this', Some [])
        | Some (Normal issues) =>
            ret (this',
                 Some (map (fun issue => Issue.set_source issue normalizedPath)
                           issues))
        end
    end.

(** The loop [for (const file of logFiles)] of [scanLogDirectory]. *)
Fixpoint scanLogFiles (this : t D) (dirPath : string)
  (logFiles : list string) (allIssues : list Issue.t)
  : M (t D * option (list Issue.t)) :=
  match logFiles with
  | [] => ret (this, Some allIssues)
  | file :: logFiles' =>
      let filePath := join dirPath file in
      let* '(this', r) := scanLogFile this filePath in
      match r with
      | None => ret (this', None)
      | Some issues =>
          scanLogFiles this' dirPath logFiles' (allIssues ++ issues)
      end
  end.

Definition scanLogDirectory (this : t D) (dirPath : string)
  : M (t D * option (list Issue.t)) :=
  match readdir dirPath with
  | Throw _ => ret (this, Some [])
  | Normal files =>
      let logFiles := List.filter (fun file => Js.endsWith file ".log") files in
      scanLogFiles this dirPath logFiles []
  end.

End Files.

End LogScanner.

(** * Notions used in the statements *)

Section Notions.

Import LogScanner.

(** The test made on a line both to open and to close a block. *)
Definition marks (line : string) : bool :=
  0 <? Js.indexOf line PUERTS_ERROR_KEYWORD.

(** The issue a detector owns right after [line] activated it, with [u]
    the identifier drawn. *)
Definition opened (line : string) (u : uuid) : Issue.t :=
  let issue1 :=
    {| Issue.id := u;
       Issue.type := EIssueType.Error;
       Issue.message := PuertsExceptionDetector.getMessageFromFirstLogLine line;
       Issue.rawLogs := [line];
       Issue.stackTrace := [];
       Issue.context := [];
       Issue.source := EmptyString;
       Issue.severity := "medium" |} in
  if 0 <=? Js.indexOf line PUERTS_STACK_KEYWORD
  then Issue.addStacktraceLine issue1
         (Js.substring line (Js.indexOf line PUERTS_STACK_KEYWORD))
  else issue1.

Definition active (x : Issue.t) : PuertsExceptionDetector.t :=
  {| PuertsExceptionDetector.issue := Some x;
     PuertsExceptionDetector.state := EIssueDetectorState.Activated |}.

(** A registry of [S m] shipped detectors whose first one owns [cur]
    (none is bound when [cur] is [None]).  Equal detectors are offered a
    line in order, so only the first one is ever bound. *)
Definition registry (cur : option Issue.t) (m : nat) : t PuertsExceptionDetector.t :=
  match cur with
  | None =>
      {| issueDetectors := PuertsExceptionDetector.new
                           :: replicate m PuertsExceptionDetector.new;
         activatedIssueDetector := None |}
  | Some x =>
      {| issueDetectors := active x :: replicate m PuertsExceptionDetector.new;
         activatedIssueDetector := Some 0%nat |}
  end.

(** [replay cur lines u] follows the lines with [cur] the issue in
    progress: a marked line closes [cur] (if any) and opens the next
    issue; any other line changes nothing.  It returns the issues
    emitted, the issue left in progress and the identifier supply. *)
Fixpoint replay (cur : option Issue.t) (lines : list string) (u : uuid)
  : list Issue.t * option Issue.t * uuid :=
  match lines with
  | [] => ([], cur, u)
  | line :: lines' =>
      if marks line then
        let '(emitted, cur', u') := replay (Some (opened line u)) lines' (S u) in
        (match cur with
         | Some x => Issue.addLogLine x line :: emitted
         | None => emitted
         end, cur', u')
      else replay cur lines' u
  end.

Definition isActivated (d : PuertsExceptionDetector.t) : bool :=
  match PuertsExceptionDetector.getState d with
  | EIssueDetectorState.Activated => true
  | _ => false
  end.

(** A scanner over [S m] shipped detectors, together with the identifier
    supply: newly constructed, or left by a scan of any content.
    Identifiers may be drawn by other parts of the program between
    scans. *)
Inductive reachable : t PuertsExceptionDetector.t -> uuid -> Prop :=
| reachable_new (m : nat) (u : uuid) :
    reachable (registry None m) u
| reachable_uuid (s : t PuertsExceptionDetector.t) (u : uuid) :
    reachable s u -> reachable s (S u)
| reachable_scan (s s' : t PuertsExceptionDetector.t) (u u' : uuid)
    (content : string) (r : option (completion (list Issue.t))) :
    reachable s u ->
    scanLogContent s content u = (s', r, u') ->
    reachable s' u'.

(** *** The loop, for any detectors *)

(** The slot refers to a detector of the registry. *)
Definition slot_valid {D : Type} (s : t D) : Prop :=
  forall k, activatedIssueDetector s = Some k -> (k < length (issueDetectors s))%nat.

(** The measure of the loop: two units per line from the cursor on, one
    more while a detector is bound. *)
Definition weight {D : Type} (lines : list string) (f : frame D) : nat :=
  (2 * Z.to_nat (Z.of_nat (length lines) - i f)
   + match activatedIssueDetector (scanner f) with Some _ => 1 | None => 0 end)%nat.

Definition advance {D : Type} (f : frame D) : frame D :=
  {| i := i f + 1; issues := issues f; scanner := scanner f |}.

Definition activeCount {D : Type} (isActive : D -> bool) (ds : list D) : nat :=
  length (List.filter isActive ds).

(** Every active detector of the registry is the one the slot refers to. *)
Definition bound {D : Type} (isActive : D -> bool) (s : t D) : Prop :=
  forall j d,
    issueDetectors s !! j = Some d -> isActive d = true ->
    activatedIssueDetector s = Some j.

(** *** A directory [logs] with two log files and one other file *)





End Notions.

From Stdlib Require Import Sorted QArith.

Local Close Scope Q_scope.
Local Open Scope Z_scope.

(** * Further notions on the engine *)

Section Engine_notions.

Import LogScanner.

(** The issues a scan emits when the marked lines it meets are [ms], the
    first of them drawing the identifier [u]: one issue for each marked
    line but the last, closed by the marked line that follows it. *)
Fixpoint emitted_of (ms : list string) (u : uuid) : list Issue.t :=
  match ms with
  | a :: ((b :: _) as rest) =>
      Issue.addLogLine (opened a u) b :: emitted_of rest (S u)
  | _ => []
  end.

(** The issue opened by the last line of [ms]. *)
Fixpoint in_progress (ms : list string) (u : uuid) : option Issue.t :=
  match ms with
  | [] => None
  | [a] => Some (opened a u)
  | _ :: rest => in_progress rest (S u)
  end.

(** The issue in progress is the one its opening line created. *)
Definition carried (cur : option Issue.t) (u : uuid) : Prop :=
  forall x, cur = Some x ->
            exists l k, x = opened l k /\ marks l = true /\ (k < u)%nat.

(** [wholeFrom inside s]: the text [s], which begins [inside] bytes
    before the end of a character, ends with the end of a character. *)
Fixpoint wholeFrom (inside : nat) (s : string) : bool :=
  match s with
  | EmptyString => (inside =? 0)%nat
  | String c s' =>
      match inside with
      | S inside' => wholeFrom inside' s'
      | O => wholeFrom (Js.following c) s'
      end
  end.

(** A text made of whole characters. *)
Definition whole (s : string) : bool := wholeFrom 0 s.

(** A detector obtained from a new one by calls of its two methods, in any
    order and with any lines. *)
Inductive driven : PuertsExceptionDetector.t -> Prop :=
| driven_new : driven PuertsExceptionDetector.new
| driven_receiveLine (d : PuertsExceptionDetector.t) (line : string) (u : uuid) :
    driven d ->
    driven (fst (fst (PuertsExceptionDetector.receiveLine d line u)))
| driven_pickIssue (d : PuertsExceptionDetector.t) :
    driven d ->
    driven (fst (PuertsExceptionDetector.pickIssue d)).

End Engine_notions.

(** * index.js: the command line *)

Module Index.

(** The object [options] of [parseArgs]; [null] is [None]. *)
Record options : Type := Options {
  logFile : option string;
  logDir : option string;
  logContent : option string;
  config : option string;
  open : bool
}.

(** How a run of the program goes on: with a value, or not at all after
    [process.exit(code)]. *)
Inductive run (A : Type) : Type :=
| Returned (a : A)
| Exit (code : Z).
Arguments Returned {A} a.
Arguments Exit {A} code.

(** The four options that take the next argument as their value, with the
    assignment each one makes. *)
Definition valueOption (arg : string) : option (options -> string -> options) :=
  if String.eqb arg "--logFile" then
    Some (fun o v => {| logFile := Some v; logDir := logDir o;
                        logContent := logContent o; config := config o;
                        open := open o |})
  else if String.eqb arg "--logDir" then
    Some (fun o v => {| logFile := logFile o; logDir := Some v;
                        logContent := logContent o; config := config o;
                        open := open o |})
  else if String.eqb arg "--logContent" then
    Some (fun o v => {| logFile := logFile o; logDir := logDir o;
                        logContent := Some v; config := config o;
                        open := open o |})
  else if String.eqb arg "--config" then
    Some (fun o v => {| logFile := logFile o; logDir := logDir o;
                        logContent := logContent o; config := Some v;
                        open := open o |})
  else None.

(** The loop of [parseArgs] on the arguments from the cursor on.  An
    option that takes a value is honoured when an argument follows
    ([i + 1 < args.length]), which it consumes ([args[++i]]); at the last
    position it falls through the chain, like an unknown argument. *)
Fixpoint parseArgsFrom (o : options) (args : list string) : run options :=
  match args with
  | [] => Returned o
  | arg :: rest =>
      match valueOption arg, rest with
      | Some assign, value :: rest' => parseArgsFrom (assign o value) rest'
      | _, _ =>
          if String.eqb arg "--open" then
            parseArgsFrom {| logFile := logFile o; logDir := logDir o;
                             logContent := logContent o; config := config o;
                             open := true |} rest
          else if String.eqb arg "--help" then Exit 0   (* showHelp(); process.exit(0) *)
          else parseArgsFrom o rest
      end
  end.

(** [parseArgs()], with [args] the value of [process.argv.slice(2)]. *)
Definition parseArgs (args : list string) : run options :=
  parseArgsFrom {| logFile := None; logDir := None; logContent := None;
                   config := None; open := false |} args.

End Index.

(** ** Notions on the command line *)

(** An argument list as the parser reads it: options with their value,
    the switch [--open], and arguments it ignores. *)
Inductive token : Type :=
| TValue (name value : string)
| TOpen
| TOther (arg : string).

Definition render (toks : list token) : list string :=
  flat_map (fun tok => match tok with
                       | TValue name value => [name; value]
                       | TOpen => ["--open"]
                       | TOther arg => [arg]
                       end) toks.

(** The names a [TValue] may have, and the arguments that are ignored
    wherever they stand. *)
Definition takesValue (name : string) : bool :=
  match Index.valueOption name with Some _ => true | None => false end.

Definition ignored (arg : string) : bool :=
  negb (takesValue arg) && negb (String.eqb arg "--open")
  && negb (String.eqb arg "--help").

Definition wellFormed (tok : token) : bool :=
  match tok with
  | TValue name _ => takesValue name
  | TOpen => true
  | TOther arg => ignored arg
  end.

(** The value given last to the option [name]. *)
Fixpoint lastValue (name : string) (toks : list token) : option string :=
  match toks with
  | [] => None
  | TValue n v :: toks' =>
      match lastValue name toks' with
      | Some v' => Some v'
      | None => if String.eqb n name then Some v else None
      end
  | _ :: toks' => lastValue name toks'
  end.

Definition hasOpen (toks : list token) : bool :=
  existsb (fun tok => match tok with TOpen => true | _ => false end) toks.

(** * JavaScript maps *)

(** A [Map]: its entries in insertion order.  [set] on a key of the map
    replaces the value where the key stands, on a new key it adds an entry
    at the end. *)
Module JsMap.

Section Map.

Context {K V : Type} `{EqDecision K}.

Definition t : Type := list (K * V).

Fixpoint get (m : t) (k : K) : option V :=
  match m with
  | [] => None
  | (k', v) :: m' => if decide (k' = k) then Some v else get m' k
  end.

Definition has (m : t) (k : K) : bool :=
  match get m k with Some _ => true | None => false end.

Fixpoint set (m : t) (k : K) (v : V) : t :=
  match m with
  | [] => [(k, v)]
  | (k', v') :: m' =>
      if decide (k' = k) then (k', v) :: m' else (k', v') :: set m' k v
  end.

Definition keys (m : t) : list K := map fst m.

Definition values (m : t) : list V := map snd m.

End Map.

Arguments t K V : clear implicits.

End JsMap.

(** * models/Solution.ts *)

Module Solution.

(** [SolutionData]: the optional fields are [None] when absent.  A number
    is a rational here: the code only stores, tests and copies them. *)
Record data : Type := Data {
  data_issueId : uuid;
  data_recommendation : string;
  data_codeSnippet : option string;
  data_confidence : option Q;
  data_references : option (list string)
}.

Record t : Type := mk {
  issueId : uuid;
  recommendation : string;
  codeSnippet : string;
  confidence : Q;
  references : list string
}.

(** [new Solution(data)]: [x || d] is [d] when [x] is absent, the empty
    string or the number 0. *)
Definition new (d : data) : t :=
  {| issueId := data_issueId d;
     recommendation := data_recommendation d;
     codeSnippet := default EmptyString (data_codeSnippet d);
     confidence := match data_confidence d with
                   | Some q => if Qeq_bool q 0%Q then (1 # 2)%Q else q
                   | None => (1 # 2)%Q
                   end;
     references := default [] (data_references d) |}.

End Solution.

(** * models/ReportSummary.ts *)

(** [EIssueType[type]]: the name of a member of the enum. *)
Definition EIssueType_name (type : EIssueType.t) : string :=
  match type with
  | EIssueType.Error => "Error"
  | EIssueType.Exception => "Exception"
  | EIssueType.Crash => "Crash"
  end.

Module ReportSummary.

Record t : Type := mk {
  totalIssues : nat;
  resolvedIssues : nat;
  issuesByType : JsMap.t string nat;
  issuesBySeverity : JsMap.t string nat
}.

(** [new ReportSummary()]. *)
Definition new : t :=
  {| totalIssues := 0; resolvedIssues := 0;
     issuesByType := []; issuesBySeverity := [] |}.

(** The body of [issues.forEach] in [addStatistics]; [get(key) || 0] is 0
    for a key that is not in the map. *)
Definition countIssue (this : t) (issue : Issue.t) : t :=
  let typeKey := EIssueType_name (Issue.type issue) in
  let count := default 0%nat (JsMap.get (issuesByType this) typeKey) in
  let byType := JsMap.set (issuesByType this) typeKey (count + 1)%nat in
  let sevCount :=
    default 0%nat (JsMap.get (issuesBySeverity this) (Issue.severity issue)) in
  {| totalIssues := totalIssues this;
     resolvedIssues := resolvedIssues this;
     issuesByType := byType;
     issuesBySeverity :=
       JsMap.set (issuesBySeverity this) (Issue.severity issue) (sevCount + 1)%nat |}.

Definition addStatistics (this : t) (issues : list Issue.t)
  (solutions : list Solution.t) : t :=
  fold_left countIssue issues
    {| totalIssues := length issues;
       resolvedIssues := length solutions;
       issuesByType := issuesByType this;
       issuesBySeverity := issuesBySeverity this |}.

End ReportSummary.

(** * utils/SourceCodeFinder.ts *)

(** ** String primitives of [extractKeywords] *)

Module JsText.

(** The class [\w]. *)
Definition isWordChar (c : Ascii.ascii) : bool :=
  let n := Ascii.nat_of_ascii c in
  ((48 <=? n) && (n <=? 57) || (65 <=? n) && (n <=? 90)
   || (n =? 95) || (97 <=? n) && (n <=? 122))%nat.

(** The class [\s] on the characters of one byte; a string is the UTF-8
    text of the JavaScript string.  A character of several bytes is in
    [\s] or in neither class: either way [extractKeywords] turns it, with
    the white space around it, into one space. *)
Definition isSpaceChar (c : Ascii.ascii) : bool :=
  let n := Ascii.nat_of_ascii c in
  ((9 <=? n) && (n <=? 13) || (n =? 32))%nat.

Definition space : Ascii.ascii := Ascii.ascii_of_nat 32.

(** [s.replace(/[p]/g, ' ')]. *)
Fixpoint replaceEach (p : Ascii.ascii -> bool) (s : string) : string :=
  match s with
  | EmptyString => EmptyString
  | String c s' => String (if p c then space else c) (replaceEach p s')
  end.

(** [s.replace(/[p]+/g, ' ')]; [inRun] tells that the character before
    belongs to a run that has been replaced. *)
Fixpoint replaceRuns (p : Ascii.ascii -> bool) (inRun : bool) (s : string)
  : string :=
  match s with
  | EmptyString => EmptyString
  | String c s' =>
      if p c then
        if inRun then replaceRuns p true s'
        else String space (replaceRuns p true s')
      else String c (replaceRuns p false s')
  end.

(** [s.toLowerCase()] on a string of word characters and spaces. *)
Definition toLowerChar (c : Ascii.ascii) : Ascii.ascii :=
  let n := Ascii.nat_of_ascii c in
  if ((65 <=? n) && (n <=? 90))%nat then Ascii.ascii_of_nat (n + 32) else c.

Fixpoint toLowerCase (s : string) : string :=
  match s with
  | EmptyString => EmptyString
  | String c s' => String (toLowerChar c) (toLowerCase s')
  end.

(** [s.split(sep)] for a separator of one character. *)
Fixpoint split (sep : Ascii.ascii) (s : string) : list string :=
  match s with
  | EmptyString => [EmptyString]
  | String c s' =>
      if Ascii.eqb c sep then EmptyString :: split sep s'
      else match split sep s' with
           | [] => [String c EmptyString]
           | l :: ls => String c l :: ls
           end
  end.

(** [a.includes(x)] on an array of strings. *)
Definition includes (a : list string) (x : string) : bool :=
  existsb (String.eqb x) a.

(** [s.includes(needle)]. *)
Definition contains (s needle : string) : bool := 0 <=? Js.indexOf s needle.

(** [words.join(' ')]. *)
Fixpoint join (words : list string) : string :=
  match words with
  | [] => EmptyString
  | [w] => w
  | w :: words' => w +:+ String space (join words')
  end.

End JsText.

(** ** The file system as [readdir] and [readFile] show it *)

Module Fs.

(** An entry of [fs.readdir(dir, { withFileTypes: true })]: for an entry
    that is not a directory the outcome of [fs.readFile] on it, for a
    directory the outcome of [fs.readdir] on it. *)
#[warnings="-register-all"]
Inductive Dirent : Type :=
| File (name : string) (content : completion string)
| Directory (name : string) (listing : completion (list Dirent)).

Definition name (file : Dirent) : string :=
  match file with
  | File name _ => name
  | Directory name _ => name
  end.

(** The number of directories in an entry, itself included. *)
Fixpoint directories (file : Dirent) : nat :=
  match file with
  | File _ _ => 0%nat
  | Directory _ (Throw _) => 1%nat
  | Directory _ (Normal files) => S (list_sum (map directories files))
  end.

End Fs.

(** [for (const x of xs) body]: the body may [return] a value, which ends
    the function. *)
Fixpoint forOf {A R : Type} (body : A -> option R) (xs : list A) : option R :=
  match xs with
  | [] => None
  | x :: xs' =>
      match body x with
      | Some r => Some r
      | None => forOf body xs'
      end
  end.

(** The same for a body that updates a state; [true] tells that the body
    executed [return]. *)
Fixpoint forOfState {A S : Type} (body : A -> S -> S * bool) (xs : list A)
  (s : S) : S * bool :=
  match xs with
  | [] => (s, false)
  | x :: xs' =>
      let '(s', returned) := body x s in
      if returned then (s', true) else forOfState body xs' s'
  end.

Module SourceCodeFinder.

Record SourceInfo : Type := Info {
  file : string;
  lineNumber : option Z;
  codeSnippet : option string;
  fullContent : option string;
  matchedKeywords : option (list string)
}.

Record t : Type := mk {
  sourceRoots : list string;
  fileExtensions : list string
}.

Definition defaultExtensions : list string :=
  [".js"; ".ts"; ".jsx"; ".tsx"; ".java"; ".py"; ".c"; ".cpp"; ".cs"].

(** [new SourceCodeFinder(config)]: an array is never falsy, so the
    defaults are for the absent fields. *)
Definition new (sourceRoots fileExtensions : option (list string)) : t :=
  {| sourceRoots := default [] sourceRoots;
     fileExtensions := default defaultExtensions fileExtensions |}.

Definition commonWords : list string :=
  ["the"; "a"; "an"; "and"; "or"; "but"; "in"; "on"; "at"; "to"; "for";
   "with"; "by"; "of"].

Definition extractKeywords (message : string) : list string :=
  let cleaned :=
    JsText.toLowerCase
      (JsText.replaceRuns JsText.isSpaceChar false
         (JsText.replaceEach
            (fun c => negb (JsText.isWordChar c) && negb (JsText.isSpaceChar c))
            message)) in
  let words := JsText.split JsText.space cleaned in
  List.filter
    (fun word =>
       (3 <? String.length word)%nat && negb (JsText.includes commonWords word))
    words.

Section Finder.

(** [path.join], [path.extname], [path.basename], [path.isAbsolute],
    [String.prototype.toLowerCase], [fs.stat(p)] followed by [isFile()], and
    [fs.readdir] on a source root. *)
Variable join : string -> string -> string.
Variable extname : string -> string.
Variable basename : string -> string.
Variable isAbsolute : string -> bool.
Variable toLowerCase : string -> string.
Variable stat_isFile : string -> completion bool.
Variable readdir : string -> completion (list Fs.Dirent).

Definition fileExists (filePath : string) : bool :=
  match stat_isFile filePath with
  | Normal isFile => isFile
  | Throw _ => false
  end.

(** A string is falsy when it is empty. *)
Definition truthy (s : string) : bool := negb (String.eqb s EmptyString).

(** The body of the loop of [findFileInDirectory] on one entry; the
    listing of a subdirectory is the one [readdir] gives for it. *)
Fixpoint findFileBody (directory fileName : string) (file : Fs.Dirent)
  {struct file} : option string :=
  let fullPath := join directory (Fs.name file) in
  match file with
  | Fs.Directory _ listing =>
      let found :=
        match listing with
        | Normal files => forOf (findFileBody fullPath fileName) files
        | Throw _ => None
        end in
      match found with
      | Some found => if truthy found then Some found else None
      | None => None
      end
  | Fs.File name _ =>
      if String.eqb name fileName then Some fullPath else None
  end.

Definition findFileInListing (directory : string)
  (listing : completion (list Fs.Dirent)) (fileName : string) : option string :=
  match listing with
  | Normal files => forOf (findFileBody directory fileName) files
  | Throw _ => None
  end.

Definition findFileInDirectory (directory fileName : string) : option string :=
  findFileInListing directory (readdir directory) fileName.

Definition findFile (this : t) (filePath : string) : option string :=
  if isAbsolute filePath && fileExists filePath then Some filePath
  else
    let fileName := basename filePath in
    forOf (fun root =>
             let directPath := join root filePath in
             if fileExists directPath then Some directPath
             else
               match findFileInDirectory root fileName with
               | Some foundPath =>
                   if truthy foundPath then Some foundPath else None
               | None => None
               end)
          (sourceRoots this).

(** The body of the loop of [searchDirectoryForKeywords] on one entry. *)
Fixpoint searchBody (this : t) (directory : string) (keywords : list string)
  (file : Fs.Dirent) (results : list SourceInfo) {struct file}
  : list SourceInfo * bool :=
  let fullPath := join directory (Fs.name file) in
  match file with
  | Fs.Directory _ listing =>
      match listing with
      | Normal files =>
          (fst (forOfState (searchBody this fullPath keywords) files results),
           false)
      | Throw _ => (results, false)
      end
  | Fs.File name content =>
      let ext := extname name in
      if JsText.includes (fileExtensions this) ext then
        match content with
        | Normal content =>
            let matchedKeywords :=
              List.filter
                (fun keyword =>
                   JsText.contains (toLowerCase content) (toLowerCase keyword))
                keywords in
            if (0 <? length matchedKeywords)%nat then
              let results :=
                results ++ [{| file := fullPath;
                               lineNumber := None;
                               codeSnippet := None;
                               fullContent := Some content;
                               matchedKeywords := Some matchedKeywords |}] in
              if (5 <=? length results)%nat then (results, true)
              else (results, false)
            else (results, false)
        | Throw _ => (results, false)
        end
      else (results, false)
  end.

Definition searchListing (this : t) (directory : string)
  (listing : completion (list Fs.Dirent)) (keywords : list string)
  (results : list SourceInfo) : list SourceInfo :=
  match listing with
  | Normal files =>
      fst (forOfState (searchBody this directory keywords) files results)
  | Throw _ => results
  end.

Definition searchDirectoryForKeywords (this : t) (directory : string)
  (keywords : list string) (results : list SourceInfo) : list SourceInfo :=
  searchListing this directory (readdir directory) keywords results.

Definition findFilesByKeywords (this : t) (keywords : list string)
  : list SourceInfo :=
  fold_left (fun results root =>
               searchDirectoryForKeywords this root keywords results)
            (sourceRoots this) [].

End Finder.

End SourceCodeFinder.

(** * Values read from JSON *)

Module Json.

(** A value [JSON.parse] returns; the members of an object have distinct
    names. *)
#[warnings="-register-all"]
Inductive value : Type :=
| Null
| Bool (b : bool)
| Number (q : Q)
| Str (s : string)
| Array (items : list value)
| Object (members : list (string * value)).

Definition truthy (v : value) : bool :=
  match v with
  | Null => false
  | Bool b => b
  | Number q => negb (Qeq_bool q 0%Q)
  | Str s => negb (String.eqb s EmptyString)
  | Array _ => true
  | Object _ => true
  end.

(** [v[name]] for a name that is neither inherited nor an index nor
    [length]: [undefined], here [None], on everything but an object with
    that member. *)
Definition prop (v : value) (name : string) : option value :=
  match v with
  | Object members => JsMap.get members name
  | _ => None
  end.

(** [a || b] and the test of [a ? _ : _], for [a] possibly [undefined]. *)
Definition test (a : option value) : bool :=
  match a with
  | Some v => truthy v
  | None => false
  end.

Definition orElse (a : option value) (b : value) : value :=
  match a with
  | Some v => if truthy v then v else b
  | None => b
  end.

End Json.

(** * utils/ConfigManager.ts *)

Module ConfigManager.

Record ScannerConfig : Type := Scanner {
  logPatterns : Json.value;
  stackTracePatterns : Json.value
}.

(** [sourceDir] is copied as it is, [undefined] included. *)
Record ResolverConfig : Type := Resolver {
  sourceDir : option Json.value;
  llm : Json.value
}.

Record ReportConfig : Type := Report {
  templatePath : Json.value;
  outputDir : Json.value
}.

(** [config] is [None] for [null]. *)
Record t : Type := mk {
  configPath : string;
  config : option Json.value
}.

Definition new (configPath : string) : t :=
  {| configPath := configPath; config := None |}.

Definition notLoaded : string := "Config not loaded. Call loadConfig() first.".

Section Manager.

(** [fs.readFile(_, 'utf8')], [JSON.parse], and the value of
    [path.join(__dirname, "../templates/report.html")]. *)
Variable readFile : string -> completion string.
Variable parse : string -> completion Json.value.
Variable defaultTemplate : string.

Definition getDefaultConfig : Json.value :=
  Json.Object
    [("sourceDir", Json.Null);
     ("logPatterns",
      Json.Object
        [("error",
          Json.Array [Json.Str "ERROR"; Json.Str "Exception"; Json.Str "FATAL"]);
         ("warning", Json.Array [Json.Str "WARN"; Json.Str "WARNING"])]);
     ("stackTracePatterns",
      Json.Array
        [Json.Str "at\s+([\w$.]+)\s\((.+?):(\d+):(\d+)\)";
         Json.Str "([\w$.]+)\s\((.+?):(\d+):(\d+)\)"]);
     ("llm",
      Json.Object
        [("deepseek-r1",
          Json.Object
            [("key", Json.Str EmptyString);
             ("endpoint", Json.Str "https://api.deepseek.com/v1")])]);
     ("reportTemplate", Json.Str defaultTemplate);
     ("outputDir", Json.Str "./reports")].

Definition loadConfig (this : t) : t * Json.value :=
  let default :=
    ({| configPath := configPath this; config := Some getDefaultConfig |},
     getDefaultConfig) in
  match readFile (configPath this) with
  | Normal configData =>
      match parse configData with
      | Normal parsed =>
          ({| configPath := configPath this; config := Some parsed |}, parsed)
      | Throw _ => default
      end
  | Throw _ => default
  end.

Definition getLogScannerConfig (this : t) : completion ScannerConfig :=
  if Json.test (config this) then
    let config := default Json.Null (config this) in
    Normal {| logPatterns :=
                Json.orElse (Json.prop config "logPatterns") (Json.Object []);
              stackTracePatterns :=
                Json.orElse (Json.prop config "stackTracePatterns")
                  (Json.Array []) |}
  else Throw notLoaded.

Definition getProblemResolverConfig (this : t) : completion ResolverConfig :=
  if Json.test (config this) then
    let config := default Json.Null (config this) in
    Normal {| sourceDir := Json.prop config "sourceDir";
              llm := Json.orElse (Json.prop config "llm") (Json.Object []) |}
  else Throw notLoaded.

Definition getReportGeneratorConfig (this : t) : completion ReportConfig :=
  if Json.test (config this) then
    let config := default Json.Null (config this) in
    Normal {| templatePath :=
                Json.orElse (Json.prop config "reportTemplate")
                  (Json.Str defaultTemplate);
              outputDir :=
                Json.orElse (Json.prop config "outputDir")
                  (Json.Str "./reports") |}
  else Throw notLoaded.

End Manager.

End ConfigManager.

(** * utils/LLMClient.ts *)

Module LLMClient.

(** [LLMResponse], the value of [parseSolution]. *)
Record LLMResponse : Type := Response {
  recommendation : string;
  codeSnippet : string;
  references : list string
}.

Record t : Type := mk {
  apiKey : Json.value;
  endpoint : Json.value;
  model : string
}.

(** The client [new ProblemResolver(config)] makes: of the entry
    [deepseek-r1] of [config.llm], when there is one, else of
    [{ key: '', endpoint: '' }]. *)
Definition ofResolverConfig (config : ConfigManager.ResolverConfig) : t :=
  let llmConfig :=
    if Json.truthy (ConfigManager.llm config)
       && Json.test (Json.prop (ConfigManager.llm config) "deepseek-r1")
    then default Json.Null (Json.prop (ConfigManager.llm config) "deepseek-r1")
    else Json.Object [("key", Json.Str EmptyString);
                      ("endpoint", Json.Str EmptyString)] in
  {| apiKey := Json.orElse (Json.prop llmConfig "key") (Json.Str EmptyString);
     endpoint := Json.orElse (Some (Json.orElse (Json.prop llmConfig "endpoint")
                                      (Json.Str "https://api.deepseek.com/v1")))
                   (Json.Str "https://api.deepseek.com/v1");
     model := "deepseek-coder" |}.

(** The member names of a numeric enum are its numbers: [solutions[type]]
    reads the member named by the numeral of [type]. *)
Definition EIssueType_key (type : EIssueType.t) : string :=
  match type with
  | EIssueType.Error => "0"
  | EIssueType.Exception => "1"
  | EIssueType.Crash => "2"
  end.

Definition solutions : JsMap.t string string :=
  [("error",
    "This error typically occurs due to improper error handling. Consider adding try-catch blocks around the problematic code and implementing proper logging and recovery mechanisms.");
   ("warning",
    "This warning indicates a potential issue that might lead to errors in the future. Review the code to ensure proper validation and error handling.");
   ("info",
    "This information log suggests a potential optimization opportunity. Consider reviewing the code for performance improvements.")].

Definition noLLM : string :=
  "Without access to an LLM, I cannot provide a detailed analysis. Please configure an LLM API key for better results.".

Definition generateMockSolution (issue : Issue.t) : string :=
  match JsMap.get solutions (EIssueType_key (Issue.type issue)) with
  | Some text => if String.eqb text EmptyString then noLLM else text
  | None => noLLM
  end.

Section Client.

(** The [try] block of [generateSolution] up to its [return]: the prompt,
    the request, and the reading of [choices[0].message.content] off the
    response; [None] for a response of another form. *)
Context {SourceInfo : Type}.
Variable request : Issue.t -> option (list SourceInfo) -> completion (option string).

Definition generateSolution (this : t) (issue : Issue.t)
  (sourceCode : option (list SourceInfo)) : string :=
  if negb (Json.truthy (apiKey this)) then generateMockSolution issue
  else
    match request issue sourceCode with
    | Normal (Some content) => content
    | Normal None => generateMockSolution issue
    | Throw _ => generateMockSolution issue
    end.

End Client.

End LLMClient.

(** * ProblemResolver.ts *)

Module ProblemResolver.

(** The map [solutions] of a resolver, keyed by the identifier of the
    issue.  An identifier is a non-empty string, so [issue.id || ''] is
    [issue.id] and the test [issue.id && ...] passes. *)
Record t : Type := mk {
  solutions : JsMap.t uuid Solution.t
}.

(** The map of a resolver that [new ProblemResolver(config)] returns. *)
Definition new : t := {| solutions := [] |}.

Section Resolver.

(** The collaborators of [resolveIssue], each of which may throw:
    [sourceCodeFinder.findRelevantCode], [llmClient.generateSolution] and
    [llmClient.parseSolution]. *)
Context {SourceInfo : Type}.
Variable findRelevantCode : Issue.t -> completion (option (list SourceInfo)).
Variable generateSolution :
  Issue.t -> option (list SourceInfo) -> completion string.
Variable parseSolution : string -> completion LLMClient.LLMResponse.

(** The [catch] branch of [resolveIssue]. *)
Definition fallback (this : t) (issue : Issue.t) : t * Solution.t :=
  let fallbackSolution :=
    Solution.new
      {| Solution.data_issueId := Issue.id issue;
         Solution.data_recommendation :=
           "Could not generate a solution due to an error.";
         Solution.data_codeSnippet := None;
         Solution.data_confidence := Some (1 # 10)%Q;
         Solution.data_references := None |} in
  ({| solutions := JsMap.set (solutions this) (Issue.id issue) fallbackSolution |},
   fallbackSolution).

Definition resolveIssue (this : t) (issue : Issue.t) : t * Solution.t :=
  match JsMap.get (solutions this) (Issue.id issue) with
  | Some stored =>
      (* this.solutions.has(issue.id): return this.solutions.get(issue.id) *)
      (this, stored)
  | None =>
      match findRelevantCode issue with
      | Throw _ => fallback this issue
      | Normal sourceCode =>
          match generateSolution issue sourceCode with
          | Throw _ => fallback this issue
          | Normal solutionText =>
              match parseSolution solutionText with
              | Throw _ => fallback this issue
              | Normal parsed =>
                  let solution :=
                    Solution.new
                      {| Solution.data_issueId := Issue.id issue;
                         Solution.data_recommendation :=
                           LLMClient.recommendation parsed;
                         Solution.data_codeSnippet :=
                           Some (LLMClient.codeSnippet parsed);
                         Solution.data_confidence := Some (8 # 10)%Q;
                         Solution.data_references :=
                           Some (LLMClient.references parsed) |} in
                  ({| solutions :=
                        JsMap.set (solutions this) (Issue.id issue) solution |},
                   solution)
              end
          end
      end
  end.

(** The loop of [batchResolveIssues], with [acc] the array [solutions]. *)
Fixpoint batchResolveFrom (this : t) (acc : list Solution.t)
  (issues : list Issue.t) : t * list Solution.t :=
  match issues with
  | [] => (this, acc)
  | issue :: issues' =>
      let '(this', solution) := resolveIssue this issue in
      batchResolveFrom this' (acc ++ [solution]) issues'
  end.

Definition batchResolveIssues (this : t) (issues : list Issue.t)
  : t * list Solution.t :=
  batchResolveFrom this [] issues.

End Resolver.

Definition getSolutions (this : t) : list Solution.t :=
  JsMap.values (solutions this).

End ProblemResolver.

(** * ReportGenerator.ts *)

Module ReportGenerator.

Definition generateSummary (issues : list Issue.t) (solutions : list Solution.t)
  : ReportSummary.t :=
  ReportSummary.addStatistics ReportSummary.new issues solutions.

Record IssueWithSolution : Type := Pair {
  issue : Issue.t;
  solution : option Solution.t
}.

(** The array [issuesWithSolutions] that [generateReport] computes and
    hands to the template: each issue with the first solution that has
    its identifier, or [null]. *)
Definition issuesWithSolutions (issues : list Issue.t)
  (solutions : list Solution.t) : list IssueWithSolution :=
  map (fun issue =>
         {| issue := issue;
            solution :=
              List.find (fun s => Nat.eqb (Solution.issueId s) (Issue.id issue))
                        solutions |})
      issues.

End ReportGenerator.

(** ** Notions on summaries *)

(** How many elements of [l] have the key [k]. *)
Definition countKey {A : Type} (key : A -> string) (k : string) (l : list A) : nat :=
  length (List.filter (fun a => String.eqb (key a) k) l).

Definition total (counts : list nat) : nat := fold_right Nat.add 0%nat counts.

(** Counting one more element under the key [k]. *)
Definition bump (m : JsMap.t string nat) (k : string) : JsMap.t string nat :=
  JsMap.set m k (default 0%nat (JsMap.get m k) + 1)%nat.

(** The stored solutions are filed under their own identifier. *)
Definition filed (this : ProblemResolver.t) : Prop :=
  forall k s,
    JsMap.get (ProblemResolver.solutions this) k = Some s -> Solution.issueId s = k.

(** ** Notions on the source finder *)

(** The characters of a string. *)
Definition chars (s : string) : list Ascii.ascii := String.list_ascii_of_string s.

(** The class [[a-z0-9_]]. *)
Definition isKeywordChar (c : Ascii.ascii) : bool :=
  let n := Ascii.nat_of_ascii c in
  ((48 <=? n) && (n <=? 57) || (n =? 95) || (97 <=? n) && (n <=? 122))%nat.

(** A non-empty word of the class [[a-z0-9_]]. *)
Definition lowerWord (w : string) : Prop :=
  w <> EmptyString /\ Forall (fun c => isKeywordChar c = true) (chars w).

(** What [extractKeywords] keeps of the words. *)
Definition kept (w : string) : bool :=
  (3 <? String.length w)%nat && negb (String.eqb w "with").

Section Finder_notions.

Variable join : string -> string -> string.
Variable extname : string -> string.
Variable toLowerCase : string -> string.

(** [listed directory files p name content]: the entry [name] that is not
    a directory, with the outcome [content] of reading it, is found at the
    path [p] when walking down from [directory], whose entries are
    [files], through directories that can be read. *)
Inductive listed
  : string -> list Fs.Dirent -> string -> string -> completion string -> Prop :=
| listed_here directory files name content :
    Fs.File name content ∈ files ->
    listed directory files (join directory name) name content
| listed_below directory files dname sub p name content :
    Fs.Directory dname (Normal sub) ∈ files ->
    listed (join directory dname) sub p name content ->
    listed directory files p name content.

(** [hit this directory files keywords info]: [info] describes a file
    with one of the extensions of [this], listed below [directory] and
    read, some keyword of which its content holds. *)
Definition hit (this : SourceCodeFinder.t) (directory : string)
  (files : list Fs.Dirent) (keywords : list string)
  (info : SourceCodeFinder.SourceInfo) : Prop :=
  exists name content matched,
    listed directory files (SourceCodeFinder.file info) name (Normal content)
    /\ JsText.includes (SourceCodeFinder.fileExtensions this) (extname name) = true
    /\ SourceCodeFinder.fullContent info = Some content
    /\ SourceCodeFinder.lineNumber info = None
    /\ SourceCodeFinder.codeSnippet info = None
    /\ SourceCodeFinder.matchedKeywords info = Some matched
    /\ matched <> []
    /\ matched
       = List.filter
           (fun keyword =>
              JsText.contains (toLowerCase content) (toLowerCase keyword))
           keywords.

End Finder_notions.

(** [nested f n]: five copies of the entry [f] in a directory, put [n]
    directories deep, each directory on the way holding [f] after its
    subdirectory. *)
Fixpoint nested (f : Fs.Dirent) (n : nat) : list Fs.Dirent :=
  match n with
  | O => [f; f; f; f; f]
  | S n' => [Fs.Directory "sub" (Normal (nested f n')); f]
  end.

(** * Auxiliary facts *)

(** ** [indexOf] finds the first occurrence *)

Lemma indexOfFrom_spec (s needle : string) :
  forall i : nat,
    (Js.indexOfFrom i s needle = -1
     /\ forall k, (k <= String.length s)%nat ->
                  Js.startsWith needle (Js.drop k s) = false)
    \/ exists n,
        Js.indexOfFrom i s needle = Z.of_nat (i + n)
        /\ (n <= String.length s)%nat
        /\ Js.startsWith needle (Js.drop n s) = true
        /\ forall k, (k < n)%nat -> Js.startsWith needle (Js.drop k s) = false.
Proof.
  induction s as [|c s IH]; intros i; simpl.
  - destruct (Js.startsWith needle EmptyString) eqn:Hp.
    + right. exists 0%nat. simpl. repeat split; [f_equal; lia|lia|exact Hp|lia].
    + left. split; [reflexivity|]. intros [|k] Hk; simpl in *; [exact Hp|lia].
  - destruct (Js.startsWith needle (String c s)) eqn:Hp.
    + right. exists 0%nat. simpl. repeat split; [f_equal; lia|lia|exact Hp|lia].
    + destruct (IH (S i)) as [[Hnone Hall]|(n & Hn & Hlen & Hat & Hbefore)].
      * left. split; [exact Hnone|].
        intros [|k] Hk; simpl; [exact Hp|apply Hall; lia].
      * right. exists (S n). simpl. repeat split.
        -- rewrite Hn. f_equal. lia.
        -- lia.
        -- exact Hat.
        -- intros [|k] Hk; simpl; [exact Hp|apply Hbefore; lia].
Qed.

(** ** Termination of the scan loop, for any detectors *)

Section Termination.

Context {D : Type} `{IIssueDetector D}.

Import LogScanner.

Lemma body_cursor (line : string) (f f' : frame D) (u u' : uuid) :
  body line f u = (f', Normal tt, u') ->
  (i f' = i f
   /\ (activatedIssueDetector (scanner f) = None
       \/ activatedIssueDetector (scanner f') <> None))
  \/ (i f' = i f - 1
      /\ activatedIssueDetector (scanner f) <> None
      /\ activatedIssueDetector (scanner f') = None).
Proof.
  unfold body, bind, ret.
  destruct (activatedIssueDetector (scanner f)) as [k|] eqn:Hslot.
  - destruct (issueDetectors (scanner f) !! k) as [d|]; [|discriminate].
    destruct (receiveLine d line u) as [[d' [st|e]] u1]; [|discriminate].
    destruct st.
    + intros [= <- <-]. left. simpl. split; [reflexivity|right; discriminate].
    + intros [= <- <-]. left. simpl. split; [reflexivity|right; discriminate].
    + destruct (pickIssue d') as [d'' [x|e]]; [|discriminate].
      intros [= <- <-]. right. simpl. repeat split; discriminate.
  - destruct (probe [] (issueDetectors (scanner f)) line u) as [[[ds slot] r] u1].
    intros [= <- _ _]. left. simpl. split; [reflexivity|left; reflexivity].
Qed.

Lemma body_weight (lines : list string) (line : string) (f f' : frame D)
  (u u' : uuid) :
  body line f u = (f', Normal tt, u') ->
  i f < Z.of_nat (length lines) ->
  (weight lines (advance f') < weight lines f)%nat.
Proof.
  intros Hb Hi. apply body_cursor in Hb. unfold weight, advance. simpl.
  destruct Hb as [[Hi' Hs]|(Hi' & Hs & Hs')]; rewrite Hi'.
  - destruct Hs as [->|Hs].
    + destruct (activatedIssueDetector (scanner f')); lia.
    + destruct (activatedIssueDetector (scanner f')); [|congruence].
      destruct (activatedIssueDetector (scanner f)); lia.
  - rewrite Hs'.
    destruct (activatedIssueDetector (scanner f)); [|congruence]. lia.
Qed.

Lemma forLoop_S (fuel : nat) (lines : list string) (line : string)
  (f f' : frame D) (u u' : uuid) :
  i f < Z.of_nat (length lines) ->
  Js.at_ lines (i f) = Some line ->
  body line f u = (f', Normal tt, u') ->
  forLoop (S fuel) lines f u = forLoop fuel lines (advance f') u'.
Proof.
  intros Hi Hat Hb. simpl.
  destruct (Z.ltb_spec (i f) (Z.of_nat (length lines))); [|lia].
  rewrite Hat. unfold bind. rewrite Hb. reflexivity.
Qed.

(** The loop never runs out of fuel once the fuel covers the measure. *)
Lemma forLoop_fuel (fuel : nat) (lines : list string) (f : frame D) (u : uuid) :
  (weight lines f <= fuel)%nat ->
  0 <= i f ->
  snd (fst (forLoop fuel lines f u)) <> None.
Proof.
  revert f u. induction fuel as [|fuel IH]; intros f u Hw Hi; simpl.
  - destruct (Z.ltb_spec (i f) (Z.of_nat (length lines))) as [Hlt|Hge].
    + unfold weight in Hw. lia.
    + discriminate.
  - destruct (Z.ltb_spec (i f) (Z.of_nat (length lines))) as [Hlt|Hge];
      [|discriminate].
    destruct (Js.at_ lines (i f)) as [line|]; [|discriminate].
    unfold bind.
    destruct (body line f u) as [[f' [[]|e]] u1] eqn:Hb; [|discriminate].
    apply IH.
    + pose proof (body_weight lines line f f' u u1 Hb Hlt). unfold advance in *. lia.
    + apply body_cursor in Hb. simpl. lia.
Qed.

Lemma scanLines_fuel (this : t D) (lines : list string) (u : uuid) :
  snd (fst (scanLines this lines u)) <> None.
Proof.
  unfold scanLines, bind, ret.
  pose proof (forLoop_fuel (iterations lines) lines
                {| i := 0; issues := []; scanner := this |} u) as Hf.
  destruct (forLoop _ _ _ _) as [[f r] u1]; simpl in *.
  destruct r as [[]|]; try discriminate.
  exfalso. apply Hf; [|lia|reflexivity].
  unfold weight, iterations. simpl.
  destruct (activatedIssueDetector this); lia.
Qed.

(** *** The branches that make the model total are not taken *)

Lemma probe_slot (todo : list D) :
  forall (seen : list D) (line : string) (u : uuid) ds slot r u',
    probe seen todo line u = (ds, slot, r, u') ->
    length ds = (length seen + length todo)%nat
    /\ forall k, slot = Some k -> (k < length ds)%nat.
Proof.
  induction todo as [|d todo IH]; intros seen line u ds slot r u'; simpl.
  - intros [= <- <- _ _]. split; [lia|discriminate].
  - unfold bind. destruct (receiveLine d line u) as [[d' st] u1].
    assert (length (seen ++ d' :: todo) = (length seen + S (length todo))%nat) as Hlen
        by (rewrite length_app; reflexivity).
    assert (forall ds0 slot0 r0 u0,
               probe (seen ++ [d']) todo line u1 = (ds0, slot0, r0, u0) ->
               length ds0 = (length seen + S (length todo))%nat
               /\ forall k, slot0 = Some k -> (k < length ds0)%nat) as Hrec.
    { intros ds0 slot0 r0 u0 Hp. destruct (IH _ _ _ _ _ _ _ Hp) as [Hl Hk].
      rewrite length_app in Hl. simpl in Hl. split; [lia|exact Hk]. }
    destruct st as [[| |]|e].
    + apply Hrec.
    + intros [= <- <- _ _]. split; [exact Hlen|]. intros k [= <-]. lia.
    + apply Hrec.
    + intros [= <- <- _ _]. split; [exact Hlen|]. discriminate.
Qed.

Lemma slot_valid_lookup (s : t D) (k : nat) :
  slot_valid s -> activatedIssueDetector s = Some k ->
  issueDetectors s !! k <> None.
Proof.
  intros Hv Hk Hnone. apply lookup_ge_None in Hnone. specialize (Hv k Hk). lia.
Qed.

Lemma body_slot_valid (line : string) (f f' : frame D) (u u' : uuid) r :
  slot_valid (scanner f) ->
  body line f u = (f', r, u') ->
  slot_valid (scanner f').
Proof.
  intros Hv. unfold body, bind, ret.
  destruct (activatedIssueDetector (scanner f)) as [k|] eqn:Hslot.
  - specialize (Hv k Hslot).
    destruct (issueDetectors (scanner f) !! k) as [d|] eqn:Hk.
    + destruct (receiveLine d line u) as [[d' st] u1].
      assert (forall d0, slot_valid
                {| issueDetectors := <[k:=d0]> (issueDetectors (scanner f));
                   activatedIssueDetector := Some k |}) as Hv1.
      { intros d0 k' [= <-]. simpl. rewrite length_insert. exact Hv. }
      destruct st as [[| |]|e].
      * intros [= <- _ _]. apply Hv1.
      * intros [= <- _ _]. apply Hv1.
      * destruct (pickIssue d') as [d'' [x|e]]; intros [= <- _ _].
        -- intros k' [=].
        -- intros k' [= <-]. simpl. rewrite !length_insert. exact Hv.
      * intros [= <- _ _]. apply Hv1.
    + apply lookup_ge_None in Hk. lia.
  - destruct (probe [] (issueDetectors (scanner f)) line u)
      as [[[ds slot] r0] u1] eqn:Hp.
    intros [= <- _ _].
    destruct (probe_slot _ _ _ _ _ _ _ _ Hp) as [_ Hk]. exact Hk.
Qed.

Lemma forLoop_slot_valid (fuel : nat) (lines : list string) :
  forall (f : frame D) (u : uuid),
    slot_valid (scanner f) ->
    slot_valid (scanner (fst (fst (forLoop fuel lines f u)))).
Proof.
  induction fuel as [|fuel IH]; intros f u Hv; simpl.
  - destruct (i f <? Z.of_nat (length lines)); exact Hv.
  - destruct (i f <? Z.of_nat (length lines)); [|exact Hv].
    destruct (Js.at_ lines (i f)) as [line|]; [|exact Hv].
    unfold bind. destruct (body line f u) as [[f' r] u1] eqn:Hb.
    pose proof (body_slot_valid line f f' u u1 r Hv Hb) as Hv'.
    destruct r as [[]|e]; [|exact Hv'].
    apply IH. exact Hv'.
Qed.

Lemma body_cursor_throw (line : string) (f f' : frame D) (u u' : uuid) e :
  body line f u = (f', Throw e, u') -> i f' = i f.
Proof.
  unfold body, bind, ret.
  destruct (activatedIssueDetector (scanner f)) as [k|].
  - destruct (issueDetectors (scanner f) !! k) as [d|].
    + destruct (receiveLine d line u) as [[d' [[| |]|e']] u2].
      * discriminate.
      * discriminate.
      * destruct (pickIssue d') as [d'' [x|e']]; [discriminate|].
        intros [= <- _ _]. reflexivity.
      * intros [= <- _ _]. reflexivity.
    + intros [= <- _ _]. reflexivity.
  - destruct (probe [] (issueDetectors (scanner f)) line u) as [[[ds slot] r0] u2].
    intros [= <- _ _]. reflexivity.
Qed.

Lemma forLoop_cursor (fuel : nat) (lines : list string) :
  forall (f : frame D) (u : uuid),
    0 <= i f ->
    0 <= i (fst (fst (forLoop fuel lines f u)))
    /\ (i f < Z.of_nat (length lines) -> Js.at_ lines (i f) <> None).
Proof.
  assert (forall f : frame D,
             0 <= i f -> i f < Z.of_nat (length lines) ->
             Js.at_ lines (i f) <> None) as Hat.
  { intros f H0 Hlt. unfold Js.at_.
    destruct (Z.ltb_spec (i f) 0); [lia|].
    intros Hnone. apply lookup_ge_None in Hnone. lia. }
  induction fuel as [|fuel IH]; intros f u H0; simpl.
  - split; [|apply Hat; exact H0].
    destruct (i f <? Z.of_nat (length lines)); exact H0.
  - split; [|apply Hat; exact H0].
    destruct (i f <? Z.of_nat (length lines)); [|exact H0].
    destruct (Js.at_ lines (i f)) as [line|]; [|exact H0].
    unfold bind. destruct (body line f u) as [[f' r] u1] eqn:Hb.
    destruct r as [[]|e].
    + apply IH. apply body_cursor in Hb. simpl. lia.
    + simpl. rewrite (body_cursor_throw _ _ _ _ _ _ Hb). exact H0.
Qed.

End Termination.

(** ** The shipped detector *)

Section Puerts.

Import LogScanner.

Abbreviation detector := PuertsExceptionDetector.t.

Lemma receiveLine_idle_marked (d : detector) (line : string) (u : uuid) :
  PuertsExceptionDetector.state d = EIssueDetectorState.None ->
  marks line = true ->
  PuertsExceptionDetector.receiveLine d line u
  = (active (opened line u), Normal EIssueDetectorState.Activated, S u).
Proof.
  unfold marks, PuertsExceptionDetector.receiveLine, opened.
  intros -> ->. unfold bind, ret, Issue.new, uuidv4, bind, ret. simpl.
  destruct (0 <=? Js.indexOf line PUERTS_STACK_KEYWORD); reflexivity.
Qed.

Lemma receiveLine_idle_unmarked (d : detector) (line : string) (u : uuid) :
  PuertsExceptionDetector.state d = EIssueDetectorState.None ->
  marks line = false ->
  PuertsExceptionDetector.receiveLine d line u
  = (d, Normal EIssueDetectorState.None, u).
Proof.
  unfold marks, PuertsExceptionDetector.receiveLine.
  intros -> ->. reflexivity.
Qed.

Lemma receiveLine_active_marked (x : Issue.t) (line : string) (u : uuid) :
  marks line = true ->
  PuertsExceptionDetector.receiveLine (active x) line u
  = (active (Issue.addLogLine x line), Normal EIssueDetectorState.Finished, u).
Proof.
  unfold marks, PuertsExceptionDetector.receiveLine,
    PuertsExceptionDetector.isLogIndicateFinished. simpl.
  intros ->. reflexivity.
Qed.

Lemma receiveLine_active_unmarked (d : detector) (line : string) (u : uuid) :
  PuertsExceptionDetector.state d <> EIssueDetectorState.None ->
  marks line = false ->
  PuertsExceptionDetector.receiveLine d line u
  = (d, Normal EIssueDetectorState.Activated, u).
Proof.
  unfold marks, PuertsExceptionDetector.receiveLine,
    PuertsExceptionDetector.isLogIndicateFinished.
  intros Hs ->.
  destruct (PuertsExceptionDetector.state d) eqn:E; [congruence| |]; reflexivity.
Qed.

(** *** Registries of shipped detectors *)

Lemma probe_unmarked (seen : list detector) (m : nat) (line : string) (u : uuid) :
  marks line = false ->
  probe seen (replicate m PuertsExceptionDetector.new) line u
  = (seen ++ replicate m PuertsExceptionDetector.new, None, Normal tt, u).
Proof.
  intros Hm. revert seen. induction m as [|m IH]; intros seen; simpl.
  - unfold ret. rewrite app_nil_r. reflexivity.
  - unfold bind.
    rewrite (receiveLine_idle_unmarked PuertsExceptionDetector.new line u eq_refl Hm).
    rewrite IH, <- app_assoc. reflexivity.
Qed.

Lemma probe_marked (m : nat) (line : string) (u : uuid) :
  marks line = true ->
  probe [] (PuertsExceptionDetector.new
            :: replicate m PuertsExceptionDetector.new) line u
  = (active (opened line u) :: replicate m PuertsExceptionDetector.new,
     Some 0%nat, Normal tt, S u).
Proof.
  intros Hm. simpl. unfold bind.
  rewrite (receiveLine_idle_marked PuertsExceptionDetector.new line u eq_refl Hm).
  reflexivity.
Qed.

Lemma body_idle_unmarked (m : nat) (line : string) (f : frame detector) (u : uuid) :
  scanner f = registry None m ->
  marks line = false ->
  body line f u = (f, Normal tt, u).
Proof.
  intros Hs Hm. unfold body, bind. rewrite Hs. simpl.
  unfold bind. rewrite (receiveLine_idle_unmarked PuertsExceptionDetector.new line u eq_refl Hm).
  rewrite probe_unmarked by exact Hm. unfold ret. simpl.
  destruct f as [i0 is0 s0]. simpl in *. subst s0. reflexivity.
Qed.

Lemma body_idle_marked (m : nat) (line : string) (f : frame detector) (u : uuid) :
  scanner f = registry None m ->
  marks line = true ->
  body line f u
  = ({| i := i f; issues := issues f;
        scanner := registry (Some (opened line u)) m |}, Normal tt, S u).
Proof.
  intros Hs Hm. unfold body, bind. rewrite Hs.
  cbn [registry activatedIssueDetector issueDetectors].
  rewrite (probe_marked m line u Hm). reflexivity.
Qed.

Lemma body_active_unmarked (x : Issue.t) (m : nat) (line : string)
  (f : frame detector) (u : uuid) :
  scanner f = registry (Some x) m ->
  marks line = false ->
  body line f u = (f, Normal tt, u).
Proof.
  intros Hs Hm. unfold body, bind. rewrite Hs. simpl.
  rewrite receiveLine_active_unmarked by (simpl; congruence).
  unfold ret. destruct f as [i0 is0 s0]. simpl in *. subst s0. reflexivity.
Qed.

Lemma body_active_marked (x : Issue.t) (m : nat) (line : string)
  (f : frame detector) (u : uuid) :
  scanner f = registry (Some x) m ->
  marks line = true ->
  body line f u
  = ({| i := i f - 1; issues := issues f ++ [Issue.addLogLine x line];
        scanner := registry None m |}, Normal tt, u).
Proof.
  intros Hs Hm. unfold body, bind. rewrite Hs. simpl.
  rewrite (receiveLine_active_marked x line u Hm). reflexivity.
Qed.

End Puerts.

(** ** The scan loop on shipped detectors *)

Section Scan.

Import LogScanner.

Abbreviation detector := PuertsExceptionDetector.t.

Lemma at_drop (lines : list string) (i : Z) :
  0 <= i < Z.of_nat (length lines) ->
  exists line,
    Js.at_ lines i = Some line
    /\ drop (Z.to_nat i) lines = line :: drop (Z.to_nat (i + 1)) lines.
Proof.
  intros Hi. unfold Js.at_.
  destruct (Z.ltb_spec i 0) as [|_]; [lia|].
  destruct (lines !! Z.to_nat i) as [line|] eqn:Hl.
  - exists line. split; [reflexivity|].
    replace (Z.to_nat (i + 1)) with (S (Z.to_nat i)) by lia.
    apply drop_S. exact Hl.
  - apply lookup_ge_None in Hl. lia.
Qed.

(** The loop computes [replay] on the lines from the cursor on. *)
Lemma forLoop_replay (fuel : nat) (lines : list string) :
  forall (f : frame detector) (u : uuid) (cur : option Issue.t) (m : nat),
    scanner f = registry cur m ->
    0 <= i f <= Z.of_nat (length lines) ->
    (weight lines f <= fuel)%nat ->
    forLoop fuel lines f u
    = let '(emitted, cur', u') := replay cur (drop (Z.to_nat (i f)) lines) u in
      ({| i := Z.of_nat (length lines);
          issues := issues f ++ emitted;
          scanner := registry cur' m |}, Some (Normal tt), u').
Proof.
  induction fuel as [|fuel IH]; intros f u cur m Hs Hi Hw.
  - assert (i f = Z.of_nat (length lines)) as Hlen
        by (unfold weight in Hw; lia).
    simpl. rewrite Hlen, Z.ltb_irrefl, Nat2Z.id, drop_all. simpl.
    unfold ret. destruct f as [i0 is0 s0]; simpl in *.
    rewrite app_nil_r. congruence.
  - simpl. destruct (Z.ltb_spec (i f) (Z.of_nat (length lines))) as [Hlt|Hge].
    + destruct (at_drop lines (i f)) as (line & Hat & Hdrop); [lia|].
      rewrite Hat, Hdrop. unfold bind. simpl.
      destruct (marks line) eqn:Hm; destruct cur as [x|].
      * rewrite (body_active_marked x m line f u Hs Hm).
        rewrite (IH _ u None m); simpl; [|reflexivity|lia|].
        -- replace (i f - 1 + 1) with (i f) by lia.
           rewrite Hdrop. simpl. rewrite Hm.
           destruct (replay _ _ _) as [[em c] u1].
           rewrite <- app_assoc. reflexivity.
        -- unfold weight in *. simpl. rewrite Hs in Hw. simpl in Hw. lia.
      * rewrite (body_idle_marked m line f u Hs Hm).
        rewrite (IH _ (S u) (Some (opened line u)) m); simpl;
          [|reflexivity|lia|].
        -- destruct (replay _ _ _) as [[em c] u1]. reflexivity.
        -- unfold weight in *. simpl. rewrite Hs in Hw. simpl in Hw. lia.
      * rewrite (body_active_unmarked x m line f u Hs Hm).
        rewrite (IH _ u (Some x) m); simpl; [|exact Hs|lia|].
        -- destruct (replay _ _ _) as [[em c] u1]. reflexivity.
        -- unfold weight in *. simpl. rewrite Hs in *. simpl in *. lia.
      * rewrite (body_idle_unmarked m line f u Hs Hm).
        rewrite (IH _ u None m); simpl; [|exact Hs|lia|].
        -- destruct (replay _ _ _) as [[em c] u1]. reflexivity.
        -- unfold weight in *. simpl. rewrite Hs in *. simpl in *. lia.
    + assert (i f = Z.of_nat (length lines)) as Hlen by lia.
      rewrite Hlen, Nat2Z.id, drop_all. simpl.
      unfold ret. destruct f as [i0 is0 s0]; simpl in *.
      rewrite app_nil_r. congruence.
Qed.

Lemma scanLines_replay (cur : option Issue.t) (m : nat)
  (lines : list string) (u : uuid) :
  scanLines (registry cur m) lines u
  = let '(emitted, cur', u') := replay cur lines u in
    (registry cur' m, Some (Normal emitted), u').
Proof.
  unfold scanLines, bind.
  rewrite (forLoop_replay _ lines _ u cur m); simpl.
  - change (Z.to_nat 0) with 0%nat. rewrite drop_0.
    destruct (replay cur lines u) as [[em c] u1]. reflexivity.
  - reflexivity.
  - lia.
  - unfold weight, iterations. simpl. destruct cur; simpl; lia.
Qed.

(** *** Facts on [replay] *)

Lemma replay_unmarked (cur : option Issue.t) (lines : list string) (u : uuid) :
  Forall (fun line => marks line = false) lines ->
  replay cur lines u = ([], cur, u).
Proof.
  induction 1 as [|line lines Hm _ IH]; simpl; [reflexivity|].
  rewrite Hm. exact IH.
Qed.

Lemma replay_app (cur : option Issue.t) (l1 l2 : list string) (u : uuid) :
  replay cur (l1 ++ l2) u
  = let '(e1, c1, u1) := replay cur l1 u in
    let '(e2, c2, u2) := replay c1 l2 u1 in
    (e1 ++ e2, c2, u2).
Proof.
  revert cur u. induction l1 as [|line l1 IH]; intros cur u; simpl.
  - destruct (replay cur l2 u) as [[e2 c2] u2]. reflexivity.
  - destruct (marks line).
    + rewrite IH.
      destruct (replay (Some (opened line u)) l1 (S u)) as [[e1 c1] u1].
      destruct (replay c1 l2 u1) as [[e2 c2] u2].
      destruct cur; reflexivity.
    + apply IH.
Qed.

Lemma opened_id (line : string) (u : uuid) : Issue.id (opened line u) = u.
Proof. unfold opened. destruct (0 <=? _); reflexivity. Qed.

Lemma opened_rawLogs (line : string) (u : uuid) :
  Issue.rawLogs (opened line u) = [line].
Proof. unfold opened. destruct (0 <=? _); reflexivity. Qed.

Lemma opened_type (line : string) (u : uuid) :
  Issue.type (opened line u) = EIssueType.Error.
Proof. unfold opened. destruct (0 <=? _); reflexivity. Qed.

(** Identifiers: issues are emitted in the order of their creation and
    the issue left in progress is younger than every emitted one. *)
Lemma replay_ids (lines : list string) :
  forall (cur : option Issue.t) (u : uuid) emitted cur' u',
    replay cur lines u = (emitted, cur', u') ->
    (forall x, cur = Some x -> (Issue.id x < u)%nat) ->
    (u <= u')%nat
    /\ Forall (fun y => (Issue.id y < u')%nat) emitted
    /\ (forall z, cur' = Some z ->
         (Issue.id z < u')%nat
         /\ Forall (fun y => (Issue.id y < Issue.id z)%nat) emitted
         /\ (cur = Some z \/ (u <= Issue.id z)%nat)).
Proof.
  induction lines as [|line lines IH]; intros cur u emitted cur' u'; simpl.
  - intros [= <- <- <-] Hc. repeat split; auto.
  - destruct (marks line).
    + destruct (replay (Some (opened line u)) lines (S u)) as [[em c] u1] eqn:Hr.
      intros [= <- <- <-] Hc.
      destruct (IH _ _ _ _ _ Hr) as (Hu & Hem & Hz).
      { intros x [= <-]. rewrite opened_id. lia. }
      assert (forall z, c = Some z -> (u <= Issue.id z)%nat) as Hyoung.
      { intros z Hcz. destruct (Hz z Hcz) as (_ & _ & [[= <-]|Hle]).
        - rewrite opened_id. lia.
        - lia. }
      split; [lia|]. split.
      * destruct cur as [x|]; [|exact Hem].
        constructor; [|exact Hem]. simpl. specialize (Hc x eq_refl). lia.
      * intros z Hcz. destruct (Hz z Hcz) as (Hzu & Hzem & _).
        specialize (Hyoung z Hcz).
        split; [exact Hzu|]. split; [|right; exact Hyoung].
        destruct cur as [x|]; [|exact Hzem].
        constructor; [|exact Hzem]. simpl. specialize (Hc x eq_refl). lia.
    + intros Hr Hc. apply (IH _ _ _ _ _ Hr Hc).
Qed.


End Scan.

(** ** Arbitration, for any detectors

    [isActive] tells whether a detector is in its Active state.  The two
    hypotheses are what the orchestrator relies on: a detector that was not
    active becomes active only by returning [Activated], and a detector
    that handed its issue over is not active. *)

Section Arbitration.

Import LogScanner.

Context {D : Type} `{IIssueDetector D}.

Variable isActive : D -> bool.

Hypothesis receiveLine_activates :
  forall d line u d' r u',
    receiveLine d line u = (d', r, u') ->
    isActive d = false -> isActive d' = true ->
    r = Normal EIssueDetectorState.Activated.

Hypothesis pickIssue_idles :
  forall d d' x, pickIssue d = (d', Normal x) -> isActive d' = false.

Lemma activeCount_0 (ds : list D) :
  (forall j d, ds !! j = Some d -> isActive d = false) -> activeCount isActive ds = 0%nat.
Proof.
  unfold activeCount. induction ds as [|d ds IH]; intros Hall; simpl; [reflexivity|].
  rewrite (Hall 0%nat d eq_refl). apply IH.
  intros j d' Hj. apply (Hall (S j) d' Hj).
Qed.

Lemma activeCount_le_1 (ds : list D) :
  (forall j j' d d',
      ds !! j = Some d -> ds !! j' = Some d' ->
      isActive d = true -> isActive d' = true -> j = j') ->
  (activeCount isActive ds <= 1)%nat.
Proof.
  induction ds as [|d ds IH]; intros Huniq; [unfold activeCount; simpl; lia|].
  unfold activeCount. simpl. destruct (isActive d) eqn:Hd; simpl.
  - fold (activeCount isActive ds). rewrite activeCount_0; [lia|].
    intros j d' Hj. destruct (isActive d') eqn:Hd'; [|reflexivity].
    specialize (Huniq 0%nat (S j) d d' eq_refl Hj Hd Hd'). discriminate.
  - apply IH. intros j j' d1 d2 H1 H2 Ha1 Ha2.
    specialize (Huniq (S j) (S j') d1 d2 H1 H2 Ha1 Ha2). lia.
Qed.

Lemma bound_activeCount (s : t D) :
  bound isActive s ->
  (activeCount isActive (issueDetectors s) <= 1)%nat
  /\ (activatedIssueDetector s = None -> activeCount isActive (issueDetectors s) = 0%nat).
Proof.
  intros Hb. split.
  - apply activeCount_le_1. intros j j' d d' Hj Hj' Hd Hd'.
    pose proof (Hb j d Hj Hd) as E. pose proof (Hb j' d' Hj' Hd') as E'.
    congruence.
  - intros Hnone. apply activeCount_0. intros j d Hj.
    destruct (isActive d) eqn:Hd; [|reflexivity].
    pose proof (Hb j d Hj Hd). congruence.
Qed.

(** Probing a registry without active detector: the first detector that
    returns [Activated] is bound, the detectors after it are not offered
    the line, and no other detector is active afterwards. *)
Lemma probe_bound (todo : list D) :
  forall (seen : list D) (line : string) (u : uuid) ds slot r u',
    probe seen todo line u = (ds, slot, r, u') ->
    (forall d, d ∈ seen -> isActive d = false) ->
    (forall d, d ∈ todo -> isActive d = false) ->
    bound isActive {| issueDetectors := ds; activatedIssueDetector := slot |}
    /\ length ds = (length seen + length todo)%nat
    /\ (forall k, slot = Some k ->
          (length seen <= k)%nat
          /\ drop (S k) ds = drop (S k - length seen) todo).
Proof.
  induction todo as [|d todo IH]; intros seen line u ds slot r u'; simpl.
  - intros [= <- <- <- <-] Hseen _. split; [|split].
    + intros j d Hj Hd. apply list_elem_of_lookup_2 in Hj.
      rewrite (Hseen d Hj) in Hd. discriminate.
    + simpl. lia.
    + intros k [=].
  - unfold bind.
    destruct (receiveLine d line u) as [[d' st] u1] eqn:Hrecv.
    intros Hp Hseen Htodo.
    assert (isActive d = false) as Hd by (apply Htodo; left).
    assert (forall x, x ∈ todo -> isActive x = false) as Htodo'
        by (intros x Hx; apply Htodo; right; exact Hx).
    assert (st <> Normal EIssueDetectorState.Activated -> isActive d' = false) as Hd'.
    { intros Hst. destruct (isActive d') eqn:E; [|reflexivity].
      exfalso. apply Hst. eapply receiveLine_activates; eauto. }
    assert (forall x, x ∈ seen ++ [d'] -> st <> Normal EIssueDetectorState.Activated ->
                      isActive x = false) as Hseen'.
    { intros x Hx Hst. apply elem_of_app in Hx. destruct Hx as [Hx|Hx].
      - apply Hseen. exact Hx.
      - apply list_elem_of_singleton in Hx. subst x. apply Hd'. exact Hst. }
    assert (forall ds0 slot0 r0 u0,
               probe (seen ++ [d']) todo line u1 = (ds0, slot0, r0, u0) ->
               st <> Normal EIssueDetectorState.Activated ->
               bound isActive {| issueDetectors := ds0; activatedIssueDetector := slot0 |}
               /\ length ds0 = (length seen + S (length todo))%nat
               /\ (forall k, slot0 = Some k ->
                     (length seen <= k)%nat
                     /\ drop (S k) ds0 = drop (S k - length seen) (d :: todo))) as Hrec.
    { intros ds0 slot0 r0 u0 Hp0 Hst.
      destruct (IH _ _ _ _ _ _ _ Hp0) as (Hb & Hlen & Hk); auto.
      rewrite length_app in *. simpl in *.
      split; [exact Hb|]. split; [lia|].
      intros k Hs. destruct (Hk k Hs) as (Hle & Hdrop).
      split; [lia|]. rewrite Hdrop.
      replace (S k - length seen)%nat with (S (k - length seen))%nat by lia.
      simpl. f_equal. lia. }
    destruct st as [[| |]|e].
    + apply (Hrec _ _ _ _ Hp). discriminate.
    + injection Hp as <- <- <- <-. split; [|split].
      * intros j x Hj Hx. simpl in *.
        destruct (Nat.lt_trichotomy j (length seen)) as [Hlt|[->|Hgt]].
        -- rewrite lookup_app_l in Hj by exact Hlt.
           apply list_elem_of_lookup_2 in Hj. rewrite (Hseen x Hj) in Hx. discriminate.
        -- reflexivity.
        -- rewrite lookup_app_r in Hj by lia.
           destruct (j - length seen)%nat as [|n] eqn:E; [lia|]. simpl in Hj.
           apply list_elem_of_lookup_2 in Hj. rewrite (Htodo' x Hj) in Hx. discriminate.
      * rewrite length_app. simpl. lia.
      * intros k [= <-]. split; [lia|].
        rewrite drop_app_ge by lia.
        replace (S (length seen) - length seen)%nat with 1%nat by lia.
        reflexivity.
    + apply (Hrec _ _ _ _ Hp). discriminate.
    + injection Hp as <- <- <- <-. split; [|split].
      * intros j x Hj Hx. simpl in *. exfalso.
        assert (x ∈ seen ++ d' :: todo) as Hin by (eapply list_elem_of_lookup_2; eauto).
        apply elem_of_app in Hin. destruct Hin as [Hin|Hin].
        -- rewrite (Hseen x Hin) in Hx. discriminate.
        -- apply elem_of_cons in Hin. destruct Hin as [->|Hin].
           ++ rewrite Hd' in Hx by discriminate. discriminate.
           ++ rewrite (Htodo' x Hin) in Hx. discriminate.
      * rewrite length_app. simpl. lia.
      * intros k [=].
Qed.

Lemma bound_insert (s : t D) (k : nat) (d : D) :
  bound isActive s -> activatedIssueDetector s = Some k ->
  bound isActive {| issueDetectors := <[k := d]> (issueDetectors s);
           activatedIssueDetector := Some k |}.
Proof.
  intros Hb Hk j x Hj Hx. simpl in *.
  apply list_lookup_insert_Some in Hj.
  destruct Hj as [(-> & _ & _)|(Hne & Hj)]; [reflexivity|].
  rewrite <- Hk. apply (Hb j x Hj Hx).
Qed.

Lemma body_bound (line : string) (f f' : frame D) (u u' : uuid) r :
  bound isActive (scanner f) ->
  body line f u = (f', r, u') ->
  bound isActive (scanner f').
Proof.
  intros Hb. unfold body, bind, ret.
  destruct (activatedIssueDetector (scanner f)) as [k|] eqn:Hslot.
  - destruct (issueDetectors (scanner f) !! k) as [d|] eqn:Hk.
    + destruct (receiveLine d line u) as [[d' st] u1] eqn:Hrecv.
      pose proof (bound_insert (scanner f) k d' Hb Hslot) as Hb1.
      destruct st as [[| |]|e]; try (intros [= <- _ _]; exact Hb1).
      destruct (pickIssue d') as [d'' picked] eqn:Hpick.
      destruct picked as [x|e].
      * intros [= <- _ _]. simpl. intros j y Hj Hy. simpl in *. exfalso.
        apply list_lookup_insert_Some in Hj.
        destruct Hj as [(-> & <- & _)|(Hne & Hj)].
        -- rewrite (pickIssue_idles _ _ _ Hpick) in Hy. discriminate.
        -- pose proof (Hb1 j y Hj Hy) as E. simpl in E. congruence.
      * intros [= <- _ _]. simpl.
        rewrite list_insert_insert_eq.
        apply (bound_insert (scanner f) k d'' Hb Hslot).
    + intros [= <- _ _]. exact Hb.
  - destruct (probe [] (issueDetectors (scanner f)) line u)
      as [[[ds slot] r0] u1] eqn:Hp.
    intros [= <- _ _]. simpl.
    eapply probe_bound; [exact Hp| |].
    + intros d Hd. inversion Hd.
    + intros d Hd. apply list_elem_of_lookup_1 in Hd. destruct Hd as [j Hj].
      destruct (isActive d) eqn:E; [|reflexivity].
      pose proof (Hb j d Hj E). congruence.
Qed.

(** The invariant holds at the head of the loop after any number of
    iterations ([forLoop] returns the frame reached when the fuel runs
    out). *)
Lemma forLoop_bound (fuel : nat) (lines : list string) :
  forall (f : frame D) (u : uuid),
    bound isActive (scanner f) ->
    bound isActive (scanner (fst (fst (forLoop fuel lines f u)))).
Proof.
  induction fuel as [|fuel IH]; intros f u Hb; simpl.
  - destruct (i f <? Z.of_nat (length lines)); exact Hb.
  - destruct (i f <? Z.of_nat (length lines)); [|exact Hb].
    destruct (Js.at_ lines (i f)) as [line|]; [|exact Hb].
    unfold bind. destruct (body line f u) as [[f' r] u1] eqn:Hbody.
    pose proof (body_bound line f f' u u1 r Hb Hbody) as Hb'.
    destruct r as [[]|e]; [|exact Hb'].
    apply IH. exact Hb'.
Qed.

End Arbitration.

(** ** Scanners that a program can hold *)

Section Reachable.

Import LogScanner.

Lemma reachable_registry (s : t PuertsExceptionDetector.t) (u : uuid) :
  reachable s u ->
  exists cur m,
    s = registry cur m /\ (forall x, cur = Some x -> (Issue.id x < u)%nat).
Proof.
  induction 1 as [m u|s u _ (cur & m & -> & Hid)
                 |s s' u u' content r _ (cur & m & -> & Hid) Hscan].
  - exists None, m. split; [reflexivity|]. intros x [=].
  - exists cur, m. split; [reflexivity|]. intros x Hx. specialize (Hid x Hx). lia.
  - unfold scanLogContent in Hscan. rewrite scanLines_replay in Hscan.
    destruct (replay cur (Js.split_lines content) u) as [[em c] u1] eqn:Hr.
    injection Hscan as <- _ <-.
    exists c, m. split; [reflexivity|].
    intros z Hz. destruct (replay_ids _ _ _ _ _ _ Hr Hid) as (_ & _ & Hc).
    apply (Hc z Hz).
Qed.

Lemma new_registry : LogScanner.new tt = registry None 0.
Proof. reflexivity. Qed.

Lemma isActivated_receiveLine d line u d' r u' :
  receiveLine d line u = (d', r, u') ->
  isActivated d = false -> isActivated d' = true ->
  r = Normal EIssueDetectorState.Activated.
Proof.
  simpl. unfold PuertsExceptionDetector.receiveLine, isActivated,
    PuertsExceptionDetector.getState, bind, ret.
  destruct d as [x st]. simpl.
  destruct st; simpl; try discriminate.
  - destruct (0 <? Js.indexOf line PUERTS_ERROR_KEYWORD).
    + intros [= <- <- <-]. reflexivity.
    + intros [= <- <- <-]. simpl. discriminate.
  - destruct (PuertsExceptionDetector.isLogIndicateFinished line).
    + destruct x; intros [= <- <- <-]; simpl; discriminate.
    + intros [= <- <- <-]. simpl. discriminate.
Qed.

Lemma isActivated_pickIssue d d' x :
  pickIssue d = (d', Normal x) -> isActivated d' = false.
Proof.
  simpl. unfold PuertsExceptionDetector.pickIssue.
  destruct (PuertsExceptionDetector.issue d); [|discriminate].
  intros [= <- _]. reflexivity.
Qed.

Lemma registry_bound (cur : option Issue.t) (m : nat) :
  bound isActivated (registry cur m).
Proof.
  intros j d Hj Hd. destruct cur as [x|]; simpl in *.
  - destruct j as [|j]; [reflexivity|]. simpl in Hj.
    apply lookup_replicate in Hj. destruct Hj as [-> _]. discriminate.
  - change (replicate (S m) PuertsExceptionDetector.new !! j = Some d) in Hj.
    apply lookup_replicate in Hj. destruct Hj as [-> _]. discriminate.
Qed.

(** The detector bound by a probe of idle detectors is in the Activated
    state. *)
Lemma probe_slot_activated (todo : list PuertsExceptionDetector.t) :
  forall (seen : list PuertsExceptionDetector.t) (line : string) (u : uuid)
         ds k r u',
    probe seen todo line u = (ds, Some k, r, u') ->
    (forall d, d ∈ todo ->
               PuertsExceptionDetector.getState d = EIssueDetectorState.None) ->
    exists d',
      ds !! k = Some d'
      /\ PuertsExceptionDetector.getState d' = EIssueDetectorState.Activated.
Proof.
  induction todo as [|d todo IH]; intros seen line u ds k r u'; simpl.
  - discriminate.
  - intros Hp Hidle. unfold bind in Hp.
    assert (PuertsExceptionDetector.state d = EIssueDetectorState.None) as Hd
        by (apply Hidle; left).
    destruct (marks line) eqn:Hm.
    + rewrite (receiveLine_idle_marked d line u Hd Hm) in Hp.
      injection Hp as <- <- _ _.
      exists (active (opened line u)). split; [|reflexivity].
      rewrite lookup_app_r by lia. rewrite Nat.sub_diag. reflexivity.
    + rewrite (receiveLine_idle_unmarked d line u Hd Hm) in Hp.
      apply (IH _ _ _ _ _ _ _ Hp). intros x Hx. apply Hidle. right. exact Hx.
Qed.

End Reachable.

(** * The properties of the engine *)

Section Engine_properties.

Import LogScanner.

(** C2 (at most one active detector).  Whatever the registry of shipped
    detectors, as long as the only detector that may be active when the
    scan starts is the one the slot refers to (as in a new scanner, and
    as every scan leaves it): at the head of the loop after any number
    [n] of iterations, at most one detector of the registry is in the
    Activated state, it is the one the slot refers to, and none is when
    the slot is empty.  The registry is offered a line only when the slot
    is empty ([body]); a probe of idle detectors that binds detector [k]
    leaves it Activated, leaves no other detector Activated, and leaves
    the detectors after [k] as they were: they are not offered the
    line. *)
Theorem at_most_one_active (this : t PuertsExceptionDetector.t)
  (content : string) (u : uuid) (n : nat) :
  bound isActivated this ->
  let f := fst (fst (forLoop n (Js.split_lines content)
                       {| i := 0; issues := []; scanner := this |} u)) in
  (activeCount isActivated (issueDetectors (scanner f)) <= 1)%nat
  /\ (activatedIssueDetector (scanner f) = None ->
      activeCount isActivated (issueDetectors (scanner f)) = 0%nat)
  /\ (forall j d,
        issueDetectors (scanner f) !! j = Some d ->
        PuertsExceptionDetector.getState d = EIssueDetectorState.Activated ->
        activatedIssueDetector (scanner f) = Some j)
  /\ (forall (todo ds : list PuertsExceptionDetector.t) (line : string)
             (v v' : uuid) (k : nat) (r : completion unit),
        probe [] todo line v = (ds, Some k, r, v') ->
        (forall d, d ∈ todo ->
                   PuertsExceptionDetector.getState d = EIssueDetectorState.None) ->
        (exists d',
            ds !! k = Some d'
            /\ PuertsExceptionDetector.getState d' = EIssueDetectorState.Activated)
        /\ (forall j d,
              j <> k -> ds !! j = Some d ->
              PuertsExceptionDetector.getState d <> EIssueDetectorState.Activated)
        /\ drop (S k) ds = drop (S k) todo).
Proof.
  intros Hb f.
  assert (bound isActivated (scanner f)) as Hf.
  { apply (forLoop_bound isActivated isActivated_receiveLine isActivated_pickIssue).
    exact Hb. }
  destruct (bound_activeCount isActivated (scanner f) Hf) as [Hle Hnone].
  split; [exact Hle|]. split; [exact Hnone|]. split.
  { intros j d Hj Hd. apply (Hf j d Hj). unfold isActivated. rewrite Hd. reflexivity. }
  intros todo ds line v v' k r Hp Hidle.
  split; [exact (probe_slot_activated todo [] line v ds k r v' Hp Hidle)|].
  destruct (probe_bound isActivated isActivated_receiveLine todo [] line v ds
              (Some k) r v' Hp) as (Hbound & _ & Hk).
  - intros d Hd. inversion Hd.
  - intros d Hd. unfold isActivated. rewrite (Hidle d Hd). reflexivity.
  - split.
    + intros j d Hne Hj Hd.
      assert (isActivated d = true) as Ha by (unfold isActivated; rewrite Hd; reflexivity).
      pose proof (Hbound j d Hj Ha) as E. simpl in E. congruence.
    + destruct (Hk k eq_refl) as [_ Hdrop]. simpl in Hdrop.
      rewrite ?Nat.sub_0_r in Hdrop. exact Hdrop.
Qed.

Lemma at_most_one_active_witness :
  bound isActivated
    {| issueDetectors := [PuertsExceptionDetector.new; PuertsExceptionDetector.new];
       activatedIssueDetector := None |}
  /\ (activeCount isActivated
        (issueDetectors
           (scanner
              (fst (fst (forLoop 3
                           (Js.split_lines " Puerts: Error:(0x0x300b08e68)first
 Puerts: Error:(0x0x300b08e68)second")
                           {| i := 0; issues := [];
                              scanner :=
                                {| issueDetectors :=
                                     [PuertsExceptionDetector.new;
                                      PuertsExceptionDetector.new];
                                   activatedIssueDetector := None |} |}
                           0%nat))))) <= 1)%nat.
Proof.
  assert (bound isActivated
            {| issueDetectors := [PuertsExceptionDetector.new; PuertsExceptionDetector.new];
               activatedIssueDetector := None |}) as Hb
      by exact (registry_bound None 1).
  split; [exact Hb|].
  exact (proj1 (at_most_one_active _ _ 0%nat 3 Hb)).
Defined.

(** C5 (totality and termination).  On every content, a scanner that a
    program can hold returns a (possibly empty) list of issues: the loop
    ends within [2 * lines + 1] iterations although the cursor does not
    advance on a Finished transition, and nothing is thrown.  The bound on
    the iterations does not depend on the detectors. *)
Theorem scanLogContent_total (this : t PuertsExceptionDetector.t) (u : uuid)
  (content : string) :
  reachable this u ->
  (exists this' issues u',
      scanLogContent this content u = (this', Some (Normal issues), u')
      /\ reachable this' u'
      /\ (length issues <= length (Js.split_lines content))%nat)
  /\ (forall fuel,
        (2 * length (Js.split_lines content) + 1 <= fuel)%nat ->
        snd (fst (forLoop fuel (Js.split_lines content)
                    {| i := 0; issues := []; scanner := this |} u))
        = Some (Normal tt))
  /\ (forall (D : Type) (H : IIssueDetector D) (s : t D) (v : uuid),
        snd (fst (scanLogContent s content v)) <> None).
Proof.
  intros Hreach.
  destruct (reachable_registry this u Hreach) as (cur & m & -> & Hid).
  split; [|split].
  - destruct (scanLogContent (registry cur m) content u) as [[this' r] u'] eqn:Hscan.
    pose proof (reachable_scan _ _ _ _ _ _ Hreach Hscan) as Hreach'.
    unfold scanLogContent in Hscan. rewrite scanLines_replay in Hscan.
    destruct (replay cur (Js.split_lines content) u) as [[em c] u1] eqn:Hr.
    injection Hscan as <- <- <-.
    exists (registry c m), em, u1. split; [reflexivity|]. split; [exact Hreach'|].
    clear -Hr. revert cur u em c u1 Hr.
    induction (Js.split_lines content) as [|line lines IH]; intros cur u em c u1; simpl.
    + intros [= <- _ _]. simpl. lia.
    + destruct (marks line).
      * destruct (replay (Some (opened line u)) lines (S u)) as [[em' c'] u2] eqn:Hr'.
        intros [= <- _ _]. specialize (IH _ _ _ _ _ Hr').
        destruct cur; simpl; lia.
      * intros Hr. specialize (IH _ _ _ _ _ Hr). lia.
  - intros fuel Hfuel.
    rewrite (forLoop_replay fuel _ _ u cur m); simpl.
    + destruct (replay cur _ u) as [[em c] u1]. reflexivity.
    + reflexivity.
    + lia.
    + unfold weight. simpl. destruct cur; simpl; lia.
  - intros D H s v. apply scanLines_fuel.
Qed.

Lemma scanLogContent_total_witness :
  reachable (LogScanner.new tt) 0%nat
  /\ exists this' issues u',
      scanLogContent (LogScanner.new tt) " Puerts: Error:(0x0x300b08e68)first
 Puerts: Error:(0x0x300b08e68)second" 0%nat
      = (this', Some (Normal issues), u')
      /\ reachable this' u'
      /\ (length issues
          <= length (Js.split_lines " Puerts: Error:(0x0x300b08e68)first
 Puerts: Error:(0x0x300b08e68)second"))%nat.
Proof.
  split; [exact (reachable_new 0%nat 0%nat)|].
  exact (proj1 (scanLogContent_total (LogScanner.new tt) 0%nat _ (reachable_new 0%nat 0%nat))).
Defined.

(** C7 (the error of pickIssue).  [pickIssue] throws exactly when the
    detector owns no issue: so it does on a new detector and right after
    an issue was picked.  Whenever [receiveLine] returned Finished the
    detector owns an issue, so the call the orchestrator makes right
    after it succeeds, and no scan of a scanner that a program can hold
    ends with a thrown error. *)
Theorem pickIssue_throws_iff :
  (forall d : PuertsExceptionDetector.t,
      (exists e, snd (PuertsExceptionDetector.pickIssue d) = Throw e)
      <-> PuertsExceptionDetector.issue d = None)
  /\ snd (PuertsExceptionDetector.pickIssue PuertsExceptionDetector.new)
     = Throw "issue not exist"
  /\ (forall (d d' : PuertsExceptionDetector.t) (x : Issue.t),
        PuertsExceptionDetector.pickIssue d = (d', Normal x) ->
        PuertsExceptionDetector.pickIssue d' = (d', Throw "issue not exist"))
  /\ (forall (d d' : PuertsExceptionDetector.t) (line : string) (u u' : uuid),
        PuertsExceptionDetector.receiveLine d line u
        = (d', Normal EIssueDetectorState.Finished, u') ->
        exists x,
          PuertsExceptionDetector.pickIssue d'
          = (PuertsExceptionDetector.new, Normal x))
  /\ (forall (this : t PuertsExceptionDetector.t) (u : uuid) (content : string) e,
        reachable this u ->
        snd (fst (scanLogContent this content u)) <> Some (Throw e)).
Proof.
  split; [|split; [|split; [|split]]].
  - intros d. unfold PuertsExceptionDetector.pickIssue.
    destruct (PuertsExceptionDetector.issue d) as [x|]; simpl; split.
    + intros [e He]. discriminate.
    + discriminate.
    + reflexivity.
    + intros _. eexists. reflexivity.
  - reflexivity.
  - intros d d' x. unfold PuertsExceptionDetector.pickIssue.
    destruct (PuertsExceptionDetector.issue d); [|discriminate].
    intros [= <- _]. reflexivity.
  - intros d d' line u u'.
    unfold PuertsExceptionDetector.receiveLine, bind, ret.
    destruct (PuertsExceptionDetector.state d).
    + destruct (0 <? Js.indexOf line PUERTS_ERROR_KEYWORD); discriminate.
    + destruct (PuertsExceptionDetector.isLogIndicateFinished line); [|discriminate].
      destruct (PuertsExceptionDetector.issue d) as [x|]; [|discriminate].
      intros [= <- _]. eexists. reflexivity.
    + destruct (PuertsExceptionDetector.isLogIndicateFinished line); [|discriminate].
      destruct (PuertsExceptionDetector.issue d) as [x|]; [|discriminate].
      intros [= <- _]. eexists. reflexivity.
  - intros this u content e Hreach.
    destruct (reachable_registry this u Hreach) as (cur & m & -> & _).
    unfold scanLogContent. rewrite scanLines_replay.
    destruct (replay cur _ u) as [[em c] u1]. simpl. discriminate.
Qed.

Lemma pickIssue_throws_iff_witness :
  PuertsExceptionDetector.pickIssue
    (active (opened " Puerts: Error:(0x0x300b08e68)first" 0%nat))
  = (PuertsExceptionDetector.new,
     Normal (opened " Puerts: Error:(0x0x300b08e68)first" 0%nat))
  /\ PuertsExceptionDetector.pickIssue PuertsExceptionDetector.new
     = (PuertsExceptionDetector.new, Throw "issue not exist").
Proof.
  split; [reflexivity|].
  exact (proj1 (proj2 (proj2 pickIssue_throws_iff))
           (active (opened " Puerts: Error:(0x0x300b08e68)first" 0%nat))
           PuertsExceptionDetector.new
           (opened " Puerts: Error:(0x0x300b08e68)first" 0%nat) eq_refl).
Defined.

(** C8 (detector reuse).  After a successful [pickIssue] the detector is
    as newly constructed: state None, no issue.  A marked line then
    activates it with a new issue that is built from that line and a
    fresh identifier alone: its raw logs are that line, its stack trace
    is at most the fragment of that line. *)
Theorem pickIssue_resets (d d' : PuertsExceptionDetector.t) (x : Issue.t)
  (line : string) (u : uuid) :
  PuertsExceptionDetector.pickIssue d = (d', Normal x) ->
  marks line = true ->
  d' = PuertsExceptionDetector.new
  /\ PuertsExceptionDetector.getState d' = EIssueDetectorState.None
  /\ PuertsExceptionDetector.issue d' = None
  /\ PuertsExceptionDetector.receiveLine d' line u
     = (active (opened line u), Normal EIssueDetectorState.Activated, S u)
  /\ Issue.id (opened line u) = u
  /\ Issue.rawLogs (opened line u) = [line]
  /\ Issue.stackTrace (opened line u)
     = (if 0 <=? Js.indexOf line PUERTS_STACK_KEYWORD
        then [Js.substring line (Js.indexOf line PUERTS_STACK_KEYWORD)]
        else []).
Proof.
  unfold PuertsExceptionDetector.pickIssue.
  destruct (PuertsExceptionDetector.issue d); [|discriminate].
  intros [= <- _] Hm.
  split; [reflexivity|]. split; [reflexivity|]. split; [reflexivity|].
  split; [exact (receiveLine_idle_marked PuertsExceptionDetector.new line u eq_refl Hm)|].
  split; [apply opened_id|]. split; [apply opened_rawLogs|].
  unfold opened. destruct (0 <=? _); reflexivity.
Qed.

Lemma pickIssue_resets_witness :
  PuertsExceptionDetector.pickIssue
    (active (Issue.addLogLine (opened " Puerts: Error:(0x0x300b08e68)first" 0%nat)
               " Puerts: Error:(0x0x300b08e68)second"))
  = (PuertsExceptionDetector.new,
     Normal (Issue.addLogLine (opened " Puerts: Error:(0x0x300b08e68)first" 0%nat)
               " Puerts: Error:(0x0x300b08e68)second"))
  /\ marks " Puerts: Error:(0x0x300b08e68)second" = true
  /\ Issue.rawLogs (opened " Puerts: Error:(0x0x300b08e68)second" 1%nat)
     = [" Puerts: Error:(0x0x300b08e68)second"].
Proof.
  split; [reflexivity|]. split; [reflexivity|].
  exact (proj1 (proj2 (proj2 (proj2 (proj2 (proj2
           (pickIssue_resets
              (active (Issue.addLogLine
                         (opened " Puerts: Error:(0x0x300b08e68)first" 0%nat)
                         " Puerts: Error:(0x0x300b08e68)second"))
              PuertsExceptionDetector.new
              (Issue.addLogLine (opened " Puerts: Error:(0x0x300b08e68)first" 0%nat)
                 " Puerts: Error:(0x0x300b08e68)second")
              " Puerts: Error:(0x0x300b08e68)second" 1%nat
              eq_refl eq_refl))))))).
Defined.

(** C9 (severity).  The severity of an issue is computed by the
    constructor from the type it is given, by the mapping Crash to
    critical, Exception to high, Error to medium (Error is also the type
    taken when none is given).  Nothing recomputes it: it is unchanged
    when the type field is assigned later, when a line or a stack line is
    added, and when the source is set. *)
Theorem severity_fixed_at_creation (type type' : EIssueType.t)
  (message : option string) (u : uuid) (line path : string) :
  let issue := fst (Issue.new (Some type) message u) in
  Issue.severity issue = Issue.getSeverityFromType type
  /\ Issue.getSeverityFromType EIssueType.Crash = "critical"
  /\ Issue.getSeverityFromType EIssueType.Exception = "high"
  /\ Issue.getSeverityFromType EIssueType.Error = "medium"
  /\ Issue.severity (fst (Issue.new None message u)) = "medium"
  /\ Issue.type (Issue.set_type issue type') = type'
  /\ Issue.severity (Issue.set_type issue type') = Issue.getSeverityFromType type
  /\ Issue.severity (Issue.addLogLine issue line) = Issue.getSeverityFromType type
  /\ Issue.severity (Issue.addStacktraceLine issue line)
     = Issue.getSeverityFromType type
  /\ Issue.severity (Issue.set_source issue path) = Issue.getSeverityFromType type.
Proof. simpl. repeat split; reflexivity. Qed.

(** C10 (keyword at column 0).  The detector recognises its keyword only
    at a strictly positive index.  A line that begins with the keyword
    has it at index 0: it does not activate an idle detector and does not
    finish an active one, which is what any line without the keyword
    does; scanning such a line emits nothing and changes no scanner. *)
Theorem keyword_at_column_0 (rest : string) :
  let line := PUERTS_ERROR_KEYWORD +:+ rest in
  Js.indexOf line PUERTS_ERROR_KEYWORD = 0
  /\ PuertsExceptionDetector.isLogIndicateFinished line = false
  /\ (forall (d : PuertsExceptionDetector.t) (u : uuid),
        PuertsExceptionDetector.getState d = EIssueDetectorState.None ->
        PuertsExceptionDetector.receiveLine d line u
        = (d, Normal EIssueDetectorState.None, u))
  /\ (forall (d : PuertsExceptionDetector.t) (u : uuid),
        PuertsExceptionDetector.getState d <> EIssueDetectorState.None ->
        PuertsExceptionDetector.receiveLine d line u
        = (d, Normal EIssueDetectorState.Activated, u))
  /\ (forall (other : string) (d : PuertsExceptionDetector.t) (u : uuid),
        Js.indexOf other PUERTS_ERROR_KEYWORD = -1 ->
        PuertsExceptionDetector.receiveLine d other u
        = PuertsExceptionDetector.receiveLine d line u)
  /\ (forall (l : string) (u : uuid),
        snd (fst (PuertsExceptionDetector.receiveLine PuertsExceptionDetector.new l u))
        = Normal EIssueDetectorState.Activated
        <-> 0 < Js.indexOf l PUERTS_ERROR_KEYWORD)
  /\ (forall (cur : option Issue.t) (m : nat) (u : uuid),
        scanLines (registry cur m) [line] u
        = (registry cur m, Some (Normal []), u)).
Proof.
  intros line.
  assert (Js.indexOf line PUERTS_ERROR_KEYWORD = 0) as Hidx by reflexivity.
  assert (marks line = false) as Hm by (unfold marks; rewrite Hidx; reflexivity).
  split; [exact Hidx|]. split.
  { unfold PuertsExceptionDetector.isLogIndicateFinished. rewrite Hidx. reflexivity. }
  split.
  { intros d u Hd. apply receiveLine_idle_unmarked; assumption. }
  split.
  { intros d u Hd. apply receiveLine_active_unmarked; assumption. }
  split.
  { intros other d u Hother.
    assert (marks other = false) as Hmo by (unfold marks; rewrite Hother; reflexivity).
    destruct (PuertsExceptionDetector.state d) eqn:Hs.
    - rewrite !receiveLine_idle_unmarked by assumption. reflexivity.
    - rewrite !receiveLine_active_unmarked by (try assumption; congruence).
      reflexivity.
    - rewrite !receiveLine_active_unmarked by (try assumption; congruence).
      reflexivity. }
  split.
  { intros l u. unfold PuertsExceptionDetector.receiveLine, bind, ret. simpl.
    destruct (Z.ltb_spec 0 (Js.indexOf l PUERTS_ERROR_KEYWORD)); simpl.
    - split; [intros _; assumption|reflexivity].
    - split; [discriminate|lia]. }
  intros cur m u. rewrite scanLines_replay. cbn [replay]. rewrite Hm. reflexivity.
Qed.

Lemma keyword_at_column_0_witness :
  PuertsExceptionDetector.getState PuertsExceptionDetector.new
  = EIssueDetectorState.None
  /\ PuertsExceptionDetector.receiveLine PuertsExceptionDetector.new
       (PUERTS_ERROR_KEYWORD +:+ "(0x0x300b08e68)first") 0%nat
     = (PuertsExceptionDetector.new, Normal EIssueDetectorState.None, 0%nat).
Proof.
  split; [reflexivity|].
  exact (proj1 (proj2 (proj2 (keyword_at_column_0 "(0x0x300b08e68)first")))
           PuertsExceptionDetector.new 0%nat eq_refl).
Defined.

(** *** Multi-line blocks *)

Lemma replay_pairs (lines : list string) :
  forall (cur : option Issue.t) (u : uuid) emitted cur' u',
    replay cur lines u = (emitted, cur', u') ->
    (forall x, cur = Some x -> exists l, Issue.rawLogs x = [l] /\ marks l = true) ->
    Forall (fun y => exists l l',
                Issue.rawLogs y = [l; l'] /\ marks l = true /\ marks l' = true)
           emitted
    /\ (forall z, cur' = Some z -> exists l, Issue.rawLogs z = [l] /\ marks l = true).
Proof.
  induction lines as [|line lines IH]; intros cur u emitted cur' u'; simpl.
  - intros [= <- <- <-] Hc. split; [constructor|exact Hc].
  - destruct (marks line) eqn:Hm.
    + destruct (replay (Some (opened line u)) lines (S u)) as [[em c] u1] eqn:Hr.
      intros [= <- <- <-] Hc.
      destruct (IH _ _ _ _ _ Hr) as [Hem Hz].
      { intros x [= <-]. exists line. rewrite opened_rawLogs. auto. }
      split; [|exact Hz].
      destruct cur as [x|]; [|exact Hem].
      constructor; [|exact Hem].
      destruct (Hc x eq_refl) as (l & Hl & Hml).
      exists l, line. simpl. rewrite Hl. auto.
    + intros Hr Hc. apply (IH _ _ _ _ _ Hr Hc).
Qed.

(** The claim C3 on its own example, with the lines opened by the
    keyword of the shipped detector: the two stack lines are in none of
    the buffers of the first issue, whose type is still Error; an active
    detector returns from a stack line unchanged. *)
Lemma multi_line_accumulation_counterexample :
  exists this' first u',
    scanLogContent (LogScanner.new tt) " Puerts: Error:(0x0x300b08e68)err A
    at foo.bar
    at baz.qux
 Puerts: Error:(0x0x300b08e68)err B" 0%nat
    = (this', Some (Normal [first]), u')
    /\ Issue.rawLogs first
       = [" Puerts: Error:(0x0x300b08e68)err A";
          " Puerts: Error:(0x0x300b08e68)err B"]
    /\ ("    at foo.bar" ∉ Issue.rawLogs first)
    /\ Issue.stackTrace first = []
    /\ Issue.type first <> EIssueType.Exception
    /\ PuertsExceptionDetector.receiveLine
         (active (opened " Puerts: Error:(0x0x300b08e68)err A" 0%nat))
         "    at foo.bar" 1%nat
       = (active (opened " Puerts: Error:(0x0x300b08e68)err A" 0%nat),
          Normal EIssueDetectorState.Activated, 1%nat).
Proof.
  eexists _, _, _. split; [vm_compute; reflexivity|].
  split; [reflexivity|]. split.
  { intros Hin. apply elem_of_cons in Hin. destruct Hin as [Hin|Hin]; [discriminate|].
    apply list_elem_of_singleton in Hin. discriminate. }
  split; [reflexivity|]. split; [discriminate|]. reflexivity.
Qed.

(** C3, amended.  While a detector is active, a line that does not end
    the block is not appended to the raw logs of its issue.  The raw logs
    of every issue emitted by a scanner without bound detector are the
    line that opened it followed by the line that closed it.  The stack
    marker is looked for on the opening line, whose text from the marker
    on is the first stack line.  On the example the raw logs of the first
    issue are lines 1 and 4. *)
Theorem rawLogs_opening_and_closing :
  (forall (d : PuertsExceptionDetector.t) (x : Issue.t) (line : string) (u : uuid),
      PuertsExceptionDetector.getState d <> EIssueDetectorState.None ->
      PuertsExceptionDetector.issue d = Some x ->
      marks line = false ->
      snd (fst (PuertsExceptionDetector.receiveLine d line u))
      = Normal EIssueDetectorState.Activated
      /\ exists x',
          PuertsExceptionDetector.issue
            (fst (fst (PuertsExceptionDetector.receiveLine d line u))) = Some x'
          /\ Issue.rawLogs x' = Issue.rawLogs x)
  /\ (forall (line : string) (u : uuid),
        marks line = true ->
        PuertsExceptionDetector.receiveLine PuertsExceptionDetector.new line u
        = (active (opened line u), Normal EIssueDetectorState.Activated, S u)
        /\ Issue.rawLogs (opened line u) = [line]
        /\ Issue.stackTrace (opened line u)
           = (if 0 <=? Js.indexOf line PUERTS_STACK_KEYWORD
              then [Js.substring line (Js.indexOf line PUERTS_STACK_KEYWORD)]
              else []))
  /\ (forall (m : nat) (content : string) (u u' : uuid)
             (this' : t PuertsExceptionDetector.t) (issues : list Issue.t),
        scanLogContent (registry None m) content u
        = (this', Some (Normal issues), u') ->
        Forall (fun y => exists l l',
                    Issue.rawLogs y = [l; l']
                    /\ marks l = true /\ marks l' = true) issues)
  /\ (exists this' first rest u',
        scanLogContent (LogScanner.new tt) " Puerts: Error:(0x0x300b08e68)err A
    at foo.bar
    at baz.qux
 Puerts: Error:(0x0x300b08e68)err B" 0%nat
        = (this', Some (Normal (first :: rest)), u')
        /\ Issue.rawLogs first
           = [" Puerts: Error:(0x0x300b08e68)err A";
              " Puerts: Error:(0x0x300b08e68)err B"]).
Proof.
  split; [|split; [|split]].
  - intros d x line u Hs Hx Hm.
    rewrite (receiveLine_active_unmarked d line u Hs Hm). simpl.
    split; [reflexivity|]. exists x. auto.
  - intros line u Hm. split; [exact (receiveLine_idle_marked PuertsExceptionDetector.new line u eq_refl Hm)|].
    split; [apply opened_rawLogs|].
    unfold opened. destruct (0 <=? _); reflexivity.
  - intros m content u u' this' issues.
    unfold scanLogContent. rewrite scanLines_replay.
    destruct (replay None (Js.split_lines content) u) as [[em c] u1] eqn:Hr.
    intros [= _ <- _].
    apply (replay_pairs _ _ _ _ _ _ Hr). intros x [=].
  - eexists _, _, _, _. split; [vm_compute; reflexivity|]. reflexivity.
Qed.

Lemma rawLogs_opening_and_closing_witness :
  PuertsExceptionDetector.getState
    (active (opened " Puerts: Error:(0x0x300b08e68)err A" 0%nat))
  <> EIssueDetectorState.None
  /\ marks "    at foo.bar" = false
  /\ snd (fst (PuertsExceptionDetector.receiveLine
                 (active (opened " Puerts: Error:(0x0x300b08e68)err A" 0%nat))
                 "    at foo.bar" 1%nat))
     = Normal EIssueDetectorState.Activated.
Proof.
  split; [discriminate|]. split; [reflexivity|].
  refine (proj1 (proj1 rawLogs_opening_and_closing
                   (active (opened " Puerts: Error:(0x0x300b08e68)err A" 0%nat))
                   (opened " Puerts: Error:(0x0x300b08e68)err A" 0%nat)
                   "    at foo.bar" 1%nat _ eq_refl eq_refl)).
  discriminate.
Defined.

(** *** Several sources *)




End Engine_properties.

(** * Further properties of the engine *)

Section Engine_more.

Import LogScanner.

(** ** Strings *)

Lemma drop_app_length (a b : string) : Js.drop (String.length a) (a +:+ b) = b.
Proof. induction a as [|c a IH]; simpl; [destruct b; reflexivity|exact IH]. Qed.

Lemma drop_suffix (n : nat) (s : string) : exists p, s = p +:+ Js.drop n s.
Proof.
  revert s. induction n as [|n IH]; intros s.
  - exists EmptyString. destruct s; reflexivity.
  - destruct s as [|c s]; simpl.
    + exists EmptyString. reflexivity.
    + destruct (IH s) as [p Hp]. exists (String c p).
      change (String c s = String c (p +:+ Js.drop n s)). f_equal. exact Hp.
Qed.

Lemma indexOf_found (s needle : string) :
  0 <= Js.indexOf s needle ->
  Js.startsWith needle (Js.substring s (Js.indexOf s needle)) = true.
Proof.
  unfold Js.indexOf, Js.substring.
  destruct (indexOfFrom_spec s needle 0) as [[Hnone _]|(n & Hn & _ & Hat & _)].
  - rewrite Hnone. lia.
  - rewrite Hn. simpl. rewrite Nat2Z.id. intros _. exact Hat.
Qed.

Lemma append_nil_r (a : string) : a +:+ EmptyString = a.
Proof.
  induction a as [|c a IH]; [reflexivity|].
  change (String c a +:+ EmptyString) with (String c (a +:+ EmptyString)).
  rewrite IH. reflexivity.
Qed.

Lemma append_assoc (a b c : string) : (a +:+ b) +:+ c = a +:+ (b +:+ c).
Proof.
  induction a as [|x a IH]; [reflexivity|].
  change (String x ((a +:+ b) +:+ c) = String x (a +:+ (b +:+ c))).
  f_equal. exact IH.
Qed.

Lemma length_append (a b : string) :
  String.length (a +:+ b) = (String.length a + String.length b)%nat.
Proof.
  induction a as [|c a IH]; [reflexivity|].
  change (String c a +:+ b) with (String c (a +:+ b)). simpl. rewrite IH.
  reflexivity.
Qed.

Lemma take_app_length (a b : string) : Js.take (String.length a) (a +:+ b) = a.
Proof.
  induction a as [|c a IH]; simpl; [reflexivity|].
  change (String c a +:+ b) with (String c (a +:+ b)). simpl. rewrite IH.
  reflexivity.
Qed.

Lemma take_drop (n : nat) (s : string) : s = Js.take n s +:+ Js.drop n s.
Proof.
  revert s. induction n as [|n IH]; intros s; [reflexivity|].
  destruct s as [|c s]; [reflexivity|]. simpl.
  change (String c s = String c (Js.take n s +:+ Js.drop n s)).
  f_equal. apply IH.
Qed.

Lemma length_take (n : nat) (s : string) :
  (n <= String.length s)%nat -> String.length (Js.take n s) = n.
Proof.
  revert s. induction n as [|n IH]; intros s Hn; [reflexivity|].
  destruct s as [|c s]; simpl in *; [lia|]. rewrite IH; [reflexivity|lia].
Qed.

(** The first occurrence, as a place in the text. *)
Lemma indexOf_first (s needle : string) :
  0 <= Js.indexOf s needle ->
  exists before rest,
    s = before +:+ rest
    /\ Js.indexOf s needle = Z.of_nat (String.length before)
    /\ rest = Js.substring s (Js.indexOf s needle)
    /\ Js.startsWith needle rest = true
    /\ forall n, (n < String.length before)%nat ->
                 Js.startsWith needle (Js.drop n s) = false.
Proof.
  unfold Js.indexOf, Js.substring.
  destruct (indexOfFrom_spec s needle 0) as [[Hnone _]|(n & Hn & Hlen & Hat & Hbefore)].
  - rewrite Hnone. lia.
  - rewrite Hn. simpl. rewrite Nat2Z.id. intros _.
    exists (Js.take n s), (Js.drop n s).
    rewrite (length_take n s Hlen).
    split; [apply take_drop|]. split; [reflexivity|]. split; [reflexivity|].
    split; [exact Hat|exact Hbefore].
Qed.

Lemma split_lines_nonempty (s : string) : Js.split_lines s <> [].
Proof.
  destruct s as [|c s]; simpl; [discriminate|].
  destruct (Ascii.eqb c Js.LF); [discriminate|].
  destruct (Js.split_lines s); discriminate.
Qed.

Lemma split_lines_app (a b : string) :
  Js.split_lines (a +:+ String Js.LF b) = Js.split_lines a ++ Js.split_lines b.
Proof.
  induction a as [|c a IH]; simpl.
  - reflexivity.
  - destruct (Ascii.eqb c Js.LF).
    + rewrite IH. reflexivity.
    + rewrite IH. pose proof (split_lines_nonempty a) as Hne.
      destruct (Js.split_lines a) as [|l ls]; [congruence|]. reflexivity.
Qed.

(** ** The scan in closed form *)

Lemma replay_filter (lines : list string) :
  forall (cur : option Issue.t) (u : uuid),
    replay cur lines u = replay cur (List.filter marks lines) u.
Proof.
  induction lines as [|line lines IH]; intros cur u; simpl; [reflexivity|].
  destruct (marks line) eqn:Hm; simpl.
  - rewrite Hm, IH. reflexivity.
  - apply IH.
Qed.

Lemma filter_marks_Forall (lines : list string) :
  Forall (fun l => marks l = true) (List.filter marks lines).
Proof.
  induction lines as [|line lines IH]; simpl; [constructor|].
  destruct (marks line) eqn:Hm; [constructor; assumption|exact IH].
Qed.

Lemma replay_bound_closed (ms : list string) :
  forall (x : Issue.t) (u : uuid),
    Forall (fun l => marks l = true) ms ->
    replay (Some x) ms u
    = (match ms with
       | [] => []
       | b :: _ => Issue.addLogLine x b :: emitted_of ms u
       end,
       match ms with
       | [] => Some x
       | _ :: _ => in_progress ms u
       end,
       (u + length ms)%nat).
Proof.
  induction ms as [|a ms IH]; intros x u Hall; simpl.
  - rewrite Nat.add_0_r. reflexivity.
  - inversion Hall as [|? ? Ha Hms]; subst. rewrite Ha.
    rewrite (IH (opened a u) (S u) Hms).
    destruct ms as [|b ms]; simpl.
    + f_equal. lia.
    + f_equal. lia.
Qed.

Lemma replay_idle_closed (ms : list string) (u : uuid) :
  Forall (fun l => marks l = true) ms ->
  replay None ms u = (emitted_of ms u, in_progress ms u, (u + length ms)%nat).
Proof.
  destruct ms as [|a ms]; intros Hall; simpl.
  - rewrite Nat.add_0_r. reflexivity.
  - inversion Hall as [|? ? Ha Hms]; subst. rewrite Ha.
    rewrite (replay_bound_closed ms (opened a u) (S u) Hms).
    destruct ms as [|b ms]; simpl; f_equal; lia.
Qed.

Lemma emitted_of_length (ms : list string) (u : uuid) :
  length (emitted_of ms u) = pred (length ms).
Proof.
  revert u. induction ms as [|a ms IH]; intros u; [reflexivity|].
  destruct ms as [|b ms]; [reflexivity|].
  change (emitted_of (a :: b :: ms) u)
    with (Issue.addLogLine (opened a u) b :: emitted_of (b :: ms) (S u)).
  cbn [length]. rewrite (IH (S u)). reflexivity.
Qed.

(** ** The issues of the engine *)

Lemma replay_opened (lines : list string) :
  forall (cur : option Issue.t) (u : uuid) emitted cur' u',
    replay cur lines u = (emitted, cur', u') ->
    carried cur u ->
    Forall (fun y => exists l l' k,
                y = Issue.addLogLine (opened l k) l'
                /\ marks l = true /\ marks l' = true /\ (k < u')%nat)
           emitted
    /\ carried cur' u'
    /\ (u <= u')%nat.
Proof.
  induction lines as [|line lines IH]; intros cur u emitted cur' u'; simpl.
  - intros [= <- <- <-] Hc. split; [constructor|]. split; [exact Hc|lia].
  - destruct (marks line) eqn:Hm.
    + destruct (replay (Some (opened line u)) lines (S u)) as [[em c] u1] eqn:Hr.
      intros [= <- <- <-] Hc.
      destruct (IH _ _ _ _ _ Hr) as (Hem & Hcar & Hle).
      { intros x [= <-]. exists line, u. auto. }
      split; [|split; [exact Hcar|lia]].
      destruct cur as [x|]; [|exact Hem].
      constructor; [|exact Hem].
      destruct (Hc x eq_refl) as (l & k & -> & Hl & Hk).
      exists l, line, k. repeat split; auto. lia.
    + intros Hr Hc. apply (IH _ _ _ _ _ Hr Hc).
Qed.

Lemma reachable_carried (s : t PuertsExceptionDetector.t) (u : uuid) :
  reachable s u -> exists cur m, s = registry cur m /\ carried cur u.
Proof.
  induction 1 as [m u|s u _ (cur & m & -> & Hc)
                 |s s' u u' content r _ (cur & m & -> & Hc) Hscan].
  - exists None, m. split; [reflexivity|]. intros x [=].
  - exists cur, m. split; [reflexivity|]. intros x Hx.
    destruct (Hc x Hx) as (l & k & E & Hl & Hk). exists l, k. repeat split; auto.
  - unfold scanLogContent in Hscan. rewrite scanLines_replay in Hscan.
    destruct (replay cur (Js.split_lines content) u) as [[em c] u1] eqn:Hr.
    injection Hscan as <- _ <-.
    exists c, m. split; [reflexivity|].
    apply (replay_opened _ _ _ _ _ _ Hr Hc).
Qed.

(** Identifiers grow along the output. *)
Lemma replay_sorted (lines : list string) :
  forall (cur : option Issue.t) (u : uuid) emitted cur' u',
    replay cur lines u = (emitted, cur', u') ->
    (forall x, cur = Some x -> (Issue.id x < u)%nat) ->
    StronglySorted lt (map Issue.id emitted)
    /\ Forall (fun y => match cur with
                        | Some x => (Issue.id x <= Issue.id y)%nat
                        | None => (u <= Issue.id y)%nat
                        end) emitted.
Proof.
  induction lines as [|line lines IH]; intros cur u emitted cur' u'; simpl.
  - intros [= <- <- <-] _. split; constructor.
  - destruct (marks line).
    + destruct (replay (Some (opened line u)) lines (S u)) as [[em c] u1] eqn:Hr.
      intros [= <- <- <-] Hc.
      destruct (IH _ _ _ _ _ Hr) as (Hsorted & Hlow).
      { intros x [= <-]. rewrite opened_id. lia. }
      rewrite opened_id in Hlow. simpl in Hlow.
      destruct cur as [x|].
      * specialize (Hc x eq_refl). split.
        -- simpl. constructor; [exact Hsorted|].
           apply Forall_map. eapply Forall_impl; [exact Hlow|].
           simpl. intros y Hy. lia.
        -- constructor; [simpl; lia|].
           eapply Forall_impl; [exact Hlow|]. simpl. intros y Hy. lia.
      * split; [exact Hsorted|exact Hlow].
    + intros Hr Hc. apply (IH _ _ _ _ _ Hr Hc).
Qed.

Lemma emitted_of_lookup (ms : list string) :
  forall (u k : nat) (a b : string),
    ms !! k = Some a -> ms !! S k = Some b ->
    emitted_of ms u !! k = Some (Issue.addLogLine (opened a (u + k)%nat) b).
Proof.
  induction ms as [|a0 ms IH]; intros u k a b Ha Hb; [discriminate|].
  destruct ms as [|b0 ms]; [destruct k; discriminate|].
  change (emitted_of (a0 :: b0 :: ms) u)
    with (Issue.addLogLine (opened a0 u) b0 :: emitted_of (b0 :: ms) (S u)).
  destruct k as [|k].
  - injection Ha as <-. injection Hb as <-. simpl. rewrite Nat.add_0_r. reflexivity.
  - change ((b0 :: ms) !! k = Some a) in Ha.
    change ((b0 :: ms) !! S k = Some b) in Hb.
    change (emitted_of (b0 :: ms) (S u) !! k
            = Some (Issue.addLogLine (opened a (u + S k)%nat) b)).
    replace (u + S k)%nat with (S u + k)%nat by lia.
    exact (IH (S u) k a b Ha Hb).
Qed.

Lemma in_progress_is_Some (ms : list string) (u : uuid) :
  ms <> [] -> exists x, in_progress ms u = Some x.
Proof.
  revert u. induction ms as [|a ms IH]; intros u Hne; [congruence|].
  destruct ms as [|b ms]; [eexists; reflexivity|].
  apply (IH (S u)). discriminate.
Qed.

Lemma StronglySorted_lt_NoDup (l : list nat) : StronglySorted lt l -> NoDup l.
Proof.
  induction 1 as [|a l Hs IH Hall]; constructor; [|exact IH].
  intros Hin. rewrite Forall_forall in Hall. specialize (Hall a Hin). lia.
Qed.

(** ** Blocks left open *)

Lemma opened_not_emitted (l l0 l0' : string) (k k0 : uuid) :
  opened l k <> Issue.addLogLine (opened l0 k0) l0'.
Proof.
  intros E. apply (f_equal Issue.rawLogs) in E. simpl in E.
  rewrite !opened_rawLogs in E. discriminate E.
Qed.

Lemma scan_bound_marked (x : Issue.t) (m : nat) (content : string)
  (before after : list string) (line : string) (u : uuid) :
  Js.split_lines content = before ++ line :: after ->
  Forall (fun l => marks l = false) before ->
  marks line = true ->
  exists this' rest u',
    scanLogContent (registry (Some x) m) content u
    = (this', Some (Normal (Issue.addLogLine x line :: rest)), u').
Proof.
  intros Hsplit Hbefore Hline.
  unfold scanLogContent. rewrite Hsplit, scanLines_replay, replay_app.
  rewrite (replay_unmarked (Some x) before u Hbefore). simpl. rewrite Hline.
  destruct (replay (Some (opened line u)) after (S u)) as [[em c] u1].
  eexists _, _, _. reflexivity.
Qed.

Lemma scan_unmarked (cur : option Issue.t) (m : nat) (content : string) (u : uuid) :
  Forall (fun l => marks l = false) (Js.split_lines content) ->
  scanLogContent (registry cur m) content u
  = (registry cur m, Some (Normal []), u).
Proof.
  intros Hall. unfold scanLogContent.
  rewrite scanLines_replay, (replay_unmarked cur _ u Hall). reflexivity.
Qed.

(** The claim C1 as it stands, on a new scanner.  Two lines that each
    contain the keyword, at column 0 as in the example of the
    specification, give no issue at all.  Where the keyword is seen (at
    an index above 0) the second issue is emitted after all: by the next
    scan of the same scanner, closed by a line of that scan. *)
Lemma replay_counterexample :
  0 <= Js.indexOf "Puerts: Error:(0x0x300b08e68)msg" PUERTS_ERROR_KEYWORD
  /\ 0 <= Js.indexOf "Puerts: Error:(0x0x300b08e68)msg2" PUERTS_ERROR_KEYWORD
  /\ scanLogContent (LogScanner.new tt) "Puerts: Error:(0x0x300b08e68)msg
Puerts: Error:(0x0x300b08e68)msg2" 0%nat
     = (LogScanner.new tt, Some (Normal []), 0%nat)
  /\ exists this1 first this2 second u2,
      scanLogContent (LogScanner.new tt) " Puerts: Error:(0x0x300b08e68)first
 Puerts: Error:(0x0x300b08e68)second" 0%nat
      = (this1, Some (Normal [first]), 2%nat)
      /\ scanLogContent this1 " Puerts: Error:(0x0x300b08e68)third" 2%nat
         = (this2, Some (Normal [second]), u2)
      /\ Issue.rawLogs second = [" Puerts: Error:(0x0x300b08e68)second"; " Puerts: Error:(0x0x300b08e68)third"].
Proof.
  split; [vm_compute; discriminate|]. split; [vm_compute; discriminate|].
  split; [vm_compute; reflexivity|].
  eexists _, _, _, _, _.
  split; [vm_compute; reflexivity|]. split; [vm_compute; reflexivity|].
  reflexivity.
Qed.

(** C1, amended.  A content of exactly two lines in each of which the
    keyword stands at an index above 0 (the test the detector makes both
    to open and to close a block), scanned by a scanner with no detector
    bound, as a new one is: exactly one issue is emitted, opened by line 1
    and closed by line 2, with both lines as its raw logs; line 2 also
    re-activates the detector for a second issue, which is not in the
    output of this scan but stays with the detector: the next scan of the
    scanner that meets such a line emits it first, and until then it
    stays in progress.  The three partial runs show the mechanism: after
    the first iteration the cursor is on line 2 with the detector bound;
    the second iteration drains the issue, clears the slot and leaves the
    cursor on line 2; the third processes line 2 again and binds the
    detector anew.  A scanner that starts with a block open emits two
    issues for the two lines, and two lines with the keyword at column 0
    give none. *)
Theorem replay_two_marked_lines (m : nat) (content l1 l2 : string) (u : uuid) :
  Js.split_lines content = [l1; l2] ->
  marks l1 = true ->
  marks l2 = true ->
  let first := Issue.addLogLine (opened l1 u) l2 in
  let second := opened l2 (S u) in
  let start := {| i := 0; issues := []; scanner := registry None m |} in
  scanLogContent (registry None m) content u
  = (registry (Some second) m, Some (Normal [first]), S (S u))
  /\ Issue.rawLogs first = [l1; l2]
  /\ Issue.rawLogs second = [l2]
  /\ forLoop 1 [l1; l2] start u
     = ({| i := 1; issues := [];
           scanner := registry (Some (opened l1 u)) m |}, None, S u)
  /\ forLoop 2 [l1; l2] start u
     = ({| i := 1; issues := [first];
           scanner := registry None m |}, None, S u)
  /\ forLoop 3 [l1; l2] start u
     = ({| i := 2; issues := [first];
           scanner := registry (Some second) m |},
        Some (Normal tt), S (S u))
  /\ (forall (content' : string) (before after : list string) (l3 : string)
             (v : uuid),
        Js.split_lines content' = before ++ l3 :: after ->
        Forall (fun l => marks l = false) before ->
        marks l3 = true ->
        exists this' rest v',
          scanLogContent (registry (Some second) m) content' v
          = (this', Some (Normal (Issue.addLogLine second l3 :: rest)), v'))
  /\ (forall (content' : string) (v : uuid),
        Forall (fun l => marks l = false) (Js.split_lines content') ->
        scanLogContent (registry (Some second) m) content' v
        = (registry (Some second) m, Some (Normal []), v))
  /\ (forall x : Issue.t,
        scanLogContent (registry (Some x) m) content u
        = (registry (Some second) m,
           Some (Normal [Issue.addLogLine x l1; first]), S (S u)))
  /\ (forall (content0 rest1 rest2 : string) (cur : option Issue.t) (v : uuid),
        Js.split_lines content0
        = [PUERTS_ERROR_KEYWORD +:+ rest1; PUERTS_ERROR_KEYWORD +:+ rest2] ->
        scanLogContent (registry cur m) content0 v
        = (registry cur m, Some (Normal []), v)).
Proof.
  intros Hsplit H1 H2 first second start.
  pose (f1 := {| i := 1; issues := [];
                 scanner := registry (Some (opened l1 u)) m |}).
  pose (f2 := {| i := 1; issues := [first]; scanner := registry None m |}).
  assert (forLoop 1 [l1; l2] start u = forLoop 0 [l1; l2] f1 (S u)) as S1.
  { exact (forLoop_S 0 [l1; l2] l1 start _ u (S u) eq_refl eq_refl
             (body_idle_marked m l1 start u eq_refl H1)). }
  assert (forLoop 2 [l1; l2] start u = forLoop 0 [l1; l2] f2 (S u)) as S2.
  { rewrite (forLoop_S 1 [l1; l2] l1 start _ u (S u) eq_refl eq_refl
               (body_idle_marked m l1 start u eq_refl H1)).
    exact (forLoop_S 0 [l1; l2] l2 f1 _ (S u) (S u) eq_refl eq_refl
             (body_active_marked (opened l1 u) m l2 f1 (S u) eq_refl H2)). }
  split.
  { unfold scanLogContent. rewrite Hsplit, scanLines_replay.
    simpl. rewrite H1, H2. reflexivity. }
  split; [unfold first; simpl; rewrite opened_rawLogs; reflexivity|].
  split; [apply opened_rawLogs|].
  split; [rewrite S1; reflexivity|].
  split; [rewrite S2; reflexivity|].
  split.
  { etransitivity;
      [exact (forLoop_S 2 [l1; l2] l1 start _ u (S u) eq_refl eq_refl
                (body_idle_marked m l1 start u eq_refl H1))|].
    etransitivity;
      [exact (forLoop_S 1 [l1; l2] l2 f1 _ (S u) (S u) eq_refl eq_refl
                (body_active_marked (opened l1 u) m l2 f1 (S u) eq_refl H2))|].
    etransitivity;
      [exact (forLoop_S 0 [l1; l2] l2 f2 _ (S u) (S (S u)) eq_refl eq_refl
                (body_idle_marked m l2 f2 (S u) eq_refl H2))|].
    reflexivity. }
  split.
  { intros content' before after l3 v Hs Hb H3.
    exact (scan_bound_marked second m content' before after l3 v Hs Hb H3). }
  split; [intros content' v Hall; exact (scan_unmarked _ m content' v Hall)|].
  split.
  { intros x. unfold scanLogContent. rewrite Hsplit, scanLines_replay.
    simpl. rewrite H1, H2. reflexivity. }
  intros content0 rest1 rest2 cur v Hs0. apply scan_unmarked. rewrite Hs0.
  repeat constructor.
Qed.

Lemma replay_two_marked_lines_witness :
  Js.split_lines " Puerts: Error:(0x0x300b08e68)first
 Puerts: Error:(0x0x300b08e68)second"
  = [" Puerts: Error:(0x0x300b08e68)first";
     " Puerts: Error:(0x0x300b08e68)second"]
  /\ marks " Puerts: Error:(0x0x300b08e68)first" = true
  /\ marks " Puerts: Error:(0x0x300b08e68)second" = true
  /\ scanLogContent (LogScanner.new tt)
       " Puerts: Error:(0x0x300b08e68)first
 Puerts: Error:(0x0x300b08e68)second" 0%nat
     = (registry (Some (opened " Puerts: Error:(0x0x300b08e68)second" 1%nat)) 0,
        Some (Normal [Issue.addLogLine
                        (opened " Puerts: Error:(0x0x300b08e68)first" 0%nat)
                        " Puerts: Error:(0x0x300b08e68)second"]), 2%nat).
Proof.
  split; [reflexivity|]. split; [reflexivity|]. split; [reflexivity|].
  apply (replay_two_marked_lines 0 _ _ _ 0%nat); reflexivity.
Defined.

(** The claim C6 as it stands, on a new scanner: the issue that is in
    progress when the lines [" Puerts: Error:(0x0x300b08e68)err"] and
    ["    at foo"] end is not in the output of that scan, but it is not
    discarded: the detector keeps it, and the next scan of the scanner
    emits it, closed by a line of the other content. *)
Lemma discard_on_truncation_counterexample :
  exists this1 x this2 u2,
    scanLogContent (LogScanner.new tt) " Puerts: Error:(0x0x300b08e68)err
    at foo" 0%nat
    = (this1, Some (Normal []), 1%nat)
    /\ activatedIssueDetector this1 = Some 0%nat
    /\ issueDetectors this1 !! 0%nat = Some (active x)
    /\ Issue.rawLogs x = [" Puerts: Error:(0x0x300b08e68)err"]
    /\ scanLogContent this1 " Puerts: Error:(0x0x300b08e68)next" 1%nat
       = (this2, Some (Normal [Issue.addLogLine x " Puerts: Error:(0x0x300b08e68)next"]), u2)
    /\ Issue.rawLogs (Issue.addLogLine x " Puerts: Error:(0x0x300b08e68)next")
       = [" Puerts: Error:(0x0x300b08e68)err"; " Puerts: Error:(0x0x300b08e68)next"].
Proof.
  eexists _, _, _, _.
  split; [vm_compute; reflexivity|]. split; [reflexivity|].
  split; [reflexivity|]. split; [reflexivity|].
  split; [vm_compute; reflexivity|]. reflexivity.
Qed.

(** C6, amended.  The issue that a detector still holds when a scan
    reaches the end of the lines is not in the list that scan returns.
    It is not discarded: the detector stays Activated and bound and keeps
    the issue, the next scan of the scanner that meets a marked line
    closes it with that line and emits it first, and a scan that meets no
    marked line leaves it in progress.  In particular, lines that open a
    block with a marked line and have no marked line after it give no
    issue at all on a scanner without bound detector, which is then left
    with the block open. *)
Theorem in_progress_issue_is_kept :
  (forall (this this' : t PuertsExceptionDetector.t) (u u' : uuid)
          (content : string) (issues : list Issue.t),
      reachable this u ->
      scanLogContent this content u = (this', Some (Normal issues), u') ->
      forall k d x,
        activatedIssueDetector this' = Some k ->
        issueDetectors this' !! k = Some d ->
        PuertsExceptionDetector.issue d = Some x ->
        (x ∉ issues)
        /\ PuertsExceptionDetector.getState d = EIssueDetectorState.Activated
        /\ (forall (content' : string) (before after : list string)
                   (line : string) (v : uuid),
              Js.split_lines content' = before ++ line :: after ->
              Forall (fun l => marks l = false) before ->
              marks line = true ->
              exists this'' rest v',
                scanLogContent this' content' v
                = (this'', Some (Normal (Issue.addLogLine x line :: rest)), v'))
        /\ (forall (content' : string) (v : uuid),
              Forall (fun l => marks l = false) (Js.split_lines content') ->
              scanLogContent this' content' v = (this', Some (Normal []), v)))
  /\ (forall (m : nat) (content : string) (before after : list string)
             (start : string) (u : uuid),
        Js.split_lines content = before ++ start :: after ->
        Forall (fun line => marks line = false) before ->
        marks start = true ->
        Forall (fun line => marks line = false) after ->
        scanLogContent (registry None m) content u
        = (registry (Some (opened start u)) m, Some (Normal []), S u)).
Proof.
  split.
  - intros this this' u u' content issues Hreach Hscan k d x Hk Hd Hx.
    destruct (reachable_carried this u Hreach) as (cur & m & -> & Hc).
    unfold scanLogContent in Hscan. rewrite scanLines_replay in Hscan.
    destruct (replay cur (Js.split_lines content) u) as [[em c] u1] eqn:Hr.
    injection Hscan as <- <- <-.
    destruct c as [z|]; [|discriminate]. simpl in Hk, Hd.
    injection Hk as <-. simpl in Hd. injection Hd as <-. simpl in Hx.
    injection Hx as <-.
    destruct (replay_opened _ _ _ _ _ _ Hr Hc) as (Hem & Hcar & _).
    destruct (Hcar z eq_refl) as (l & k & -> & _ & _).
    split.
    { intros Hin. rewrite Forall_forall in Hem.
      destruct (Hem _ Hin) as (l0 & l0' & k0 & E & _).
      exact (opened_not_emitted l l0 l0' k k0 E). }
    split; [reflexivity|]. split.
    { intros content' before after line v Hs Hb Hl.
      exact (scan_bound_marked _ m content' before after line v Hs Hb Hl). }
    intros content' v Hall. exact (scan_unmarked _ m content' v Hall).
  - intros m content before after start u Hsplit Hbefore Hstart Hafter.
    unfold scanLogContent. rewrite Hsplit, scanLines_replay, replay_app.
    rewrite (replay_unmarked None before u Hbefore). simpl. rewrite Hstart.
    rewrite (replay_unmarked _ after (S u) Hafter). reflexivity.
Qed.

Lemma in_progress_issue_is_kept_witness :
  (Js.split_lines " Puerts: Error:(0x0x300b08e68)err
    at foo" = [] ++ " Puerts: Error:(0x0x300b08e68)err" :: ["    at foo"]
   /\ marks " Puerts: Error:(0x0x300b08e68)err" = true
   /\ marks "    at foo" = false
   /\ scanLogContent (registry None 0) " Puerts: Error:(0x0x300b08e68)err
    at foo" 0%nat
      = (registry (Some (opened " Puerts: Error:(0x0x300b08e68)err" 0%nat)) 0,
         Some (Normal []), 1%nat))
  /\ (reachable (registry None 0) 0%nat
      /\ opened " Puerts: Error:(0x0x300b08e68)second" 1%nat
         ∉ [Issue.addLogLine (opened " Puerts: Error:(0x0x300b08e68)first" 0%nat)
              " Puerts: Error:(0x0x300b08e68)second"]).
Proof.
  split.
  - split; [reflexivity|]. split; [reflexivity|]. split; [reflexivity|].
    apply (proj2 in_progress_issue_is_kept 0%nat _ [] ["    at foo"]).
    + reflexivity.
    + constructor.
    + reflexivity.
    + repeat constructor.
  - split; [exact (reachable_new 0%nat 0%nat)|].
    refine (proj1 (proj1 in_progress_issue_is_kept (registry None 0)
                    (registry (Some (opened " Puerts: Error:(0x0x300b08e68)second" 1%nat)) 0)
                    0%nat 2%nat
                    " Puerts: Error:(0x0x300b08e68)first
 Puerts: Error:(0x0x300b08e68)second"
                    [Issue.addLogLine (opened " Puerts: Error:(0x0x300b08e68)first" 0%nat)
                       " Puerts: Error:(0x0x300b08e68)second"]
                    (reachable_new 0%nat 0%nat) _
                    0%nat _ _ eq_refl eq_refl eq_refl)).
    reflexivity.
Defined.

(** X1 (no false positives).  A content in which no line is recognised by
    the detector gives no issue and leaves the scanner and the identifier
    supply as they were, also when a detector is bound at the start. *)
Theorem no_marked_line_no_issue (this : t PuertsExceptionDetector.t) (u : uuid)
  (content : string) :
  reachable this u ->
  Forall (fun line => marks line = false) (Js.split_lines content) ->
  scanLogContent this content u = (this, Some (Normal []), u).
Proof.
  intros Hreach Hall.
  destruct (reachable_registry this u Hreach) as (cur & m & -> & _).
  unfold scanLogContent. rewrite scanLines_replay, (replay_unmarked cur _ u Hall).
  reflexivity.
Qed.

Lemma no_marked_line_no_issue_witness :
  reachable (LogScanner.new tt) 0%nat
  /\ Forall (fun line => marks line = false) (Js.split_lines "boot
Puerts: Error: at column 0
done")
  /\ scanLogContent (LogScanner.new tt) "boot
Puerts: Error: at column 0
done" 0%nat = (LogScanner.new tt, Some (Normal []), 0%nat).
Proof.
  assert (Forall (fun line => marks line = false) (Js.split_lines "boot
Puerts: Error: at column 0
done")) as Hall.
  { change (Js.split_lines _) with ["boot"; "Puerts: Error: at column 0"; "done"].
    repeat (constructor; [reflexivity|]). constructor. }
  split; [exact (reachable_new 0%nat 0%nat)|]. split; [exact Hall|].
  exact (no_marked_line_no_issue (LogScanner.new tt) 0%nat _
           (reachable_new 0%nat 0%nat) Hall).
Defined.

(** X2 (the output in closed form).  With [ms] the recognised lines of the
    content, in order, a scanner without bound detector emits one issue
    for each recognised line but the last: the issue number [k] is the
    one opened by [ms[k]], with the identifier drawn [k]-th, and closed by
    [ms[k+1]].  A recognised line draws one identifier. *)
Theorem scan_closed_form (m : nat) (content : string) (u : uuid) :
  let ms := List.filter marks (Js.split_lines content) in
  exists this' issues,
    scanLogContent (registry None m) content u
    = (this', Some (Normal issues), (u + length ms)%nat)
    /\ length issues = pred (length ms)
    /\ forall (k : nat) (a b : string),
        ms !! k = Some a -> ms !! S k = Some b ->
        issues !! k = Some (Issue.addLogLine (opened a (u + k)%nat) b).
Proof.
  intros ms. unfold scanLogContent.
  rewrite scanLines_replay, replay_filter. fold ms.
  rewrite (replay_idle_closed ms u (filter_marks_Forall _)).
  eexists _, _. split; [reflexivity|]. split; [apply emitted_of_length|].
  intros k a b. apply emitted_of_lookup.
Qed.

(** X3 (the last block stays open).  A scan emits as many issues as the
    content has recognised lines when a detector is bound at the start,
    and one fewer when none is: the block opened by the last recognised
    line is left open, so a content with a single recognised line gives
    no issue on a new scanner.  After a content with a recognised line
    the first detector is bound. *)
Theorem last_block_stays_open (this this' : t PuertsExceptionDetector.t)
  (u u' : uuid) (content : string) (r : option (completion (list Issue.t))) :
  reachable this u ->
  scanLogContent this content u = (this', r, u') ->
  let ms := List.filter marks (Js.split_lines content) in
  exists issues,
    r = Some (Normal issues)
    /\ length issues
       = match activatedIssueDetector this with
         | Some _ => length ms
         | None => pred (length ms)
         end
    /\ (ms <> [] -> activatedIssueDetector this' = Some 0%nat)
    /\ (ms = [] -> this' = this)
    /\ u' = (u + length ms)%nat.
Proof.
  intros Hreach Hscan ms.
  destruct (reachable_registry this u Hreach) as (cur & m & -> & _).
  unfold scanLogContent in Hscan.
  rewrite scanLines_replay, replay_filter in Hscan. fold ms in Hscan.
  pose proof (filter_marks_Forall (Js.split_lines content)) as Hall. fold ms in Hall.
  destruct cur as [x|].
  - rewrite (replay_bound_closed ms x u Hall) in Hscan.
    injection Hscan as <- <- <-.
    eexists. split; [reflexivity|]. split; [|split; [|split]].
    + simpl. destruct ms as [|b ms']; [reflexivity|].
      cbn [length]. rewrite emitted_of_length. reflexivity.
    + intros Hne. destruct ms as [|b ms']; [congruence|].
      destruct (in_progress_is_Some (b :: ms') u Hne) as [y ->]. reflexivity.
    + intros ->. reflexivity.
    + reflexivity.
  - rewrite (replay_idle_closed ms u Hall) in Hscan.
    injection Hscan as <- <- <-.
    eexists. split; [reflexivity|]. split; [|split; [|split]].
    + apply emitted_of_length.
    + intros Hne. destruct (in_progress_is_Some ms u Hne) as [y ->]. reflexivity.
    + intros ->. reflexivity.
    + reflexivity.
Qed.

Lemma last_block_stays_open_witness :
  reachable (LogScanner.new tt) 0%nat
  /\ scanLogContent (LogScanner.new tt) "boot
 Puerts: Error:(0x0x300b08e68)the only error
done" 0%nat
     = (registry (Some (opened " Puerts: Error:(0x0x300b08e68)the only error" 0%nat)) 0,
        Some (Normal []), 1%nat)
  /\ exists issues : list Issue.t,
      Some (Normal []) = Some (Normal issues) /\ length issues = 0%nat.
Proof.
  assert (scanLogContent (LogScanner.new tt) "boot
 Puerts: Error:(0x0x300b08e68)the only error
done" 0%nat
          = (registry (Some (opened " Puerts: Error:(0x0x300b08e68)the only error" 0%nat)) 0,
             Some (Normal []), 1%nat)) as Hscan by (vm_compute; reflexivity).
  split; [exact (reachable_new 0%nat 0%nat)|]. split; [exact Hscan|].
  destruct (last_block_stays_open (LogScanner.new tt) _ 0%nat 1%nat _
              (Some (Normal [])) (reachable_new 0%nat 0%nat) Hscan)
    as (issues & E & Hlen & _).
  exists issues. split; [exact E|exact Hlen].
Defined.

(** X4 (scanning in pieces).  The scanner carries its state from one call
    to the next, so scanning a content and then another one with the same
    scanner emits, in all, the issues of one scan of the two contents
    joined by a line feed, and ends in the same state. *)
Theorem scan_in_pieces (this : t PuertsExceptionDetector.t) (u : uuid)
  (c1 c2 : string) :
  reachable this u ->
  exists s1 i1 u1 s2 i2 u2,
    scanLogContent this c1 u = (s1, Some (Normal i1), u1)
    /\ scanLogContent s1 c2 u1 = (s2, Some (Normal i2), u2)
    /\ scanLogContent this (c1 +:+ String Js.LF c2) u
       = (s2, Some (Normal (i1 ++ i2)), u2).
Proof.
  intros Hreach.
  destruct (reachable_registry this u Hreach) as (cur & m & -> & _).
  destruct (replay cur (Js.split_lines c1) u) as [[e1 k1] v1] eqn:H1.
  destruct (replay k1 (Js.split_lines c2) v1) as [[e2 k2] v2] eqn:H2.
  exists (registry k1 m), e1, v1, (registry k2 m), e2, v2.
  unfold scanLogContent.
  rewrite split_lines_app, !scanLines_replay, replay_app, H1, H2.
  repeat split; reflexivity.
Qed.

Lemma scan_in_pieces_witness :
  reachable (LogScanner.new tt) 0%nat
  /\ exists s1 i1 u1 s2 i2 u2,
      scanLogContent (LogScanner.new tt) " Puerts: Error:(0x0x300b08e68)in a" 0%nat
      = (s1, Some (Normal i1), u1)
      /\ scanLogContent s1 " Puerts: Error:(0x0x300b08e68)in b" u1
         = (s2, Some (Normal i2), u2)
      /\ scanLogContent (LogScanner.new tt)
           (" Puerts: Error:(0x0x300b08e68)in a"
            +:+ String Js.LF " Puerts: Error:(0x0x300b08e68)in b") 0%nat
         = (s2, Some (Normal (i1 ++ i2)), u2).
Proof.
  split; [exact (reachable_new 0%nat 0%nat)|].
  exact (scan_in_pieces (LogScanner.new tt) 0%nat _ _ (reachable_new 0%nat 0%nat)).
Defined.

(** X5 (identifiers).  An identifier of the model is the number of the
    call of [uuidv4] that made it.  The issues a scan returns, and the
    issue it leaves in progress, were made by pairwise different calls:
    so, whatever identifiers [uuidv4] hands out, as long as it never hands
    out the same one twice, no two issues a scan returns share an
    identifier, and none shares it with the issue left in progress. *)
Theorem emitted_ids_distinct {Id : Type} (uuid_of : uuid -> Id)
  (this this' : t PuertsExceptionDetector.t)
  (u u' : uuid) (content : string) (issues : list Issue.t) :
  (forall a b, uuid_of a = uuid_of b -> a = b) ->
  reachable this u ->
  scanLogContent this content u = (this', Some (Normal issues), u') ->
  NoDup (map (fun y => uuid_of (Issue.id y)) issues)
  /\ (forall k d x,
        activatedIssueDetector this' = Some k ->
        issueDetectors this' !! k = Some d ->
        PuertsExceptionDetector.issue d = Some x ->
        Forall (fun y => uuid_of (Issue.id y) <> uuid_of (Issue.id x)) issues).
Proof.
  intros Hinj Hreach Hscan.
  destruct (reachable_registry this u Hreach) as (cur & m & -> & Hid).
  unfold scanLogContent in Hscan. rewrite scanLines_replay in Hscan.
  destruct (replay cur (Js.split_lines content) u) as [[em c] u1] eqn:Hr.
  injection Hscan as <- <- <-.
  destruct (replay_sorted _ _ _ _ _ _ Hr Hid) as [Hsorted _].
  apply StronglySorted_lt_NoDup in Hsorted.
  split.
  - clear -Hinj Hsorted. induction em as [|y em IH]; [constructor|].
    simpl in *. apply NoDup_cons in Hsorted. destruct Hsorted as [Hnotin Hnd].
    constructor; [|exact (IH Hnd)].
    intros Hin. apply list_elem_of_fmap in Hin. destruct Hin as (z & E & Hz).
    apply Hnotin. apply list_elem_of_fmap. exists z. split; [|exact Hz].
    exact (Hinj _ _ E).
  - intros k d x Hk Hd Hx.
    destruct c as [z|]; [|discriminate]. simpl in Hk, Hd.
    injection Hk as <-. simpl in Hd. injection Hd as <-. simpl in Hx.
    injection Hx as <-.
    destruct (replay_ids _ _ _ _ _ _ Hr Hid) as (_ & _ & Hz).
    destruct (Hz z eq_refl) as (_ & Hlt & _).
    eapply Forall_impl; [exact Hlt|]. simpl. intros y Hy E.
    apply Hinj in E. lia.
Qed.

Lemma emitted_ids_distinct_witness :
  reachable (LogScanner.new tt) 0%nat
  /\ NoDup (map (fun y => Issue.id y)
              [Issue.addLogLine (opened " Puerts: Error:(0x0x300b08e68)first" 0%nat)
                 " Puerts: Error:(0x0x300b08e68)second"]).
Proof.
  assert (scanLogContent (LogScanner.new tt) " Puerts: Error:(0x0x300b08e68)first
 Puerts: Error:(0x0x300b08e68)second" 0%nat
          = (registry (Some (opened " Puerts: Error:(0x0x300b08e68)second" 1%nat)) 0,
             Some (Normal
                     [Issue.addLogLine
                        (opened " Puerts: Error:(0x0x300b08e68)first" 0%nat)
                        " Puerts: Error:(0x0x300b08e68)second"]), 2%nat)) as Hscan
      by (vm_compute; reflexivity).
  split; [exact (reachable_new 0%nat 0%nat)|].
  exact (proj1 (emitted_ids_distinct (fun n : uuid => n) (LogScanner.new tt) _
                  0%nat 2%nat _ _ (fun a b E => E)
                  (reachable_new 0%nat 0%nat) Hscan)).
Defined.

(** ** What an emitted issue holds *)

Lemma opened_stackTrace (l : string) (k : uuid) :
  (Js.indexOf l PUERTS_STACK_KEYWORD < 0 /\ Issue.stackTrace (opened l k) = [])
  \/ exists before entry,
      l = before +:+ entry
      /\ Js.indexOf l PUERTS_STACK_KEYWORD = Z.of_nat (String.length before)
      /\ Js.startsWith PUERTS_STACK_KEYWORD entry = true
      /\ (forall n, (n < String.length before)%nat ->
                    Js.startsWith PUERTS_STACK_KEYWORD (Js.drop n l) = false)
      /\ Issue.stackTrace (opened l k) = [entry].
Proof.
  unfold opened.
  destruct (Z.leb_spec 0 (Js.indexOf l PUERTS_STACK_KEYWORD)) as [Hge|Hlt].
  - right.
    destruct (indexOf_first l PUERTS_STACK_KEYWORD Hge)
      as (before & entry & Hl & Hidx & Hentry & Hat & Hfirst).
    exists before, entry.
    split; [exact Hl|]. split; [exact Hidx|]. split; [exact Hat|].
    split; [exact Hfirst|]. simpl. rewrite <- Hentry. reflexivity.
  - left. split; [exact Hlt|reflexivity].
Qed.

(** X6 (what the engine reports).  Every issue a scan emits was opened by
    a recognised line [l] and closed by the next recognised line [l']:
    its raw logs are these two lines, its message is the text of [l] that
    follows the keyword and the fifteen characters after it, its type is
    Error and its severity medium, its context and source are empty.  The
    engine reports no Exception and no Crash. *)
Theorem emitted_issue_fields (this this' : t PuertsExceptionDetector.t)
  (u u' : uuid) (content : string) (issues : list Issue.t) :
  reachable this u ->
  scanLogContent this content u = (this', Some (Normal issues), u') ->
  Forall (fun y => exists l l',
              marks l = true /\ marks l' = true
              /\ Issue.rawLogs y = [l; l']
              /\ Issue.message y
                 = PuertsExceptionDetector.getMessageFromFirstLogLine l
              /\ Issue.type y = EIssueType.Error
              /\ Issue.severity y = "medium"
              /\ Issue.context y = []
              /\ Issue.source y = EmptyString) issues.
Proof.
  intros Hreach Hscan.
  destruct (reachable_carried this u Hreach) as (cur & m & -> & Hc).
  unfold scanLogContent in Hscan. rewrite scanLines_replay in Hscan.
  destruct (replay cur (Js.split_lines content) u) as [[em c] u1] eqn:Hr.
  injection Hscan as _ <- _.
  destruct (replay_opened _ _ _ _ _ _ Hr Hc) as (Hem & _ & _).
  eapply Forall_impl; [exact Hem|]. simpl.
  intros y (l & l' & k & -> & Hl & Hl' & _).
  exists l, l'. split; [exact Hl|]. split; [exact Hl'|].
  unfold opened. destruct (0 <=? Js.indexOf l PUERTS_STACK_KEYWORD);
    repeat split; reflexivity.
Qed.

Lemma emitted_issue_fields_witness :
  reachable (LogScanner.new tt) 0%nat
  /\ Forall (fun y => exists l l',
                marks l = true /\ marks l' = true
                /\ Issue.rawLogs y = [l; l']
                /\ Issue.message y
                   = PuertsExceptionDetector.getMessageFromFirstLogLine l
                /\ Issue.type y = EIssueType.Error
                /\ Issue.severity y = "medium"
                /\ Issue.context y = []
                /\ Issue.source y = EmptyString)
       [Issue.addLogLine (opened " Puerts: Error:(0x0x300b08e68)first" 0%nat)
          " Puerts: Error:(0x0x300b08e68)second"].
Proof.
  assert (scanLogContent (LogScanner.new tt) " Puerts: Error:(0x0x300b08e68)first
 Puerts: Error:(0x0x300b08e68)second" 0%nat
          = (registry (Some (opened " Puerts: Error:(0x0x300b08e68)second" 1%nat)) 0,
             Some (Normal
                     [Issue.addLogLine
                        (opened " Puerts: Error:(0x0x300b08e68)first" 0%nat)
                        " Puerts: Error:(0x0x300b08e68)second"]), 2%nat)) as Hscan
      by (vm_compute; reflexivity).
  split; [exact (reachable_new 0%nat 0%nat)|].
  exact (emitted_issue_fields (LogScanner.new tt) _ 0%nat 2%nat _ _
           (reachable_new 0%nat 0%nat) Hscan).
Defined.

(** X7 (the stack trace of an emitted issue).  The stack trace of an
    emitted issue has no entry when its opening line does not contain the
    stack marker, and otherwise exactly one: the opening line cut at the
    first occurrence of the marker, that is, the text [entry] with
    [line = before + entry] where [entry] begins with the marker and no
    occurrence of the marker begins inside [before].  On a line with two
    markers the entry runs from the first one and holds the second. *)
Theorem emitted_stackTrace (this this' : t PuertsExceptionDetector.t)
  (u u' : uuid) (content : string) (issues : list Issue.t) :
  reachable this u ->
  scanLogContent this content u = (this', Some (Normal issues), u') ->
  Forall (fun y => exists l,
              head (Issue.rawLogs y) = Some l
              /\ ((Js.indexOf l PUERTS_STACK_KEYWORD < 0
                   /\ Issue.stackTrace y = [])
                  \/ exists before entry,
                      l = before +:+ entry
                      /\ Js.indexOf l PUERTS_STACK_KEYWORD
                         = Z.of_nat (String.length before)
                      /\ Js.startsWith PUERTS_STACK_KEYWORD entry = true
                      /\ (forall n, (n < String.length before)%nat ->
                                    Js.startsWith PUERTS_STACK_KEYWORD
                                      (Js.drop n l) = false)
                      /\ Issue.stackTrace y = [entry])) issues.
Proof.
  intros Hreach Hscan.
  destruct (reachable_carried this u Hreach) as (cur & m & -> & Hc).
  unfold scanLogContent in Hscan. rewrite scanLines_replay in Hscan.
  destruct (replay cur (Js.split_lines content) u) as [[em c] u1] eqn:Hr.
  injection Hscan as _ <- _.
  destruct (replay_opened _ _ _ _ _ _ Hr Hc) as (Hem & _ & _).
  eapply Forall_impl; [exact Hem|]. simpl.
  intros y (l & l' & k & -> & _).
  exists l. split; [simpl; rewrite opened_rawLogs; reflexivity|].
  exact (opened_stackTrace l k).
Qed.

Lemma emitted_stackTrace_witness :
  reachable (LogScanner.new tt) 0%nat
  /\ scanLogContent (LogScanner.new tt) " Puerts: Error:(0x0x300b08e68)boom    at f (a.js:1:2)    at g (b.js:3:4)
 Puerts: Error:(0x0x300b08e68)second" 0%nat
     = (registry (Some (opened " Puerts: Error:(0x0x300b08e68)second" 1%nat)) 0,
        Some (Normal
                [Issue.addLogLine
                   (opened " Puerts: Error:(0x0x300b08e68)boom    at f (a.js:1:2)    at g (b.js:3:4)" 0%nat)
                   " Puerts: Error:(0x0x300b08e68)second"]), 2%nat)
  /\ Issue.stackTrace
       (opened " Puerts: Error:(0x0x300b08e68)boom    at f (a.js:1:2)    at g (b.js:3:4)" 0%nat)
     = ["    at f (a.js:1:2)    at g (b.js:3:4)"]
  /\ Forall (fun y => exists l,
              head (Issue.rawLogs y) = Some l
              /\ ((Js.indexOf l PUERTS_STACK_KEYWORD < 0
                   /\ Issue.stackTrace y = [])
                  \/ exists before entry,
                      l = before +:+ entry
                      /\ Js.indexOf l PUERTS_STACK_KEYWORD
                         = Z.of_nat (String.length before)
                      /\ Js.startsWith PUERTS_STACK_KEYWORD entry = true
                      /\ (forall n, (n < String.length before)%nat ->
                                    Js.startsWith PUERTS_STACK_KEYWORD
                                      (Js.drop n l) = false)
                      /\ Issue.stackTrace y = [entry]))
       [Issue.addLogLine
          (opened " Puerts: Error:(0x0x300b08e68)boom    at f (a.js:1:2)    at g (b.js:3:4)" 0%nat)
          " Puerts: Error:(0x0x300b08e68)second"].
Proof.
  assert (scanLogContent (LogScanner.new tt) " Puerts: Error:(0x0x300b08e68)boom    at f (a.js:1:2)    at g (b.js:3:4)
 Puerts: Error:(0x0x300b08e68)second" 0%nat
          = (registry (Some (opened " Puerts: Error:(0x0x300b08e68)second" 1%nat)) 0,
             Some (Normal
                     [Issue.addLogLine
                        (opened " Puerts: Error:(0x0x300b08e68)boom    at f (a.js:1:2)    at g (b.js:3:4)" 0%nat)
                        " Puerts: Error:(0x0x300b08e68)second"]), 2%nat)) as Hscan
      by (vm_compute; reflexivity).
  split; [exact (reachable_new 0%nat 0%nat)|]. split; [exact Hscan|].
  split; [vm_compute; reflexivity|].
  exact (emitted_stackTrace (LogScanner.new tt) _ 0%nat 2%nat _ _
           (reachable_new 0%nat 0%nat) Hscan).
Defined.

(** ** The message of an issue *)

Lemma drop_add (n k : nat) (s : string) :
  Js.drop (n + k) s = Js.drop k (Js.drop n s).
Proof.
  revert s. induction n as [|n IH]; intros s; simpl; [reflexivity|].
  destruct s as [|c s]; [destruct k; reflexivity|apply IH].
Qed.

(** Code units of a text made of whole characters. *)

Lemma wholeFrom_split (inside : nat) :
  forall a : string,
    wholeFrom inside a = true ->
    exists a1 a2,
      a = a1 +:+ a2 /\ String.length a1 = inside /\ whole a2 = true
      /\ Js.unitsFrom inside a = Js.length16 a2.
Proof.
  induction inside as [|inside IH]; intros a Ha.
  - exists EmptyString, a. repeat split; auto.
  - destruct a as [|c a]; [discriminate|]. simpl in Ha.
    destruct (IH a Ha) as (a1 & a2 & -> & Hlen & Hw & Hu).
    exists (String c a1), a2. simpl. repeat split; auto.
Qed.

Lemma codeUnits_cases (c : Ascii.ascii) :
  Js.codeUnits c = 1%nat \/ Js.codeUnits c = 2%nat.
Proof. unfold Js.codeUnits. destruct (_ <? 240)%nat; auto. Qed.

Lemma skip_whole (fuel : nat) :
  forall a : string,
    (String.length a <= fuel)%nat ->
    whole a = true ->
    forall (n : nat) (b : string),
      Js.skip (Js.length16 a + n) (a +:+ b) = Js.skip n b.
Proof.
  induction fuel as [|fuel IH]; intros a Hlen Ha n b.
  - destruct a; [reflexivity|simpl in Hlen; lia].
  - destruct a as [|c a]; [reflexivity|].
    unfold whole in Ha. simpl in Ha.
    destruct (wholeFrom_split _ a Ha) as (a1 & a2 & -> & Hl1 & Hw & Hu).
    change (String c (a1 +:+ a2) +:+ b) with (String c ((a1 +:+ a2) +:+ b)).
    unfold Js.length16. cbn [Js.unitsFrom]. rewrite Hu.
    assert (Js.drop (Js.following c) ((a1 +:+ a2) +:+ b) = a2 +:+ b) as Hdrop.
    { rewrite append_assoc, <- Hl1. apply drop_app_length. }
    assert (String.length a2 <= fuel)%nat as Hlen2.
    { simpl in Hlen. rewrite length_append in Hlen. lia. }
    destruct (codeUnits_cases c) as [Hc|Hc]; rewrite Hc;
      cbn [Nat.add Js.skip]; rewrite Hc, Hdrop; exact (IH a2 Hlen2 Hw n b).
Qed.

Lemma skip_past_end (fuel : nat) :
  forall a : string,
    (String.length a <= fuel)%nat ->
    whole a = true ->
    forall n : nat, (Js.length16 a <= n)%nat -> Js.skip n a = EmptyString.
Proof.
  induction fuel as [|fuel IH]; intros a Hlen Ha n Hn.
  - destruct a; [destruct n; reflexivity|simpl in Hlen; lia].
  - destruct a as [|c a]; [destruct n; reflexivity|].
    unfold whole in Ha. simpl in Ha.
    destruct (wholeFrom_split _ a Ha) as (a1 & a2 & -> & Hl1 & Hw & Hu).
    unfold Js.length16 in Hn. cbn [Js.unitsFrom] in Hn. rewrite Hu in Hn.
    assert (Js.drop (Js.following c) (a1 +:+ a2) = a2) as Hdrop.
    { rewrite <- Hl1. apply drop_app_length. }
    assert (String.length a2 <= fuel)%nat as Hlen2.
    { simpl in Hlen. rewrite length_append in Hlen. lia. }
    destruct (codeUnits_cases c) as [Hc|Hc]; rewrite Hc in Hn.
    + destruct n as [|n]; [lia|]. cbn [Js.skip]. rewrite Hc, Hdrop.
      apply (IH a2 Hlen2 Hw). lia.
    + destruct n as [|[|n]]; [lia|lia|]. cbn [Js.skip]. rewrite Hc, Hdrop.
      apply (IH a2 Hlen2 Hw). lia.
Qed.

(** X8 (the message).  When the first occurrence of the keyword in a line
    is followed by fifteen UTF-16 code units that are whole characters,
    ASCII or not (the fifteenth is not the first half of a surrogate
    pair), the message of the issue is the rest of the line after them;
    it is empty when the line ends with the fifteenth code unit or before
    it. *)
Theorem message_after_pointer (before pointer text : string) :
  whole before = true ->
  whole pointer = true ->
  Js.indexOf (before +:+ PUERTS_ERROR_KEYWORD +:+ pointer +:+ text)
    PUERTS_ERROR_KEYWORD = Z.of_nat (String.length before) ->
  (Js.length16 pointer = Js.length16 PUERTS_DEMO_PTR ->
   PuertsExceptionDetector.getMessageFromFirstLogLine
     (before +:+ PUERTS_ERROR_KEYWORD +:+ pointer +:+ text) = text)
  /\ ((Js.length16 pointer <= Js.length16 PUERTS_DEMO_PTR)%nat ->
      text = EmptyString ->
      PuertsExceptionDetector.getMessageFromFirstLogLine
        (before +:+ PUERTS_ERROR_KEYWORD +:+ pointer +:+ text) = EmptyString).
Proof.
  intros Hbefore Hpointer Hidx.
  unfold PuertsExceptionDetector.getMessageFromFirstLogLine, Js.indexOf16.
  rewrite Hidx.
  destruct (Z.ltb_spec (Z.of_nat (String.length before)) 0) as [Hneg|_]; [lia|].
  rewrite Nat2Z.id, take_app_length. unfold Js.substring16.
  replace (Z.to_nat (Z.of_nat (Js.length16 before)
                     + Z.of_nat (Js.length16 PUERTS_ERROR_KEYWORD)
                     + Z.of_nat (Js.length16 PUERTS_DEMO_PTR)))
    with (Js.length16 before
          + (Js.length16 PUERTS_ERROR_KEYWORD + Js.length16 PUERTS_DEMO_PTR))%nat
    by lia.
  rewrite (skip_whole _ before (le_n _) Hbefore).
  rewrite (skip_whole _ PUERTS_ERROR_KEYWORD (le_n _) eq_refl).
  split.
  - intros <-.
    rewrite <- (Nat.add_0_r (Js.length16 pointer)).
    rewrite (skip_whole _ pointer (le_n _) Hpointer). reflexivity.
  - intros Hshort ->. rewrite append_nil_r.
    exact (skip_past_end _ pointer (le_n _) Hpointer _ Hshort).
Qed.

Lemma message_after_pointer_witness :
  whole "[JS] é " = true
  /\ whole "(0x0x300b08e6é)" = true
  /\ Js.length16 "(0x0x300b08e6é)" = Js.length16 PUERTS_DEMO_PTR
  /\ PuertsExceptionDetector.getMessageFromFirstLogLine
       ("[JS] é " +:+ PUERTS_ERROR_KEYWORD +:+ "(0x0x300b08e6é)" +:+ "msg")
     = "msg".
Proof.
  assert (Js.indexOf ("[JS] é " +:+ PUERTS_ERROR_KEYWORD +:+ "(0x0x300b08e6é)"
                       +:+ "msg") PUERTS_ERROR_KEYWORD
          = Z.of_nat (String.length "[JS] é ")) as Hidx by (vm_compute; reflexivity).
  split; [reflexivity|]. split; [reflexivity|]. split; [reflexivity|].
  exact (proj1 (message_after_pointer "[JS] é " "(0x0x300b08e6é)" "msg"
                  eq_refl eq_refl Hidx) eq_refl).
Defined.

(** ** The states of a detector *)

Lemma driven_owns (d : PuertsExceptionDetector.t) :
  driven d ->
  (PuertsExceptionDetector.state d = EIssueDetectorState.None
   /\ PuertsExceptionDetector.issue d = None)
  \/ (PuertsExceptionDetector.state d = EIssueDetectorState.Activated
      /\ exists x, PuertsExceptionDetector.issue d = Some x).
Proof.
  induction 1 as [|d line u _ IH|d _ IH].
  - left. split; reflexivity.
  - destruct d as [o st]. simpl in IH.
    destruct IH as [[-> ->]|[-> [x ->]]];
      unfold PuertsExceptionDetector.receiveLine,
        PuertsExceptionDetector.isLogIndicateFinished, bind, ret; simpl;
      destruct (0 <? Js.indexOf line PUERTS_ERROR_KEYWORD); simpl.
    + right. split; [reflexivity|]. eexists. reflexivity.
    + left. split; reflexivity.
    + right. split; [reflexivity|]. eexists. reflexivity.
    + right. split; [reflexivity|]. eexists. reflexivity.
  - destruct d as [o st]. simpl in IH.
    destruct IH as [[-> ->]|[-> [x ->]]]; simpl.
    + left. split; reflexivity.
    + left. split; reflexivity.
Qed.

(** X9 (the states of a detector).  Whatever calls of [receiveLine] and
    [pickIssue] a detector has received since it was constructed, its
    state is None or Activated and never Finished (Finished is returned
    by [receiveLine] but not stored), it owns an issue exactly when its
    state is Activated, and [pickIssue] returns an issue exactly then. *)
Theorem driven_detector_states (d : PuertsExceptionDetector.t) :
  driven d ->
  PuertsExceptionDetector.getState d <> EIssueDetectorState.Finished
  /\ (PuertsExceptionDetector.getState d = EIssueDetectorState.Activated
      <-> exists x, PuertsExceptionDetector.issue d = Some x)
  /\ (PuertsExceptionDetector.getState d = EIssueDetectorState.Activated
      <-> exists x, PuertsExceptionDetector.pickIssue d
                    = (PuertsExceptionDetector.new, Normal x))
  /\ (PuertsExceptionDetector.getState d = EIssueDetectorState.None
      <-> PuertsExceptionDetector.pickIssue d = (d, Throw "issue not exist")).
Proof.
  intros Hd. unfold PuertsExceptionDetector.getState, PuertsExceptionDetector.pickIssue.
  destruct (driven_owns d Hd) as [[Hs Hi]|[Hs [x Hi]]]; rewrite Hs, Hi.
  - split; [discriminate|]. split; [|split].
    + split; [discriminate|intros [x [=]]].
    + split; [discriminate|intros [x [=]]].
    + split; reflexivity.
  - split; [discriminate|]. split; [|split].
    + split; [intros _; exists x; reflexivity|reflexivity].
    + split; [intros _; exists x; reflexivity|reflexivity].
    + split; discriminate.
Qed.

Lemma driven_detector_states_witness :
  driven (fst (fst (PuertsExceptionDetector.receiveLine PuertsExceptionDetector.new
                      " Puerts: Error:(0x0x300b08e68)first" 0%nat)))
  /\ PuertsExceptionDetector.getState
       (fst (fst (PuertsExceptionDetector.receiveLine PuertsExceptionDetector.new
                    " Puerts: Error:(0x0x300b08e68)first" 0%nat)))
     <> EIssueDetectorState.Finished.
Proof.
  assert (driven (fst (fst (PuertsExceptionDetector.receiveLine
                              PuertsExceptionDetector.new
                              " Puerts: Error:(0x0x300b08e68)first" 0%nat)))) as Hd
      by exact (driven_receiveLine _ _ _ driven_new).
  split; [exact Hd|].
  exact (proj1 (driven_detector_states _ Hd)).
Defined.

End Engine_more.

(** * Scanning files, for any detectors *)

Section Files_more.

Import LogScanner.

Context {D : Type} `{IIssueDetector D}.

Variable normalize : string -> string.
Variable join : string -> string -> string.
Variable pathExists : string -> bool.
Variable readFile : string -> completion string.
Variable readdir : string -> completion (list string).

Lemma scanLogFile_stamps (this this' : t D) (filePath : string) (u u' : uuid) r :
  scanLogFile normalize pathExists readFile this filePath u = (this', r, u') ->
  exists issues,
    r = Some issues
    /\ Forall (fun y => Issue.source y = normalize filePath) issues.
Proof.
  unfold scanLogFile, bind, ret.
  destruct (negb (pathExists (normalize filePath))).
  - intros [= _ <- _]. exists []. split; [reflexivity|constructor].
  - destruct (readFile (normalize filePath)) as [content|e].
    + pose proof (scanLines_fuel this (Js.split_lines content) u) as Hfuel.
      unfold scanLogContent.
      destruct (scanLines this (Js.split_lines content) u) as [[s1 r1] u1].
      simpl in Hfuel. destruct r1 as [[issues|e]|]; [| |congruence].
      * intros [= _ <- _]. eexists. split; [reflexivity|].
        apply Forall_map. apply Forall_forall. intros y _. reflexivity.
      * intros [= _ <- _]. exists []. split; [reflexivity|constructor].
    + intros [= _ <- _]. exists []. split; [reflexivity|constructor].
Qed.

Lemma scanLogFiles_stamps (dirPath : string) (logFiles : list string) :
  forall (this this' : t D) (allIssues : list Issue.t) (u u' : uuid) r
         (P : Issue.t -> Prop),
    scanLogFiles normalize join pathExists readFile this dirPath logFiles allIssues u
    = (this', r, u') ->
    Forall P allIssues ->
    (forall file y, file ∈ logFiles ->
                    Issue.source y = normalize (join dirPath file) -> P y) ->
    exists issues, r = Some issues /\ Forall P issues.
Proof.
  induction logFiles as [|file logFiles IH];
    intros this this' allIssues u u' r P; simpl.
  - intros [= _ <- _] Hall _. exists allIssues. split; [reflexivity|exact Hall].
  - unfold bind.
    destruct (scanLogFile normalize pathExists readFile this (join dirPath file) u)
      as [[s1 r1] u1] eqn:Hfile.
    destruct (scanLogFile_stamps _ _ _ _ _ _ Hfile) as (issues & -> & Hst).
    intros Hrest Hall HP.
    apply (IH _ _ _ _ _ _ P Hrest).
    + apply Forall_app. split; [exact Hall|].
      eapply Forall_impl; [exact Hst|]. simpl. intros y Hy.
      apply (HP file y); [left|exact Hy].
    + intros f y Hf Hy. apply (HP f y); [right; exact Hf|exact Hy].
Qed.

(** X10 (scanning a directory).  Whatever the detectors and whatever the
    file system does, [scanLogDirectory] returns a list of issues, and
    every issue of the list carries as source the normalised path of a
    file of the directory whose name ends with [.log]. *)
Theorem scanLogDirectory_stamps (this : t D) (dirPath : string) (u : uuid) :
  exists this' issues u',
    scanLogDirectory normalize join pathExists readFile readdir this dirPath u
    = (this', Some issues, u')
    /\ Forall (fun y => exists files file,
                  readdir dirPath = Normal files
                  /\ file ∈ files
                  /\ Js.endsWith file ".log" = true
                  /\ Issue.source y = normalize (join dirPath file)) issues.
Proof.
  unfold scanLogDirectory.
  destruct (readdir dirPath) as [files|e] eqn:Hdir.
  - destruct (scanLogFiles normalize join pathExists readFile this dirPath
                (List.filter (fun file => Js.endsWith file ".log") files) [] u)
      as [[s1 r1] u1] eqn:Hscan.
    destruct (scanLogFiles_stamps _ _ _ _ _ _ _ _
                (fun y => exists files0 file,
                     Normal files = Normal files0
                     /\ file ∈ files0
                     /\ Js.endsWith file ".log" = true
                     /\ Issue.source y = normalize (join dirPath file))
                Hscan) as (issues & -> & Hall).
    + constructor.
    + intros file y Hin Hsrc. exists files, file.
      apply list_elem_of_In, filter_In in Hin. destruct Hin as [Hin Hlog].
      apply list_elem_of_In in Hin. auto.
    + exists s1, issues, u1. split; [reflexivity|exact Hall].
  - exists this, [], u. split; [reflexivity|constructor].
Qed.

End Files_more.

(** * The command line *)

Section Cli.

Import Index.

Lemma valueOption_cases (name : string) :
  takesValue name = true ->
  name = "--logFile" \/ name = "--logDir" \/ name = "--logContent"
  \/ name = "--config".
Proof.
  unfold takesValue, valueOption.
  destruct (String.eqb_spec name "--logFile"); [auto|].
  destruct (String.eqb_spec name "--logDir"); [auto|].
  destruct (String.eqb_spec name "--logContent"); [auto|].
  destruct (String.eqb_spec name "--config"); [auto|].
  discriminate.
Qed.

(** The options after the tokens [toks], starting from [o]. *)
Lemma parseArgsFrom_render (toks : list token) :
  forall o : options,
    forallb wellFormed toks = true ->
    exists o',
      (forall tail, parseArgsFrom o (render toks ++ tail) = parseArgsFrom o' tail)
      /\ logFile o' = from_option Some (logFile o) (lastValue "--logFile" toks)
      /\ logDir o' = from_option Some (logDir o) (lastValue "--logDir" toks)
      /\ logContent o' = from_option Some (logContent o) (lastValue "--logContent" toks)
      /\ config o' = from_option Some (config o) (lastValue "--config" toks)
      /\ open o' = open o || hasOpen toks.
Proof.
  induction toks as [|tok toks IH]; intros o Hwf.
  - exists o. simpl. rewrite orb_false_r. repeat split; reflexivity.
  - simpl in Hwf. apply andb_prop in Hwf. destruct Hwf as [Htok Hwf].
    destruct tok as [name value| |arg]; simpl in Htok.
    + unfold takesValue in Htok.
      destruct (valueOption name) as [assign|] eqn:Hopt; [|discriminate].
      destruct (IH (assign o value) Hwf) as (o' & Hrun & HF & HD & HC & HG & HO).
      exists o'. split.
      { intros tail. simpl. rewrite Hopt. apply Hrun. }
      rewrite HF, HD, HC, HG, HO. clear Hrun HF HD HC HG HO IH.
      assert (takesValue name = true) as Hname
          by (unfold takesValue; rewrite Hopt; reflexivity).
      simpl.
      destruct (lastValue "--logFile" toks), (lastValue "--logDir" toks),
        (lastValue "--logContent" toks), (lastValue "--config" toks);
        destruct (valueOption_cases name Hname) as [-> | [-> | [-> | ->]]];
        injection Hopt as <-; repeat split; reflexivity.
    + destruct (IH {| logFile := logFile o; logDir := logDir o;
                      logContent := logContent o; config := config o;
                      open := true |} Hwf) as (o' & Hrun & HF & HD & HC & HG & HO).
      exists o'. split; [intros tail; apply Hrun|].
      rewrite HF, HD, HC, HG, HO. simpl. repeat split; try reflexivity.
      destruct (open o); reflexivity.
    + unfold ignored, takesValue in Htok.
      destruct (valueOption arg) eqn:Hopt; [discriminate|].
      destruct (String.eqb arg "--open") eqn:Hopen; [discriminate|].
      destruct (String.eqb arg "--help") eqn:Hhelp; [discriminate|].
      destruct (IH o Hwf) as (o' & Hrun & HF & HD & HC & HG & HO).
      exists o'. split; [|repeat split; assumption].
      intros tail. simpl. rewrite Hopt, Hopen, Hhelp. apply Hrun.
Qed.

(** X11 (options and their values).  In an argument list made of options
    with a value, [--open] switches and arguments that are no option,
    each option takes the argument after it as its value whatever that
    argument is (also [--help] or another option), the value given last
    wins, [open] is set exactly when a [--open] stands alone, and an
    option that needs a value is ignored when it is the last argument. *)
Theorem parseArgs_values (toks : list token) (dangling : list string) :
  forallb wellFormed toks = true ->
  dangling = [] \/ (exists name, takesValue name = true /\ dangling = [name]) ->
  parseArgs (render toks ++ dangling)
  = Returned {| logFile := lastValue "--logFile" toks;
                logDir := lastValue "--logDir" toks;
                logContent := lastValue "--logContent" toks;
                config := lastValue "--config" toks;
                open := hasOpen toks |}.
Proof.
  intros Hwf Hd. unfold parseArgs.
  destruct (parseArgsFrom_render toks
              {| logFile := None; logDir := None; logContent := None;
                config := None; open := false |} Hwf)
    as (o' & Hrun & HF & HD & HC & HG & HO).
  rewrite Hrun. simpl in HF, HD, HC, HG, HO.
  assert (o' = {| logFile := lastValue "--logFile" toks;
                  logDir := lastValue "--logDir" toks;
                  logContent := lastValue "--logContent" toks;
                  config := lastValue "--config" toks;
                  open := hasOpen toks |}) as ->.
  { destruct o' as [f d c g op]. simpl in *. subst.
    destruct (lastValue "--logFile" toks), (lastValue "--logDir" toks),
      (lastValue "--logContent" toks), (lastValue "--config" toks); reflexivity. }
  destruct Hd as [->|(name & Hname & ->)]; [reflexivity|].
  destruct (valueOption_cases name Hname) as [-> | [-> | [-> | ->]]]; reflexivity.
Qed.

Lemma parseArgs_values_witness :
  forallb wellFormed
    [TOther "app.log"; TValue "--logFile" "--help"; TOpen; TValue "--logFile" "--open"]
  = true
  /\ parseArgs ["app.log"; "--logFile"; "--help"; "--open"; "--logFile"; "--open";
                "--config"]
     = Returned {| logFile := Some "--open"; logDir := None; logContent := None;
                   config := None; open := true |}.
Proof.
  split; [reflexivity|].
  refine (parseArgs_values
            [TOther "app.log"; TValue "--logFile" "--help"; TOpen;
             TValue "--logFile" "--open"] ["--config"] eq_refl _).
  right. exists "--config". split; reflexivity.
Defined.

(** X12 (help).  A [--help] that is not taken as the value of an option
    ends the program with exit code 0, whatever was given before it and
    whatever follows. *)
Theorem parseArgs_help (toks : list token) (tail : list string) :
  forallb wellFormed toks = true ->
  parseArgs (render toks ++ "--help" :: tail) = Exit 0.
Proof.
  intros Hwf. unfold parseArgs.
  destruct (parseArgsFrom_render toks
              {| logFile := None; logDir := None; logContent := None;
                config := None; open := false |} Hwf)
    as (o' & Hrun & _).
  rewrite Hrun. destruct tail; reflexivity.
Qed.

Lemma parseArgs_help_witness :
  forallb wellFormed [TValue "--logFile" "app.log"; TOpen] = true
  /\ parseArgs ["--logFile"; "app.log"; "--open"; "--help"; "--logDir"; "logs"]
     = Exit 0.
Proof.
  split; [reflexivity|].
  exact (parseArgs_help [TValue "--logFile" "app.log"; TOpen] ["--logDir"; "logs"]
           eq_refl).
Defined.

End Cli.

(** * Maps and summaries *)

Section JsMap_facts.

Context {K V : Type} `{EqDecision K}.

Lemma get_set (m : JsMap.t K V) (k k' : K) (v : V) :
  JsMap.get (JsMap.set m k v) k'
  = if decide (k = k') then Some v else JsMap.get m k'.
Proof.
  induction m as [|[k0 v0] m IH]; simpl.
  - destruct (decide (k = k')); reflexivity.
  - destruct (decide (k0 = k)) as [->|Hne]; simpl.
    + destruct (decide (k = k')); reflexivity.
    + destruct (decide (k0 = k')) as [->|Hne'].
      * destruct (decide (k = k')); [congruence|reflexivity].
      * exact IH.
Qed.

Lemma keys_set (m : JsMap.t K V) (k : K) (v : V) :
  JsMap.keys (JsMap.set m k v)
  = if JsMap.has m k then JsMap.keys m else JsMap.keys m ++ [k].
Proof.
  unfold JsMap.has. induction m as [|[k0 v0] m IH]; simpl; [reflexivity|].
  destruct (decide (k0 = k)) as [->|Hne]; simpl; [reflexivity|].
  rewrite IH. destruct (JsMap.get m k); reflexivity.
Qed.

Lemma get_None_keys (m : JsMap.t K V) (k : K) :
  JsMap.get m k = None <-> k ∉ JsMap.keys m.
Proof.
  induction m as [|[k0 v0] m IH]; simpl.
  - split; [intros _ Hin; inversion Hin|reflexivity].
  - destruct (decide (k0 = k)) as [->|Hne].
    + split; [discriminate|]. intros Hnot. exfalso. apply Hnot. left.
    + rewrite IH. split.
      * intros Hnot Hin. apply elem_of_cons in Hin. destruct Hin; [congruence|auto].
      * intros Hnot Hin. apply Hnot. right. exact Hin.
Qed.

Lemma NoDup_keys_set (m : JsMap.t K V) (k : K) (v : V) :
  NoDup (JsMap.keys m) -> NoDup (JsMap.keys (JsMap.set m k v)).
Proof.
  intros Hnd. rewrite keys_set. unfold JsMap.has.
  destruct (JsMap.get m k) eqn:Hget; [exact Hnd|].
  apply NoDup_app. split; [exact Hnd|]. split.
  - intros x Hx Hin. apply list_elem_of_singleton in Hin. subst x.
    apply get_None_keys in Hget. contradiction.
  - apply NoDup_singleton.
Qed.

End JsMap_facts.

Section Summary.

Import LogScanner.

Lemma get_bump (m : JsMap.t string nat) (k k' : string) :
  JsMap.get (bump m k) k'
  = if decide (k = k') then Some (default 0%nat (JsMap.get m k) + 1)%nat
    else JsMap.get m k'.
Proof. apply get_set. Qed.

Lemma total_bump (m : JsMap.t string nat) (k : string) :
  total (JsMap.values (bump m k)) = S (total (JsMap.values m)).
Proof.
  unfold bump. induction m as [|[k0 v0] m IH]; simpl; [reflexivity|].
  destruct (decide (k0 = k)) as [->|Hne]; simpl.
  - lia.
  - unfold total in *. simpl. rewrite IH. lia.
Qed.

Lemma get_fold_bump {A : Type} (key : A -> string) (l : list A) :
  forall (m : JsMap.t string nat) (k : string),
    JsMap.get (fold_left (fun m a => bump m (key a)) l m) k
    = if (countKey key k l =? 0)%nat then JsMap.get m k
      else Some (default 0%nat (JsMap.get m k) + countKey key k l)%nat.
Proof.
  induction l as [|a l IH]; intros m k; [reflexivity|].
  simpl fold_left. rewrite IH, get_bump. unfold countKey. simpl.
  destruct (decide (key a = k)) as [->|Hne].
  - rewrite String.eqb_refl. simpl.
    destruct (length (List.filter (fun a0 => String.eqb (key a0) k) l)) as [|n];
      simpl; f_equal; lia.
  - apply String.eqb_neq in Hne. rewrite Hne. reflexivity.
Qed.

Lemma total_fold_bump {A : Type} (key : A -> string) (l : list A) :
  forall m : JsMap.t string nat,
    total (JsMap.values (fold_left (fun m a => bump m (key a)) l m))
    = (total (JsMap.values m) + length l)%nat.
Proof.
  induction l as [|a l IH]; intros m; simpl; [lia|].
  rewrite IH, total_bump. lia.
Qed.

Lemma NoDup_fold_bump {A : Type} (key : A -> string) (l : list A) :
  forall m : JsMap.t string nat,
    NoDup (JsMap.keys m) ->
    NoDup (JsMap.keys (fold_left (fun m a => bump m (key a)) l m)).
Proof.
  induction l as [|a l IH]; intros m Hnd; simpl; [exact Hnd|].
  apply IH. apply NoDup_keys_set. exact Hnd.
Qed.

Lemma fold_countIssue (issues : list Issue.t) :
  forall s : ReportSummary.t,
    ReportSummary.totalIssues (fold_left ReportSummary.countIssue issues s)
    = ReportSummary.totalIssues s
    /\ ReportSummary.resolvedIssues (fold_left ReportSummary.countIssue issues s)
       = ReportSummary.resolvedIssues s
    /\ ReportSummary.issuesByType (fold_left ReportSummary.countIssue issues s)
       = fold_left (fun m i => bump m (EIssueType_name (Issue.type i))) issues
           (ReportSummary.issuesByType s)
    /\ ReportSummary.issuesBySeverity (fold_left ReportSummary.countIssue issues s)
       = fold_left (fun m i => bump m (Issue.severity i)) issues
           (ReportSummary.issuesBySeverity s).
Proof.
  induction issues as [|i issues IH]; intros s; simpl; [auto|].
  destruct (IH (ReportSummary.countIssue s i)) as (-> & -> & -> & ->).
  repeat split; reflexivity.
Qed.

Lemma addStatistics_fold (this : ReportSummary.t) (issues : list Issue.t)
  (solutions : list Solution.t) :
  ReportSummary.totalIssues (ReportSummary.addStatistics this issues solutions)
  = length issues
  /\ ReportSummary.resolvedIssues (ReportSummary.addStatistics this issues solutions)
     = length solutions
  /\ ReportSummary.issuesByType (ReportSummary.addStatistics this issues solutions)
     = fold_left (fun m i => bump m (EIssueType_name (Issue.type i))) issues
         (ReportSummary.issuesByType this)
  /\ ReportSummary.issuesBySeverity (ReportSummary.addStatistics this issues solutions)
     = fold_left (fun m i => bump m (Issue.severity i)) issues
         (ReportSummary.issuesBySeverity this).
Proof.
  unfold ReportSummary.addStatistics.
  destruct (fold_countIssue issues
              {| ReportSummary.totalIssues := length issues;
                 ReportSummary.resolvedIssues := length solutions;
                 ReportSummary.issuesByType := ReportSummary.issuesByType this;
                 ReportSummary.issuesBySeverity :=
                   ReportSummary.issuesBySeverity this |})
    as (E1 & E2 & E3 & E4).
  rewrite E1, E2, E3, E4. repeat split; reflexivity.
Qed.

(** X13 (the counts of a summary).  The summary of a list of issues made
    from a new [ReportSummary]: [totalIssues] is the number of issues,
    [resolvedIssues] the number of solutions; each map has one entry for
    each type name (severity) that occurs, holding the number of issues of
    that type (severity), and no entry for the others; the counts of each
    map add up to [totalIssues]. *)
Theorem generateSummary_counts (issues : list Issue.t)
  (solutions : list Solution.t) :
  let s := ReportGenerator.generateSummary issues solutions in
  ReportSummary.totalIssues s = length issues
  /\ ReportSummary.resolvedIssues s = length solutions
  /\ (forall k,
        JsMap.get (ReportSummary.issuesByType s) k
        = let n := countKey (fun i => EIssueType_name (Issue.type i)) k issues in
          if (n =? 0)%nat then None else Some n)
  /\ (forall k,
        JsMap.get (ReportSummary.issuesBySeverity s) k
        = let n := countKey Issue.severity k issues in
          if (n =? 0)%nat then None else Some n)
  /\ NoDup (JsMap.keys (ReportSummary.issuesByType s))
  /\ NoDup (JsMap.keys (ReportSummary.issuesBySeverity s))
  /\ total (JsMap.values (ReportSummary.issuesByType s)) = length issues
  /\ total (JsMap.values (ReportSummary.issuesBySeverity s)) = length issues.
Proof.
  intros s. unfold s, ReportGenerator.generateSummary.
  destruct (addStatistics_fold ReportSummary.new issues solutions)
    as (E1 & E2 & E3 & E4).
  rewrite E1, E2, E3, E4. simpl.
  split; [reflexivity|]. split; [reflexivity|].
  split; [intros k; rewrite get_fold_bump; reflexivity|].
  split; [intros k; rewrite get_fold_bump; reflexivity|].
  split; [apply NoDup_fold_bump; constructor|].
  split; [apply NoDup_fold_bump; constructor|].
  split; rewrite total_fold_bump; reflexivity.
Qed.

(** X14 (a summary used twice).  [addStatistics] replaces the two totals
    but goes on counting in the maps it finds: called a second time on
    the same summary, it leaves the totals of the second list of issues
    next to maps that count both lists, so the counts of a map add up to
    the issues of both calls. *)
Theorem addStatistics_accumulates (i1 i2 : list Issue.t)
  (s1 s2 : list Solution.t) :
  let once := ReportSummary.addStatistics ReportSummary.new i1 s1 in
  let twice := ReportSummary.addStatistics once i2 s2 in
  ReportSummary.totalIssues twice = length i2
  /\ ReportSummary.resolvedIssues twice = length s2
  /\ ReportSummary.issuesByType twice
     = ReportSummary.issuesByType
         (ReportSummary.addStatistics ReportSummary.new (i1 ++ i2) s2)
  /\ ReportSummary.issuesBySeverity twice
     = ReportSummary.issuesBySeverity
         (ReportSummary.addStatistics ReportSummary.new (i1 ++ i2) s2)
  /\ total (JsMap.values (ReportSummary.issuesByType twice))
     = (length i1 + length i2)%nat.
Proof.
  intros once twice. unfold twice.
  destruct (addStatistics_fold once i2 s2) as (E1 & E2 & E3 & E4).
  destruct (addStatistics_fold ReportSummary.new (i1 ++ i2) s2) as (_ & _ & F3 & F4).
  rewrite E1, E2, E3, E4, F3, F4. unfold once.
  destruct (addStatistics_fold ReportSummary.new i1 s1) as (_ & _ & G3 & G4).
  rewrite G3, G4, !fold_left_app.
  split; [reflexivity|]. split; [reflexivity|].
  split; [reflexivity|]. split; [reflexivity|].
  rewrite !total_fold_bump. reflexivity.
Qed.

(** X15 (the summary of a scan).  The issues a scan emits are all of type
    Error and severity medium, so their summary has, when there is an
    issue at all, the single type entry [Error] and the single severity
    entry [medium], each with the number of issues. *)
Theorem summary_of_scan (this this' : t PuertsExceptionDetector.t)
  (u u' : uuid) (content : string) (issues : list Issue.t)
  (solutions : list Solution.t) :
  reachable this u ->
  scanLogContent this content u = (this', Some (Normal issues), u') ->
  issues <> [] ->
  let s := ReportGenerator.generateSummary issues solutions in
  ReportSummary.issuesByType s = [("Error", length issues)]
  /\ ReportSummary.issuesBySeverity s = [("medium", length issues)].
Proof.
  intros Hreach Hscan Hne s.
  destruct (reachable_carried this u Hreach) as (cur & m & -> & Hc).
  unfold scanLogContent in Hscan. rewrite scanLines_replay in Hscan.
  destruct (replay cur (Js.split_lines content) u) as [[em c] u1] eqn:Hr.
  injection Hscan as _ <- _.
  destruct (replay_opened _ _ _ _ _ _ Hr Hc) as (Hem & _ & _).
  assert (Forall (fun y => Issue.type y = EIssueType.Error
                           /\ Issue.severity y = "medium") em) as Hfields.
  { eapply Forall_impl; [exact Hem|]. simpl.
    intros y (l & l' & k & -> & _). unfold opened.
    destruct (0 <=? Js.indexOf l PUERTS_STACK_KEYWORD); split; reflexivity. }
  clear -Hfields Hne. unfold s, ReportGenerator.generateSummary.
  destruct (addStatistics_fold ReportSummary.new em solutions) as (_ & _ & E3 & E4).
  rewrite E3, E4. simpl.
  assert (forall (key : Issue.t -> string) (k : string) (l : list Issue.t) (n : nat),
             Forall (fun y => key y = k) l ->
             fold_left (fun m i => bump m (key i)) l [(k, S n)]
             = [(k, (S n + length l)%nat)]) as Hfold.
  { intros key k l. induction l as [|y l IH]; intros n Hall; simpl.
    - rewrite Nat.add_0_r. reflexivity.
    - inversion Hall as [|? ? Hy Hl]; subst. unfold bump at 2. simpl.
      destruct (decide (key y = key y)); [|congruence]. simpl.
      replace (n + 1)%nat with (S n) by lia.
      rewrite (IH (S n) Hl). repeat f_equal. lia. }
  destruct em as [|y em]; [congruence|].
  inversion Hfields as [|? ? [Hty Hsev] Hrest]; subst. simpl.
  unfold bump at 2 4. simpl. rewrite Hty, Hsev. simpl. split.
  - rewrite (Hfold (fun i => EIssueType_name (Issue.type i)) "Error" em 0%nat).
    + reflexivity.
    + eapply Forall_impl; [exact Hrest|]. simpl. intros z [-> _]. reflexivity.
  - rewrite (Hfold Issue.severity "medium" em 0%nat).
    + reflexivity.
    + eapply Forall_impl; [exact Hrest|]. simpl. intros z [_ ->]. reflexivity.
Qed.

Lemma summary_of_scan_witness :
  reachable (LogScanner.new tt) 0%nat
  /\ ReportSummary.issuesByType
       (ReportGenerator.generateSummary
          [Issue.addLogLine (opened " Puerts: Error:(0x0x300b08e68)first" 0%nat)
             " Puerts: Error:(0x0x300b08e68)second"] [])
     = [("Error", 1%nat)].
Proof.
  assert (scanLogContent (LogScanner.new tt) " Puerts: Error:(0x0x300b08e68)first
 Puerts: Error:(0x0x300b08e68)second" 0%nat
          = (registry (Some (opened " Puerts: Error:(0x0x300b08e68)second" 1%nat)) 0,
             Some (Normal
                     [Issue.addLogLine
                        (opened " Puerts: Error:(0x0x300b08e68)first" 0%nat)
                        " Puerts: Error:(0x0x300b08e68)second"]), 2%nat)) as Hscan
      by (vm_compute; reflexivity).
  split; [exact (reachable_new 0%nat 0%nat)|].
  refine (proj1 (summary_of_scan (LogScanner.new tt) _ 0%nat 2%nat _ _ []
                   (reachable_new 0%nat 0%nat) Hscan _)).
  discriminate.
Defined.

End Summary.

(** * The resolver and the report *)

Section Resolver_facts.

Import LogScanner.

Context {SourceInfo : Type}.
Variable findRelevantCode : Issue.t -> completion (option (list SourceInfo)).
Variable generateSolution :
  Issue.t -> option (list SourceInfo) -> completion string.
Variable parseSolution : string -> completion LLMClient.LLMResponse.

(** [resolveIssue] either answers from the map, which it leaves alone, or
    files a solution with the identifier of the issue under a key that was
    not in the map. *)
Lemma resolveIssue_cases (this : ProblemResolver.t) (issue : Issue.t) :
  let '(this', s) := ProblemResolver.resolveIssue
      findRelevantCode generateSolution parseSolution this issue in
  (JsMap.get (ProblemResolver.solutions this) (Issue.id issue) = Some s
   /\ this' = this)
  \/ (JsMap.get (ProblemResolver.solutions this) (Issue.id issue) = None
      /\ Solution.issueId s = Issue.id issue
      /\ ProblemResolver.solutions this'
         = JsMap.set (ProblemResolver.solutions this) (Issue.id issue) s).
Proof.
  unfold ProblemResolver.resolveIssue, ProblemResolver.fallback.
  destruct (JsMap.get (ProblemResolver.solutions this) (Issue.id issue)) as [s0|];
    [left; split; reflexivity|].
  destruct (findRelevantCode issue) as [sourceCode|e];
    [|right; repeat split; reflexivity].
  destruct (generateSolution issue sourceCode) as [text|e];
    [|right; repeat split; reflexivity].
  destruct (parseSolution text) as [parsed|e]; right; repeat split; reflexivity.
Qed.

Lemma resolveIssue_get (this this' : ProblemResolver.t) (issue : Issue.t)
  (s : Solution.t) :
  ProblemResolver.resolveIssue
      findRelevantCode generateSolution parseSolution this issue = (this', s) ->
  JsMap.get (ProblemResolver.solutions this') (Issue.id issue) = Some s
  /\ (forall k s0, JsMap.get (ProblemResolver.solutions this) k = Some s0 ->
                   JsMap.get (ProblemResolver.solutions this') k = Some s0).
Proof.
  intros E. pose proof (resolveIssue_cases this issue) as H. rewrite E in H.
  destruct H as [[Hget ->]|(Hnone & _ & Hset)].
  - split; [exact Hget|auto].
  - rewrite Hset. split.
    + rewrite get_set. destruct (decide (Issue.id issue = Issue.id issue)); congruence.
    + intros k s0 Hk. rewrite get_set.
      destruct (decide (Issue.id issue = k)) as [<-|]; [congruence|exact Hk].
Qed.

Lemma resolveIssue_filed (this this' : ProblemResolver.t) (issue : Issue.t)
  (s : Solution.t) :
  filed this -> ProblemResolver.resolveIssue
      findRelevantCode generateSolution parseSolution this issue = (this', s) ->
  filed this' /\ Solution.issueId s = Issue.id issue.
Proof.
  intros Hf E. pose proof (resolveIssue_cases this issue) as H. rewrite E in H.
  destruct H as [[Hget ->]|(Hnone & Hid & Hset)].
  - split; [exact Hf|]. exact (Hf _ _ Hget).
  - split; [|exact Hid]. intros k s0. rewrite Hset, get_set.
    destruct (decide (Issue.id issue = k)) as [<-|]; [congruence|apply Hf].
Qed.

Lemma batchResolveFrom_acc (issues : list Issue.t) :
  forall this acc,
    ProblemResolver.batchResolveFrom
        findRelevantCode generateSolution parseSolution this acc issues
    = (fst (ProblemResolver.batchResolveFrom
        findRelevantCode generateSolution parseSolution this [] issues),
       acc ++ snd (ProblemResolver.batchResolveFrom
           findRelevantCode generateSolution parseSolution this []
                     issues)).
Proof.
  induction issues as [|issue issues IH]; intros this acc; simpl.
  - rewrite app_nil_r. reflexivity.
  - destruct (ProblemResolver.resolveIssue
      findRelevantCode generateSolution parseSolution this issue) as [this1 s].
    rewrite (IH this1 (acc ++ [s])), (IH this1 [s]). simpl.
    rewrite <- app_assoc. reflexivity.
Qed.

Lemma batchResolveIssues_cons (this : ProblemResolver.t) (issue : Issue.t)
  (issues : list Issue.t) :
  ProblemResolver.batchResolveIssues
      findRelevantCode generateSolution parseSolution this (issue :: issues)
  = let '(this1, s) := ProblemResolver.resolveIssue
      findRelevantCode generateSolution parseSolution this issue in
    let '(this', sols) := ProblemResolver.batchResolveIssues
        findRelevantCode generateSolution parseSolution this1 issues in
    (this', s :: sols).
Proof.
  unfold ProblemResolver.batchResolveIssues. simpl.
  destruct (ProblemResolver.resolveIssue
      findRelevantCode generateSolution parseSolution this issue) as [this1 s].
  rewrite batchResolveFrom_acc.
  destruct (ProblemResolver.batchResolveFrom
      findRelevantCode generateSolution parseSolution this1 [] issues)
    as [this' sols]. reflexivity.
Qed.

Lemma batchResolveIssues_spec (issues : list Issue.t) :
  forall this this' sols,
    filed this ->
    ProblemResolver.batchResolveIssues
        findRelevantCode generateSolution parseSolution this issues = (this', sols) ->
    filed this'
    /\ map Solution.issueId sols = map Issue.id issues
    /\ (forall k s0, JsMap.get (ProblemResolver.solutions this) k = Some s0 ->
                     JsMap.get (ProblemResolver.solutions this') k = Some s0)
    /\ (forall k issue, issues !! k = Some issue ->
          exists s, sols !! k = Some s
                    /\ JsMap.get (ProblemResolver.solutions this') (Issue.id issue)
                       = Some s).
Proof.
  induction issues as [|issue issues IH]; intros this this' sols Hf.
  - intros [= <- <-]. repeat split; auto. intros k issue [=].
  - rewrite batchResolveIssues_cons.
    destruct (ProblemResolver.resolveIssue
        findRelevantCode generateSolution parseSolution this issue) as [this1 s] eqn:E1.
    destruct (ProblemResolver.batchResolveIssues
        findRelevantCode generateSolution parseSolution this1 issues)
      as [this2 sols2] eqn:E2.
    intros [= <- <-].
    destruct (resolveIssue_filed _ _ _ _ Hf E1) as [Hf1 Hid].
    destruct (resolveIssue_get _ _ _ _ E1) as [Hget1 Hkeep1].
    destruct (IH _ _ _ Hf1 E2) as (Hf2 & Hids & Hkeep2 & Hall).
    split; [exact Hf2|]. split; [simpl; congruence|]. split; [auto|].
    intros [|k] issue'.
    + intros [= <-]. exists s. split; [reflexivity|auto].
    + intros Hk. exact (Hall k issue' Hk).
Qed.

Lemma values_set_fresh {K V : Type} `{EqDecision K} (m : JsMap.t K V) (k : K)
  (v : V) :
  JsMap.get m k = None -> JsMap.values (JsMap.set m k v) = JsMap.values m ++ [v].
Proof.
  induction m as [|[k0 v0] m IH]; simpl; [reflexivity|].
  destruct (decide (k0 = k)); [discriminate|]. intros Hget.
  unfold JsMap.values in *. simpl. rewrite (IH Hget). reflexivity.
Qed.

Lemma batchResolveIssues_values (issues : list Issue.t) :
  forall this this' sols,
    NoDup (map Issue.id issues) ->
    (forall issue, issue ∈ issues ->
       JsMap.get (ProblemResolver.solutions this) (Issue.id issue) = None) ->
    ProblemResolver.batchResolveIssues
        findRelevantCode generateSolution parseSolution this issues = (this', sols) ->
    ProblemResolver.getSolutions this' = ProblemResolver.getSolutions this ++ sols.
Proof.
  unfold ProblemResolver.getSolutions.
  induction issues as [|issue issues IH]; intros this this' sols Hnd Hfresh.
  - intros [= <- <-]. rewrite app_nil_r. reflexivity.
  - rewrite batchResolveIssues_cons.
    destruct (ProblemResolver.resolveIssue
        findRelevantCode generateSolution parseSolution this issue) as [this1 s] eqn:E1.
    destruct (ProblemResolver.batchResolveIssues
        findRelevantCode generateSolution parseSolution this1 issues)
      as [this2 sols2] eqn:E2.
    intros [= <- <-].
    pose proof (resolveIssue_cases this issue) as H. rewrite E1 in H.
    assert (JsMap.get (ProblemResolver.solutions this) (Issue.id issue) = None)
      as Hnone by (apply Hfresh; left).
    destruct H as [[Hget _]|(_ & _ & Hset)]; [congruence|].
    simpl in Hnd. apply NoDup_cons in Hnd. destruct Hnd as [Hnotin Hnd].
    rewrite (IH this1 this2 sols2 Hnd).
    + rewrite Hset, (values_set_fresh _ _ _ Hnone), <- app_assoc. reflexivity.
    + intros issue' Hin. rewrite Hset, get_set.
      destruct (decide (Issue.id issue = Issue.id issue')) as [Heq|].
      * exfalso. apply Hnotin. rewrite Heq.
        apply list_elem_of_fmap. exists issue'. split; [reflexivity|exact Hin].
      * apply Hfresh. right. exact Hin.
    + exact E2.
Qed.

Lemma find_own (sols : list Solution.t) :
  forall (ids : list uuid) (k : nat) (s : Solution.t),
    map Solution.issueId sols = ids ->
    NoDup ids ->
    sols !! k = Some s ->
    List.find (fun s' => Nat.eqb (Solution.issueId s') (Solution.issueId s)) sols
    = Some s.
Proof.
  induction sols as [|s0 sols IH]; intros ids k s Hids Hnd Hk; [discriminate|].
  simpl. destruct k as [|k].
  - injection Hk as <-. rewrite Nat.eqb_refl. reflexivity.
  - change (sols !! k = Some s) in Hk. subst ids. simpl in Hnd.
    apply NoDup_cons in Hnd. destruct Hnd as [Hnotin Hnd].
    destruct (Nat.eqb_spec (Solution.issueId s0) (Solution.issueId s)) as [Heq|Hne].
    + exfalso. apply Hnotin. rewrite Heq. apply list_elem_of_fmap.
      exists s. split; [reflexivity|]. eapply list_elem_of_lookup_2. exact Hk.
    + exact (IH _ k s eq_refl Hnd Hk).
Qed.

Lemma issuesWithSolutions_lookup (issues : list Issue.t) (sols : list Solution.t)
  (k : nat) (issue : Issue.t) (s : Solution.t) :
  NoDup (map Issue.id issues) ->
  map Solution.issueId sols = map Issue.id issues ->
  issues !! k = Some issue -> sols !! k = Some s ->
  ReportGenerator.issuesWithSolutions issues sols !! k
  = Some (ReportGenerator.Pair issue (Some s)).
Proof.
  intros Hnd Hids Hi Hs. unfold ReportGenerator.issuesWithSolutions.
  rewrite list_lookup_fmap, Hi. simpl. do 2 f_equal.
  assert (Solution.issueId s = Issue.id issue) as Hid.
  { assert (map Solution.issueId sols !! k = Some (Solution.issueId s)) as H1
      by (rewrite list_lookup_fmap, Hs; reflexivity).
    assert (map Issue.id issues !! k = Some (Issue.id issue)) as H2
      by (rewrite list_lookup_fmap, Hi; reflexivity).
    rewrite Hids in H1. congruence. }
  rewrite <- Hid. exact (find_own sols _ k s Hids Hnd Hs).
Qed.

Lemma scanLogContent_NoDup (this this' : t PuertsExceptionDetector.t)
  (u u' : uuid) (content : string) (issues : list Issue.t) :
  reachable this u ->
  scanLogContent this content u = (this', Some (Normal issues), u') ->
  NoDup (map Issue.id issues).
Proof.
  intros Hreach Hscan.
  destruct (reachable_registry this u Hreach) as (cur & m & -> & Hid).
  unfold scanLogContent in Hscan. rewrite scanLines_replay in Hscan.
  destruct (replay cur (Js.split_lines content) u) as [[em c] u1] eqn:Hr.
  injection Hscan as _ <- <-.
  destruct (replay_sorted _ _ _ _ _ _ Hr Hid) as [Hsorted _].
  apply StronglySorted_lt_NoDup. exact Hsorted.
Qed.

(** X16 (one solution per issue).  Whatever the collaborators do, throwing
    included, [batchResolveIssues] returns one solution per issue, in the
    order of the issues and with the identifier of its issue; every
    solution it returns is the one the map holds for that identifier
    afterwards, and no solution that was in the map before is replaced. *)
Theorem batchResolveIssues_in_order (this this' : ProblemResolver.t)
  (issues : list Issue.t) (sols : list Solution.t) :
  filed this ->
  ProblemResolver.batchResolveIssues findRelevantCode generateSolution
    parseSolution this issues = (this', sols) ->
  map Solution.issueId sols = map Issue.id issues
  /\ filed this'
  /\ (forall k s0, JsMap.get (ProblemResolver.solutions this) k = Some s0 ->
                   JsMap.get (ProblemResolver.solutions this') k = Some s0)
  /\ (forall k issue, issues !! k = Some issue ->
        exists s, sols !! k = Some s
                  /\ JsMap.get (ProblemResolver.solutions this') (Issue.id issue)
                     = Some s).
Proof.
  intros Hf E.
  destruct (batchResolveIssues_spec issues this this' sols Hf E)
    as (Hf' & Hids & Hkeep & Hall).
  repeat split; assumption.
Qed.

(** X17 (what the resolver remembers).  On a resolver that holds no
    solution for any of the issues, and when the issues have pairwise
    distinct identifiers, [getSolutions] returns after [batchResolveIssues]
    the solutions it held before followed by the returned ones, in that
    order. *)
Theorem getSolutions_after_batch (this this' : ProblemResolver.t)
  (issues : list Issue.t) (sols : list Solution.t) :
  NoDup (map Issue.id issues) ->
  (forall issue, issue ∈ issues ->
     JsMap.has (ProblemResolver.solutions this) (Issue.id issue) = false) ->
  ProblemResolver.batchResolveIssues findRelevantCode generateSolution
    parseSolution this issues = (this', sols) ->
  ProblemResolver.getSolutions this' = ProblemResolver.getSolutions this ++ sols.
Proof.
  intros Hnd Hfresh E.
  apply (batchResolveIssues_values issues this this' sols Hnd); [|exact E].
  intros issue Hin. specialize (Hfresh issue Hin). unfold JsMap.has in Hfresh.
  destruct (JsMap.get (ProblemResolver.solutions this) (Issue.id issue));
    [discriminate|reflexivity].
Qed.

(** X18 (from the log to the report).  The issues of a scan, resolved by a
    new resolver, give as many solutions as issues; the resolver then
    holds exactly these solutions, and the report pairs every issue with
    the solution that was made for it. *)
Theorem report_of_scan (this this' : t PuertsExceptionDetector.t)
  (u u' : uuid) (content : string) (issues : list Issue.t)
  (resolver : ProblemResolver.t) (sols : list Solution.t) :
  reachable this u ->
  scanLogContent this content u = (this', Some (Normal issues), u') ->
  ProblemResolver.batchResolveIssues findRelevantCode generateSolution
    parseSolution ProblemResolver.new issues = (resolver, sols) ->
  length sols = length issues
  /\ ProblemResolver.getSolutions resolver = sols
  /\ length (ReportGenerator.issuesWithSolutions issues sols) = length issues
  /\ (forall k issue, issues !! k = Some issue ->
        exists s, sols !! k = Some s
                  /\ Solution.issueId s = Issue.id issue
                  /\ ReportGenerator.issuesWithSolutions issues sols !! k
                     = Some (ReportGenerator.Pair issue (Some s))).
Proof.
  intros Hreach Hscan E.
  pose proof (scanLogContent_NoDup _ _ _ _ _ _ Hreach Hscan) as Hnd.
  assert (filed ProblemResolver.new) as Hf by (intros k s [=]).
  destruct (batchResolveIssues_spec issues _ _ _ Hf E) as (Hf' & Hids & _ & Hall).
  split; [|split; [|split]].
  - rewrite <- (length_map Solution.issueId sols), Hids. apply length_map.
  - change (ProblemResolver.getSolutions resolver
            = ProblemResolver.getSolutions ProblemResolver.new ++ sols).
    apply (batchResolveIssues_values issues _ _ _ Hnd); [|exact E].
    intros issue _. reflexivity.
  - unfold ReportGenerator.issuesWithSolutions. apply length_map.
  - intros k issue Hk. destruct (Hall k issue Hk) as (s & Hs & Hget).
    exists s. split; [exact Hs|]. split; [exact (Hf' _ _ Hget)|].
    exact (issuesWithSolutions_lookup issues sols k issue s Hnd Hids Hk Hs).
Qed.

End Resolver_facts.

Lemma batchResolveIssues_in_order_witness :
  filed ProblemResolver.new
  /\ map Solution.issueId
       [Solution.mk 7%nat "Could not generate a solution due to an error."
          EmptyString (1 # 10)%Q []]
     = map Issue.id [opened " Puerts: Error:(0x0x300b08e68)first" 7%nat].
Proof.
  assert (filed ProblemResolver.new) as Hf by (intros k s [=]).
  split; [exact Hf|].
  exact (proj1 (batchResolveIssues_in_order
                  (SourceInfo := unit)
                  (fun _ => Throw "ENOENT") (fun _ _ => Normal EmptyString)
                  (fun _ => Normal (LLMClient.Response EmptyString EmptyString []))
                  ProblemResolver.new _
                  [opened " Puerts: Error:(0x0x300b08e68)first" 7%nat] _
                  Hf eq_refl)).
Defined.

Lemma getSolutions_after_batch_witness :
  NoDup (map Issue.id [opened " Puerts: Error:(0x0x300b08e68)first" 7%nat])
  /\ ProblemResolver.getSolutions
       (ProblemResolver.mk
          [(7%nat, Solution.mk 7%nat "retry" "x()" (8 # 10)%Q ["doc"])])
     = [Solution.mk 7%nat "retry" "x()" (8 # 10)%Q ["doc"]].
Proof.
  assert (NoDup (map Issue.id [opened " Puerts: Error:(0x0x300b08e68)first" 7%nat]))
    as Hnd by (apply NoDup_singleton).
  split; [exact Hnd|].
  exact (getSolutions_after_batch
           (SourceInfo := unit)
           (fun _ => Normal None) (fun _ _ => Normal "retry")
           (fun text => Normal (LLMClient.Response text "x()" ["doc"]))
           ProblemResolver.new _
           [opened " Puerts: Error:(0x0x300b08e68)first" 7%nat] _
           Hnd (fun _ _ => eq_refl) eq_refl).
Defined.

Lemma report_of_scan_witness :
  reachable (LogScanner.new tt) 0%nat
  /\ ProblemResolver.getSolutions
       (ProblemResolver.mk
          [(0%nat, Solution.mk 0%nat "Could not generate a solution due to an error."
                     EmptyString (1 # 10)%Q [])])
     = [Solution.mk 0%nat "Could not generate a solution due to an error."
          EmptyString (1 # 10)%Q []].
Proof.
  assert (LogScanner.scanLogContent (LogScanner.new tt)
            " Puerts: Error:(0x0x300b08e68)first
 Puerts: Error:(0x0x300b08e68)second" 0%nat
          = (registry (Some (opened " Puerts: Error:(0x0x300b08e68)second" 1%nat)) 0,
             Some (Normal
                     [Issue.addLogLine
                        (opened " Puerts: Error:(0x0x300b08e68)first" 0%nat)
                        " Puerts: Error:(0x0x300b08e68)second"]), 2%nat)) as Hscan
      by (vm_compute; reflexivity).
  split; [exact (reachable_new 0%nat 0%nat)|].
  exact (proj1 (proj2 (report_of_scan
                  (SourceInfo := unit)
                  (fun _ => Normal None) (fun _ _ => Throw "timeout")
                  (fun _ => Normal (LLMClient.Response EmptyString EmptyString []))
                  (LogScanner.new tt) _ 0%nat 2%nat _ _ _ _
                  (reachable_new 0%nat 0%nat) Hscan eq_refl))).
Defined.

Section Resolver_more.

Context {SourceInfo SourceInfo' : Type}.
Variable findRelevantCode : Issue.t -> completion (option (list SourceInfo)).
Variable generateSolution :
  Issue.t -> option (list SourceInfo) -> completion string.
Variable parseSolution : string -> completion LLMClient.LLMResponse.
Variable findRelevantCode' : Issue.t -> completion (option (list SourceInfo')).
Variable generateSolution' :
  Issue.t -> option (list SourceInfo') -> completion string.
Variable parseSolution' : string -> completion LLMClient.LLMResponse.

(** X19 (a solution is made once).  Once [resolveIssue] has answered for
    an issue, it gives the same solution to every issue with that
    identifier, whatever the rest of that issue and whatever the
    collaborators would now answer, and leaves the resolver as it is. *)
Theorem resolveIssue_once (this this1 : ProblemResolver.t)
  (issue issue' : Issue.t) (s : Solution.t) :
  ProblemResolver.resolveIssue findRelevantCode generateSolution parseSolution
    this issue = (this1, s) ->
  Issue.id issue' = Issue.id issue ->
  ProblemResolver.resolveIssue findRelevantCode' generateSolution' parseSolution'
    this1 issue' = (this1, s).
Proof.
  intros E Hid.
  destruct (resolveIssue_get _ _ _ _ _ _ _ E) as [Hget _].
  unfold ProblemResolver.resolveIssue at 1. rewrite Hid, Hget. reflexivity.
Qed.

(** X20 (the pairs of the report).  When the issues have pairwise distinct
    identifiers and the solutions carry, position by position, the
    identifiers of the issues, the report pairs the issue at each position
    with the solution at that position. *)
Theorem issuesWithSolutions_own (issues : list Issue.t) (sols : list Solution.t)
  (k : nat) (issue : Issue.t) (s : Solution.t) :
  NoDup (map Issue.id issues) ->
  map Solution.issueId sols = map Issue.id issues ->
  issues !! k = Some issue -> sols !! k = Some s ->
  ReportGenerator.issuesWithSolutions issues sols !! k
  = Some (ReportGenerator.Pair issue (Some s)).
Proof. apply issuesWithSolutions_lookup. Qed.

End Resolver_more.

Lemma resolveIssue_once_witness :
  ProblemResolver.resolveIssue (SourceInfo := unit)
    (fun _ => Normal None) (fun _ _ => Normal "other")
    (fun text => Normal (LLMClient.Response text EmptyString []))
    (ProblemResolver.mk
       [(7%nat, Solution.mk 7%nat "Could not generate a solution due to an error."
                  EmptyString (1 # 10)%Q [])])
    (Issue.addLogLine (opened " Puerts: Error:(0x0x300b08e68)first" 7%nat) "later")
  = (ProblemResolver.mk
       [(7%nat, Solution.mk 7%nat "Could not generate a solution due to an error."
                  EmptyString (1 # 10)%Q [])],
     Solution.mk 7%nat "Could not generate a solution due to an error."
       EmptyString (1 # 10)%Q []).
Proof.
  exact (resolveIssue_once
           (SourceInfo := unit) (SourceInfo' := unit)
           (fun _ => Throw "ENOENT") (fun _ _ => Normal EmptyString)
           (fun _ => Normal (LLMClient.Response EmptyString EmptyString []))
           (fun _ => Normal None) (fun _ _ => Normal "other")
           (fun text => Normal (LLMClient.Response text EmptyString []))
           ProblemResolver.new _
           (opened " Puerts: Error:(0x0x300b08e68)first" 7%nat)
           (Issue.addLogLine (opened " Puerts: Error:(0x0x300b08e68)first" 7%nat)
              "later")
           _ eq_refl eq_refl).
Defined.

Lemma issuesWithSolutions_own_witness :
  ReportGenerator.issuesWithSolutions
    [opened " Puerts: Error:(0x0x300b08e68)first" 3%nat;
     opened " Puerts: Error:(0x0x300b08e68)second" 5%nat]
    [Solution.mk 3%nat "a" EmptyString (8 # 10)%Q [];
     Solution.mk 5%nat "b" EmptyString (8 # 10)%Q []] !! 1%nat
  = Some (ReportGenerator.Pair
            (opened " Puerts: Error:(0x0x300b08e68)second" 5%nat)
            (Some (Solution.mk 5%nat "b" EmptyString (8 # 10)%Q []))).
Proof.
  refine (issuesWithSolutions_own
            [opened " Puerts: Error:(0x0x300b08e68)first" 3%nat;
             opened " Puerts: Error:(0x0x300b08e68)second" 5%nat]
            [Solution.mk 3%nat "a" EmptyString (8 # 10)%Q [];
             Solution.mk 5%nat "b" EmptyString (8 # 10)%Q []]
            1%nat _ _ _ eq_refl eq_refl eq_refl).
  change (NoDup [3%nat; 5%nat]).
  apply NoDup_cons. split.
  - intros Hin. apply list_elem_of_singleton in Hin. discriminate.
  - apply NoDup_singleton.
Defined.

(** * The source finder *)

Section Keywords.

Import JsText.

Lemma chars_app (a b : string) : chars (a +:+ b) = chars a ++ chars b.
Proof.
  unfold chars. induction a as [|c a IH]; [reflexivity|].
  change (String c a +:+ b) with (String c (a +:+ b)). simpl. rewrite IH.
  reflexivity.
Qed.

Lemma isKeywordChar_class (c : Ascii.ascii) :
  isKeywordChar c = true ->
  isWordChar c = true /\ isSpaceChar c = false /\ toLowerChar c = c
  /\ c <> space.
Proof.
  destruct c as [[] [] [] [] [] [] [] []]; vm_compute; intros H;
    try discriminate H; repeat split; discriminate.
Qed.

Lemma toLowerChar_class (c : Ascii.ascii) :
  isWordChar c = true -> isKeywordChar (toLowerChar c) = true.
Proof.
  destruct c as [[] [] [] [] [] [] [] []]; vm_compute; intros H;
    try discriminate H; reflexivity.
Qed.

Lemma split_Forall (P : Ascii.ascii -> Prop) (sep : Ascii.ascii) (s : string) :
  Forall P (chars s) ->
  Forall (fun w => Forall (fun c => P c /\ c <> sep) (chars w)) (split sep s).
Proof.
  unfold chars. induction s as [|c s IH]; simpl; intros Hall.
  - repeat constructor.
  - inversion Hall as [|? ? Hc Hs]; subst. specialize (IH Hs).
    destruct (Ascii.eqb_spec c sep) as [->|Hne].
    + constructor; [constructor|exact IH].
    + destruct (split sep s) as [|l ls].
      * repeat constructor; assumption.
      * inversion IH as [|? ? Hl Hls]; subst.
        constructor; [|exact Hls]. simpl. constructor; [split; assumption|exact Hl].
Qed.

Lemma split_word (sep : Ascii.ascii) (w : string) :
  Forall (fun c => c <> sep) (chars w) -> split sep w = [w].
Proof.
  unfold chars. induction w as [|c w IH]; simpl; intros Hall; [reflexivity|].
  inversion Hall as [|? ? Hc Hw]; subst.
  destruct (Ascii.eqb_spec c sep) as [->|_]; [congruence|].
  rewrite (IH Hw). reflexivity.
Qed.

Lemma split_word_sep (sep : Ascii.ascii) (w s : string) :
  Forall (fun c => c <> sep) (chars w) ->
  split sep (w +:+ String sep s) = w :: split sep s.
Proof.
  unfold chars. induction w as [|c w IH]; simpl; intros Hall.
  - change (EmptyString +:+ String sep s) with (String sep s). simpl.
    rewrite Ascii.eqb_refl. reflexivity.
  - inversion Hall as [|? ? Hc Hw]; subst.
    change (String c w +:+ String sep s) with (String c (w +:+ String sep s)).
    simpl. destruct (Ascii.eqb_spec c sep) as [->|_]; [congruence|].
    rewrite (IH Hw). reflexivity.
Qed.

Lemma split_join (ws : list string) :
  ws <> [] ->
  Forall (fun w => Forall (fun c => c <> space) (chars w)) ws ->
  split space (join ws) = ws.
Proof.
  induction ws as [|w ws IH]; [congruence|]. intros _ Hall.
  inversion Hall as [|? ? Hw Hws]; subst.
  destruct ws as [|w2 ws].
  - simpl. apply split_word. exact Hw.
  - change (join (w :: w2 :: ws)) with (w +:+ String space (join (w2 :: ws))).
    rewrite (split_word_sep _ _ _ Hw), IH; [reflexivity|discriminate|exact Hws].
Qed.

Lemma replaceEach_id (p : Ascii.ascii -> bool) (s : string) :
  Forall (fun c => p c = false) (chars s) -> replaceEach p s = s.
Proof.
  unfold chars. induction s as [|c s IH]; simpl; intros Hall; [reflexivity|].
  inversion Hall as [|? ? Hc Hs]; subst. rewrite Hc, (IH Hs). reflexivity.
Qed.

Lemma toLowerCase_id (s : string) :
  Forall (fun c => toLowerChar c = c) (chars s) -> toLowerCase s = s.
Proof.
  unfold chars. induction s as [|c s IH]; simpl; intros Hall; [reflexivity|].
  inversion Hall as [|? ? Hc Hs]; subst. rewrite Hc, (IH Hs). reflexivity.
Qed.

Lemma replaceRuns_word (p : Ascii.ascii -> bool) (w s : string) :
  Forall (fun c => p c = false) (chars w) ->
  replaceRuns p false (w +:+ s) = w +:+ replaceRuns p false s.
Proof.
  unfold chars. induction w as [|c w IH]; simpl; intros Hall; [reflexivity|].
  inversion Hall as [|? ? Hc Hw]; subst.
  change (String c w +:+ s) with (String c (w +:+ s)). simpl.
  rewrite Hc, (IH Hw). reflexivity.
Qed.

Lemma replaceRuns_first (p : Ascii.ascii -> bool) (b : bool) (w s : string) :
  w <> EmptyString ->
  Forall (fun c => p c = false) (chars w) ->
  replaceRuns p b (w +:+ s) = w +:+ replaceRuns p false s.
Proof.
  destruct w as [|c w]; [congruence|]. intros _ Hall.
  inversion Hall as [|? ? Hc Hw]; subst.
  change (String c w +:+ s) with (String c (w +:+ s)). simpl.
  rewrite Hc, (replaceRuns_word p w s Hw). reflexivity.
Qed.

Lemma replaceRuns_join (ws : list string) :
  Forall lowerWord ws ->
  forall b, replaceRuns isSpaceChar b (join ws) = join ws.
Proof.
  induction ws as [|w ws IH]; intros Hall b; [reflexivity|].
  inversion Hall as [|? ? [Hne Hw] Hws]; subst.
  assert (Forall (fun c => isSpaceChar c = false) (chars w)) as Hns.
  { eapply Forall_impl; [exact Hw|]. intros c Hc.
    apply (isKeywordChar_class c Hc). }
  destruct ws as [|w2 ws].
  - simpl. rewrite <- (append_nil_r w) at 1.
    rewrite (replaceRuns_first _ b w EmptyString Hne Hns). simpl.
    apply append_nil_r.
  - change (join (w :: w2 :: ws)) with (w +:+ String space (join (w2 :: ws))).
    rewrite (replaceRuns_first _ b w _ Hne Hns).
    change (replaceRuns isSpaceChar false (String space (join (w2 :: ws))))
      with (String space (replaceRuns isSpaceChar true (join (w2 :: ws)))).
    rewrite (IH Hws true). reflexivity.
Qed.

Lemma chars_join (ws : list string) :
  Forall lowerWord ws ->
  Forall (fun c => isKeywordChar c = true \/ c = space) (chars (join ws)).
Proof.
  induction ws as [|w ws IH]; intros Hall; [constructor|].
  inversion Hall as [|? ? [Hne Hw] Hws]; subst.
  assert (Forall (fun c => isKeywordChar c = true \/ c = space) (chars w)) as Hw'.
  { eapply Forall_impl; [exact Hw|]. intros c Hc. left. exact Hc. }
  destruct ws as [|w2 ws]; [exact Hw'|].
  change (join (w :: w2 :: ws)) with (w +:+ String space (join (w2 :: ws))).
  rewrite chars_app. apply Forall_app. split; [exact Hw'|].
  constructor; [right; reflexivity|]. exact (IH Hws).
Qed.

Lemma includes_commonWords (w : string) :
  (3 < String.length w)%nat ->
  includes SourceCodeFinder.commonWords w = String.eqb w "with".
Proof.
  intros Hlen. unfold includes.
  destruct (String.eqb_spec w "with") as [->|Hne]; [reflexivity|].
  apply not_true_is_false. intros Hex. apply existsb_exists in Hex.
  destruct Hex as (x & Hin & Heq). apply String.eqb_eq in Heq. subst x.
  unfold SourceCodeFinder.commonWords in Hin. simpl in Hin.
  repeat (destruct Hin as [<-|Hin]; [simpl in Hlen; try lia; congruence|]).
  exact Hin.
Qed.

Lemma filter_kept (ws : list string) :
  List.filter
    (fun word => (3 <? String.length word)%nat
                 && negb (includes SourceCodeFinder.commonWords word)) ws
  = List.filter kept ws.
Proof.
  induction ws as [|w ws IH]; [reflexivity|]. cbn [List.filter]. rewrite IH.
  unfold kept.
  destruct (Nat.ltb_spec 3 (String.length w)) as [Hlen|_]; [|reflexivity].
  rewrite (includes_commonWords w Hlen). reflexivity.
Qed.

(** The keywords of words of [[a-z0-9_]] put one space apart: the words
    of more than three characters other than [with]. *)
Lemma extractKeywords_join (ws : list string) :
  Forall lowerWord ws ->
  SourceCodeFinder.extractKeywords (join ws) = List.filter kept ws.
Proof.
  intros Hall. unfold SourceCodeFinder.extractKeywords. cbv zeta.
  rewrite filter_kept.
  pose proof (chars_join ws Hall) as Hchars.
  rewrite replaceEach_id.
  2:{ eapply Forall_impl; [exact Hchars|]. intros c [Hc| ->]; [|reflexivity].
      destruct (isKeywordChar_class c Hc) as (-> & _). reflexivity. }
  rewrite (replaceRuns_join ws Hall false).
  rewrite toLowerCase_id.
  2:{ eapply Forall_impl; [exact Hchars|]. intros c [Hc| ->]; [|reflexivity].
      apply (isKeywordChar_class c Hc). }
  destruct ws as [|w ws]; [reflexivity|].
  rewrite split_join; [reflexivity|discriminate|].
  eapply Forall_impl; [exact Hall|]. intros x [_ Hx].
  eapply Forall_impl; [exact Hx|]. intros c Hc. apply (isKeywordChar_class c Hc).
Qed.

Lemma replaceEach_chars (s : string) :
  Forall (fun c => isWordChar c = true \/ isSpaceChar c = true)
    (chars (replaceEach
              (fun c => negb (isWordChar c) && negb (isSpaceChar c)) s)).
Proof.
  unfold chars. induction s as [|c s IH]; simpl; constructor; [|exact IH].
  destruct (isWordChar c) eqn:Hw; simpl; [left; exact Hw|].
  destruct (isSpaceChar c) eqn:Hs; simpl; right; [exact Hs|reflexivity].
Qed.

Lemma replaceRuns_chars (s : string) :
  Forall (fun c => isWordChar c = true \/ isSpaceChar c = true) (chars s) ->
  forall b,
    Forall (fun c => isWordChar c = true \/ c = space)
      (chars (replaceRuns isSpaceChar b s)).
Proof.
  unfold chars. induction s as [|c s IH]; simpl; intros Hall b; [constructor|].
  inversion Hall as [|? ? Hc Hs]; subst.
  destruct (isSpaceChar c) eqn:Hsp.
  - destruct b; [exact (IH Hs true)|].
    simpl. constructor; [right; reflexivity|exact (IH Hs true)].
  - simpl. constructor; [|exact (IH Hs false)].
    destruct Hc as [Hc|Hc]; [left; exact Hc|congruence].
Qed.

Lemma toLowerCase_chars (s : string) :
  Forall (fun c => isWordChar c = true \/ c = space) (chars s) ->
  Forall (fun c => isKeywordChar c = true \/ c = space) (chars (toLowerCase s)).
Proof.
  unfold chars. induction s as [|c s IH]; simpl; intros Hall; [constructor|].
  inversion Hall as [|? ? Hc Hs]; subst. constructor; [|exact (IH Hs)].
  destruct Hc as [Hc| ->]; [left; exact (toLowerChar_class c Hc)|right; reflexivity].
Qed.

Lemma extractKeywords_words (message : string) :
  Forall (fun w => lowerWord w /\ kept w = true)
    (SourceCodeFinder.extractKeywords message).
Proof.
  unfold SourceCodeFinder.extractKeywords. cbv zeta. rewrite filter_kept.
  set (cleaned := toLowerCase _).
  assert (Forall (fun c => isKeywordChar c = true \/ c = space) (chars cleaned))
    as Hchars.
  { apply toLowerCase_chars, replaceRuns_chars, replaceEach_chars. }
  pose proof (split_Forall _ space cleaned Hchars) as Hsplit.
  induction Hsplit as [|w ws Hw _ IH]; simpl; [constructor|].
  destruct (kept w) eqn:Hk; [|exact IH].
  constructor; [|exact IH]. split; [|exact Hk]. split.
  - intros ->. discriminate Hk.
  - eapply Forall_impl; [exact Hw|]. intros c [[Hc| ->] Hne]; [exact Hc|congruence].
Qed.

(** X21 (what a keyword is).  Every keyword [extractKeywords] returns is a
    word of the class [[a-z0-9_]] with more than three characters, is not
    one of the common words, and of these only [with] is long enough to
    be dropped for being common. *)
Theorem extractKeywords_shape (message : string) :
  Forall (fun w => (3 < String.length w)%nat
                   /\ Forall (fun c => isKeywordChar c = true) (chars w)
                   /\ w ∉ SourceCodeFinder.commonWords)
    (SourceCodeFinder.extractKeywords message)
  /\ Forall (fun w => (3 < String.length w)%nat -> w = "with")
       SourceCodeFinder.commonWords.
Proof.
  split.
  - eapply Forall_impl; [apply extractKeywords_words|].
    intros w [[_ Hchars] Hk]. unfold kept in Hk.
    apply andb_true_iff in Hk. destruct Hk as [Hlen Hw].
    apply Nat.ltb_lt in Hlen. split; [exact Hlen|]. split; [exact Hchars|].
    intros Hin. pose proof (includes_commonWords w Hlen) as Hinc.
    assert (includes SourceCodeFinder.commonWords w = true) as Htrue.
    { unfold includes. apply existsb_exists. exists w. split.
      - apply list_elem_of_In. exact Hin.
      - apply String.eqb_refl. }
    rewrite Htrue in Hinc. rewrite <- Hinc in Hw. discriminate Hw.
  - unfold SourceCodeFinder.commonWords.
    repeat (constructor; [simpl; intros Hlen; try lia; reflexivity|]).
    constructor.
Qed.

(** X22 (the keywords of plain words).  Of words of the class
    [[a-z0-9_]] put one space apart, [extractKeywords] returns, in their
    order, those of more than three characters other than [with]. *)
Theorem extractKeywords_of_words (ws : list string) :
  Forall lowerWord ws ->
  SourceCodeFinder.extractKeywords (join ws) = List.filter kept ws.
Proof. exact (extractKeywords_join ws). Qed.

(** X23 (keywords are stable).  The keywords of a message, put one space
    apart, have themselves as keywords. *)
Theorem extractKeywords_idempotent (message : string) :
  SourceCodeFinder.extractKeywords
    (join (SourceCodeFinder.extractKeywords message))
  = SourceCodeFinder.extractKeywords message.
Proof.
  pose proof (extractKeywords_words message) as Hall.
  rewrite extractKeywords_join.
  - induction Hall as [|w ws [_ Hk] _ IH]; [reflexivity|].
    simpl. rewrite Hk, IH. reflexivity.
  - eapply Forall_impl; [exact Hall|]. intros w [Hw _]. exact Hw.
Qed.

End Keywords.

Lemma extractKeywords_of_words_witness :
  Forall lowerWord ["null"; "ref"; "with"; "player_2"]
  /\ SourceCodeFinder.extractKeywords "null ref with player_2"
     = ["null"; "player_2"].
Proof.
  assert (Forall lowerWord ["null"; "ref"; "with"; "player_2"]) as Hall.
  { repeat (constructor;
            [split; [discriminate|repeat (constructor; [reflexivity|]); constructor]|]).
    constructor. }
  split; [exact Hall|].
  exact (extractKeywords_of_words ["null"; "ref"; "with"; "player_2"] Hall).
Defined.

Section Loops.

Context {A R S : Type}.

Lemma forOf_Some (body : A -> option R) (xs : list A) (r : R) :
  forOf body xs = Some r -> exists x, x ∈ xs /\ body x = Some r.
Proof.
  induction xs as [|x xs IH]; simpl; [discriminate|].
  destruct (body x) as [r'|] eqn:Hx.
  - intros [= <-]. exists x. split; [left|exact Hx].
  - intros H. destruct (IH H) as (y & Hin & Hy). exists y. split; [right|]; auto.
Qed.

Lemma forOf_is_Some (body : A -> option R) (xs : list A) (x : A) (r : R) :
  x ∈ xs -> body x = Some r -> exists r', forOf body xs = Some r'.
Proof.
  induction xs as [|y xs IH]; intros Hin Hx; [inversion Hin|]. simpl.
  destruct (body y) as [r'|] eqn:Hy; [eexists; reflexivity|].
  apply elem_of_cons in Hin. destruct Hin as [->|Hin]; [congruence|auto].
Qed.

End Loops.

Lemma Dirent_induction (P : Fs.Dirent -> Prop) :
  (forall name content, P (Fs.File name content)) ->
  (forall name e, P (Fs.Directory name (Throw e))) ->
  (forall name files, Forall P files -> P (Fs.Directory name (Normal files))) ->
  forall file, P file.
Proof.
  intros HFile HThrow HDir. fix IH 1. intros [name content|name [files|e]].
  - apply HFile.
  - apply HDir. induction files as [|f files IHfiles]; constructor.
    + apply IH.
    + exact IHfiles.
  - apply HThrow.
Qed.

Section Finder_facts.

Variable join : string -> string -> string.
Variable extname : string -> string.
Variable basename : string -> string.
Variable isAbsolute : string -> bool.
Variable toLowerCase : string -> string.
Variable stat_isFile : string -> completion bool.
Variable readdir : string -> completion (list Fs.Dirent).

Lemma listed_path (directory : string) (files : list Fs.Dirent) (p name : string)
  (content : completion string) :
  listed join directory files p name content -> exists a b, p = join a b.
Proof.
  induction 1 as [directory files name content _|? ? ? ? ? ? ? _ _ IH].
  - eexists _, _. reflexivity.
  - exact IH.
Qed.

Lemma findFileBody_listed (fileName : string) (file : Fs.Dirent) :
  forall directory files p,
    file ∈ files ->
    SourceCodeFinder.findFileBody join directory fileName file = Some p ->
    exists content, listed join directory files p fileName content.
Proof.
  induction file as [name content|name e|name sub IH] using Dirent_induction;
    intros directory files p Hin; simpl.
  - destruct (String.eqb_spec name fileName) as [->|_]; [|discriminate].
    intros [= <-]. exists content. apply listed_here. exact Hin.
  - discriminate.
  - destruct (forOf _ sub) as [found|] eqn:Hfound; [|discriminate].
    destruct (SourceCodeFinder.truthy found); [|discriminate].
    intros [= <-]. apply forOf_Some in Hfound.
    destruct Hfound as (x & Hx & Hbody).
    rewrite Forall_forall in IH.
    destruct (IH x Hx _ sub found Hx Hbody) as (content & Hl).
    exists content. eapply listed_below; [exact Hin|exact Hl].
Qed.

Lemma findFileBody_finds (fileName : string) :
  (forall a b, join a b <> EmptyString) ->
  forall directory files p content,
    listed join directory files p fileName content ->
    exists q,
      forOf (SourceCodeFinder.findFileBody join directory fileName) files = Some q.
Proof.
  intros Hjoin directory files p content Hl.
  induction Hl as [directory files name content Hin
                  |directory files dname sub p name content Hin Hl IH].
  - eapply (forOf_is_Some _ _ _ _ Hin). simpl.
    rewrite String.eqb_refl. reflexivity.
  - destruct IH as (q & Hq).
    eapply (forOf_is_Some _ _ _ q Hin). simpl. rewrite Hq.
    apply forOf_Some in Hq. destruct Hq as (x & Hx & Hbody).
    destruct (findFileBody_listed _ _ _ _ _ Hx Hbody) as (c & Hlq).
    destruct (listed_path _ _ _ _ _ Hlq) as (a & b & ->).
    unfold SourceCodeFinder.truthy.
    destruct (String.eqb_spec (join a b) EmptyString) as [Heq|_];
      [destruct (Hjoin a b Heq)|reflexivity].
Qed.

(** X24 (finding a file by name).  A path [findFileInDirectory] returns
    is the path of an entry with the name asked for, listed below the
    directory; when [path.join] never gives the empty string, it returns
    a path as soon as there is such an entry; a directory that cannot be
    read gives [null]. *)
Theorem findFileInDirectory_finds (directory fileName : string) :
  (forall p,
      SourceCodeFinder.findFileInDirectory join readdir directory fileName = Some p ->
      exists files content,
        readdir directory = Normal files
        /\ listed join directory files p fileName content)
  /\ ((forall a b, join a b <> EmptyString) ->
      forall files p content,
        readdir directory = Normal files ->
        listed join directory files p fileName content ->
        exists q,
          SourceCodeFinder.findFileInDirectory join readdir directory fileName
          = Some q)
  /\ (forall e,
        readdir directory = Throw e ->
        SourceCodeFinder.findFileInDirectory join readdir directory fileName
        = None).
Proof.
  unfold SourceCodeFinder.findFileInDirectory, SourceCodeFinder.findFileInListing.
  split; [|split].
  - intros p. destruct (readdir directory) as [files|e]; [|discriminate].
    intros Hfound. apply forOf_Some in Hfound. destruct Hfound as (x & Hx & Hbody).
    destruct (findFileBody_listed _ _ _ _ _ Hx Hbody) as (content & Hl).
    exists files, content. split; [reflexivity|exact Hl].
  - intros Hjoin files p content -> Hl.
    exact (findFileBody_finds fileName Hjoin _ _ _ _ Hl).
  - intros e ->. reflexivity.
Qed.

(** X25 (what [findFile] returns).  A path [findFile] returns is the path
    given, when it is absolute and an existing file, or the path given
    joined to a source root, when that is an existing file, or the path
    of an entry listed below a source root with the base name of the path
    given. *)
Theorem findFile_result (this : SourceCodeFinder.t) (filePath p : string) :
  SourceCodeFinder.findFile join basename isAbsolute stat_isFile readdir
    this filePath = Some p ->
  (p = filePath /\ isAbsolute filePath = true
   /\ SourceCodeFinder.fileExists stat_isFile filePath = true)
  \/ exists root,
       root ∈ SourceCodeFinder.sourceRoots this
       /\ ((p = join root filePath
            /\ SourceCodeFinder.fileExists stat_isFile p = true)
           \/ exists files content,
                readdir root = Normal files
                /\ listed join root files p (basename filePath) content).
Proof.
  unfold SourceCodeFinder.findFile.
  destruct (isAbsolute filePath) eqn:Habs; simpl.
  - destruct (SourceCodeFinder.fileExists stat_isFile filePath) eqn:Hex.
    + intros [= <-]. left. auto.
    + intros H. right. apply forOf_Some in H. destruct H as (root & Hroot & H).
      exists root. split; [exact Hroot|].
      destruct (SourceCodeFinder.fileExists stat_isFile (join root filePath)) eqn:Hd.
      * injection H as <-. left. auto.
      * right.
        destruct (SourceCodeFinder.findFileInDirectory join readdir root
                    (basename filePath)) as [found|] eqn:Hf; [|discriminate].
        destruct (SourceCodeFinder.truthy found); [|discriminate].
        injection H as <-.
        unfold SourceCodeFinder.findFileInDirectory,
          SourceCodeFinder.findFileInListing in Hf.
        destruct (readdir root) as [files|e]; [|discriminate].
        apply forOf_Some in Hf. destruct Hf as (x & Hx & Hbody).
        destruct (findFileBody_listed _ _ _ _ _ Hx Hbody) as (content & Hl).
        exists files, content. split; [reflexivity|exact Hl].
  - intros H. right. apply forOf_Some in H. destruct H as (root & Hroot & H).
    exists root. split; [exact Hroot|].
    destruct (SourceCodeFinder.fileExists stat_isFile (join root filePath)) eqn:Hd.
    + injection H as <-. left. auto.
    + right.
      destruct (SourceCodeFinder.findFileInDirectory join readdir root
                  (basename filePath)) as [found|] eqn:Hf; [|discriminate].
      destruct (SourceCodeFinder.truthy found); [|discriminate].
      injection H as <-.
      unfold SourceCodeFinder.findFileInDirectory,
        SourceCodeFinder.findFileInListing in Hf.
      destruct (readdir root) as [files|e]; [|discriminate].
      apply forOf_Some in Hf. destruct Hf as (x & Hx & Hbody).
      destruct (findFileBody_listed _ _ _ _ _ Hx Hbody) as (content & Hl).
      exists files, content. split; [reflexivity|exact Hl].
Qed.

End Finder_facts.

Section Search_facts.

Local Arguments Nat.max : simpl never.

Variable join : string -> string -> string.
Variable extname : string -> string.
Variable toLowerCase : string -> string.
Variable readdir : string -> completion (list Fs.Dirent).
Variable this : SourceCodeFinder.t.
Variable keywords : list string.

Lemma forOfState_extends {A B : Type} (Q : B -> Prop)
  (body : A -> list B -> list B * bool) (xs : list A) :
  (forall x, x ∈ xs -> forall r,
      exists added, fst (body x r) = r ++ added /\ Forall Q added) ->
  forall r,
    exists added, fst (forOfState body xs r) = r ++ added /\ Forall Q added.
Proof.
  induction xs as [|x xs IH]; intros Hbody r; simpl.
  - exists []. rewrite app_nil_r. split; [reflexivity|constructor].
  - destruct (Hbody x (list_elem_of_here _ _) r) as (a1 & E1 & Q1).
    destruct (body x r) as [r1 returned]. simpl in E1. subst r1.
    destruct returned; [exists a1; split; [reflexivity|exact Q1]|].
    destruct (IH (fun y Hy => Hbody y (list_elem_of_further _ _ _ Hy)) (r ++ a1))
      as (a2 & E2 & Q2).
    exists (a1 ++ a2). rewrite E2, app_assoc. split; [reflexivity|].
    apply Forall_app. split; assumption.
Qed.

Lemma hit_below (directory dname : string) (files sub : list Fs.Dirent)
  (info : SourceCodeFinder.SourceInfo) :
  Fs.Directory dname (Normal sub) ∈ files ->
  hit join extname toLowerCase this (join directory dname) sub keywords info ->
  hit join extname toLowerCase this directory files keywords info.
Proof.
  intros Hin (name & content & matched & Hl & H).
  exists name, content, matched. split; [|exact H].
  eapply listed_below; [exact Hin|exact Hl].
Qed.

Lemma searchBody_hits (file : Fs.Dirent) :
  forall directory files results,
    file ∈ files ->
    exists added,
      fst (SourceCodeFinder.searchBody join extname toLowerCase this directory
             keywords file results) = results ++ added
      /\ Forall (hit join extname toLowerCase this directory files keywords) added.
Proof.
  induction file as [name content|name e|name sub IH] using Dirent_induction;
    intros directory files results Hin; simpl.
  - destruct (JsText.includes (SourceCodeFinder.fileExtensions this) (extname name))
      eqn:Hext.
    2:{ exists []. rewrite app_nil_r. split; [reflexivity|constructor]. }
    destruct content as [content|e].
    2:{ exists []. rewrite app_nil_r. split; [reflexivity|constructor]. }
    destruct (List.filter _ keywords) as [|k matched] eqn:Hm; simpl.
    { exists []. rewrite app_nil_r. split; [reflexivity|constructor]. }
    eexists. split.
    + match goal with |- context [if ?c then _ else _] => destruct c end;
        reflexivity.
    + constructor; [|constructor].
      exists name, content, (k :: matched). simpl.
      split; [apply listed_here; exact Hin|]. rewrite Hm.
      repeat split; try reflexivity; [exact Hext|discriminate].
  - exists []. rewrite app_nil_r. split; [reflexivity|constructor].
  - rewrite Forall_forall in IH.
    destruct (forOfState_extends
                (hit join extname toLowerCase this (join directory name) sub keywords)
                (SourceCodeFinder.searchBody join extname toLowerCase this
                   (join directory name) keywords) sub
                (fun x Hx r => IH x Hx (join directory name) sub r Hx) results)
      as (added & E & Hall).
    exists added. split; [exact E|].
    eapply Forall_impl; [exact Hall|]. intros info Hinfo.
    exact (hit_below directory name files sub info Hin Hinfo).
Qed.

Lemma searchListing_hits (directory : string)
  (listing : completion (list Fs.Dirent)) (results : list SourceCodeFinder.SourceInfo) :
  exists added,
    SourceCodeFinder.searchListing join extname toLowerCase this directory listing
      keywords results = results ++ added
    /\ Forall (fun info =>
                 exists files,
                   listing = Normal files
                   /\ hit join extname toLowerCase this directory files keywords info)
         added.
Proof.
  destruct listing as [files|e]; simpl.
  - destruct (forOfState_extends
                (hit join extname toLowerCase this directory files keywords)
                (SourceCodeFinder.searchBody join extname toLowerCase this
                   directory keywords) files
                (fun x Hx r => searchBody_hits x directory files r Hx) results)
      as (added & E & Hall).
    exists added. split; [exact E|].
    eapply Forall_impl; [exact Hall|]. intros info Hinfo.
    exists files. split; [reflexivity|exact Hinfo].
  - exists []. rewrite app_nil_r. split; [reflexivity|constructor].
Qed.

(** X26 (what a search reports).  [searchDirectoryForKeywords] only adds
    to the results it is given, at their end, and every file
    [findFilesByKeywords] reports lies below a source root that could be
    read, has one of the extensions searched for, was read, and is
    reported with its content and with the keywords its content holds, of
    which there is at least one. *)
Theorem findFilesByKeywords_hits :
  (forall directory results,
      exists added,
        SourceCodeFinder.searchDirectoryForKeywords join extname toLowerCase
          readdir this directory keywords results = results ++ added)
  /\ Forall (fun info =>
               exists root files,
                 root ∈ SourceCodeFinder.sourceRoots this
                 /\ readdir root = Normal files
                 /\ hit join extname toLowerCase this root files keywords info)
       (SourceCodeFinder.findFilesByKeywords join extname toLowerCase readdir
          this keywords).
Proof.
  split.
  - intros directory results.
    destruct (searchListing_hits directory (readdir directory) results)
      as (added & E & _).
    exists added. exact E.
  - unfold SourceCodeFinder.findFilesByKeywords.
    assert (forall roots acc,
               (forall root, root ∈ roots ->
                             root ∈ SourceCodeFinder.sourceRoots this) ->
               Forall (fun info =>
                         exists root files,
                           root ∈ SourceCodeFinder.sourceRoots this
                           /\ readdir root = Normal files
                           /\ hit join extname toLowerCase this root files
                                keywords info) acc ->
               Forall (fun info =>
                         exists root files,
                           root ∈ SourceCodeFinder.sourceRoots this
                           /\ readdir root = Normal files
                           /\ hit join extname toLowerCase this root files
                                keywords info)
                 (fold_left
                    (fun results root =>
                       SourceCodeFinder.searchDirectoryForKeywords join extname
                         toLowerCase readdir this root keywords results)
                    roots acc)) as Hfold.
    { induction roots as [|root roots IH]; intros acc Hsub Hacc; [exact Hacc|].
      simpl. apply IH; [intros r Hr; apply Hsub; right; exact Hr|].
      unfold SourceCodeFinder.searchDirectoryForKeywords.
      destruct (searchListing_hits root (readdir root) acc) as (added & -> & Hall).
      apply Forall_app. split; [exact Hacc|].
      eapply Forall_impl; [exact Hall|]. intros info (files & E & Hhit).
      exists root, files. split; [apply Hsub; left|]. split; assumption. }
    apply Hfold; [auto|constructor].
Qed.

Lemma forOfState_bound (directory : string) (xs : list Fs.Dirent) :
  Forall (fun file =>
            forall results,
              (length (fst (SourceCodeFinder.searchBody join extname toLowerCase
                              this directory keywords file results))
               <= 4 `max` length results + Fs.directories file
                  + (if snd (SourceCodeFinder.searchBody join extname toLowerCase
                               this directory keywords file results)
                     then 1 else 0))%nat) xs ->
  forall results,
    (length (fst (forOfState
                    (SourceCodeFinder.searchBody join extname toLowerCase this
                       directory keywords) xs results))
     <= 4 `max` length results + 1 + list_sum (map Fs.directories xs))%nat.
Proof.
  induction 1 as [|x xs Hx _ IH]; intros results; simpl; [lia|].
  specialize (Hx results).
  destruct (SourceCodeFinder.searchBody join extname toLowerCase this directory
              keywords x results) as [r1 returned].
  simpl in Hx. destruct returned; simpl; [lia|].
  specialize (IH r1). lia.
Qed.

Lemma searchBody_bound (file : Fs.Dirent) :
  forall directory results,
    (length (fst (SourceCodeFinder.searchBody join extname toLowerCase this
                    directory keywords file results))
     <= 4 `max` length results + Fs.directories file
        + (if snd (SourceCodeFinder.searchBody join extname toLowerCase this
                     directory keywords file results)
           then 1 else 0))%nat.
Proof.
  induction file as [name content|name e|name sub IH] using Dirent_induction;
    intros directory results.
  - cbn -[Nat.leb Nat.ltb Nat.max].
    destruct (JsText.includes _ _); [|simpl; lia].
    destruct content as [content|e]; [|simpl; lia].
    destruct (0 <? length _)%nat; [|simpl; lia].
    destruct (Nat.leb_spec 5 (length (results ++ [SourceCodeFinder.Info
                (join directory name) None None (Some content)
                (Some (List.filter
                         (fun keyword =>
                            JsText.contains (toLowerCase content)
                              (toLowerCase keyword)) keywords))])))
      as [Hge|Hlt]; simpl; rewrite length_app in *; simpl in *; lia.
  - simpl. lia.
  - change (Fs.directories (Fs.Directory name (Normal sub)))
      with (S (list_sum (map Fs.directories sub))).
    simpl.
    pose proof (forOfState_bound (join directory name) sub) as Hloop.
    assert (Forall (fun file =>
              forall results,
                (length (fst (SourceCodeFinder.searchBody join extname toLowerCase
                                this (join directory name) keywords file results))
                 <= 4 `max` length results + Fs.directories file
                    + (if snd (SourceCodeFinder.searchBody join extname toLowerCase
                                 this (join directory name) keywords file results)
                       then 1 else 0))%nat) sub) as Hall.
    { eapply Forall_impl; [exact IH|]. intros f Hf r. apply Hf. }
    specialize (Hloop Hall results). lia.
Qed.

Lemma searchListing_bound (directory : string)
  (listing : completion (list Fs.Dirent)) (results : list SourceCodeFinder.SourceInfo) :
  (length (SourceCodeFinder.searchListing join extname toLowerCase this directory
             listing keywords results)
   <= 4 `max` length results + Fs.directories (Fs.Directory directory listing))%nat.
Proof.
  destruct listing as [files|e]; simpl; [|lia].
  pose proof (forOfState_bound directory files) as Hloop.
  assert (Forall (fun file =>
            forall results,
              (length (fst (SourceCodeFinder.searchBody join extname toLowerCase
                              this directory keywords file results))
               <= 4 `max` length results + Fs.directories file
                  + (if snd (SourceCodeFinder.searchBody join extname toLowerCase
                               this directory keywords file results)
                     then 1 else 0))%nat) files) as Hall.
  { apply Forall_forall. intros f _ r. apply searchBody_bound. }
  specialize (Hloop Hall results). lia.
Qed.

(** X27 (the limit of five).  The limit of five results ends the search
    of one directory only: [findFilesByKeywords] reports at most four
    files more than the number of directories in the trees below its
    source roots, the roots included, hence at most five for one source
    root without subdirectories. *)
Theorem findFilesByKeywords_limit :
  (length (SourceCodeFinder.findFilesByKeywords join extname toLowerCase readdir
             this keywords)
   <= 4 + list_sum (map (fun root => Fs.directories (Fs.Directory root (readdir root)))
                        (SourceCodeFinder.sourceRoots this)))%nat.
Proof.
  unfold SourceCodeFinder.findFilesByKeywords.
  assert (forall roots acc,
             (length (fold_left
                        (fun results root =>
                           SourceCodeFinder.searchDirectoryForKeywords join extname
                             toLowerCase readdir this root keywords results)
                        roots acc)
              <= 4 `max` length acc
                 + list_sum (map (fun root =>
                                    Fs.directories (Fs.Directory root (readdir root)))
                                 roots))%nat) as Hfold.
  { induction roots as [|root roots IH]; intros acc; [simpl; lia|].
    unfold list_sum in *. cbn [fold_left map fold_right]. specialize (IH
      (SourceCodeFinder.searchDirectoryForKeywords join extname toLowerCase readdir
         this root keywords acc)).
    pose proof (searchListing_bound root (readdir root) acc) as Hb.
    unfold SourceCodeFinder.searchDirectoryForKeywords in *. lia. }
  specialize (Hfold (SourceCodeFinder.sourceRoots this) []). simpl in Hfold.
  exact Hfold.
Qed.

(** X28 (more than five results).  The search does report more than five
    files: five files that match, [n] directories deep, and one more that
    matches after the subdirectory in each directory on the way, are all
    reported, which makes [5 + n] results, four more than the number of
    directories searched. *)
Theorem search_exceeds_limit (name content directory : string) (n : nat) :
  JsText.includes (SourceCodeFinder.fileExtensions this) (extname name) = true ->
  List.filter
    (fun keyword => JsText.contains (toLowerCase content) (toLowerCase keyword))
    keywords <> [] ->
  length (SourceCodeFinder.searchListing join extname toLowerCase this directory
            (Normal (nested (Fs.File name (Normal content)) n)) keywords [])
  = (5 + n)%nat.
Proof.
  intros Hext Hm.
  assert (forall dir results,
             SourceCodeFinder.searchBody join extname toLowerCase this dir keywords
               (Fs.File name (Normal content)) results
             = (results ++ [SourceCodeFinder.Info (join dir name) None None
                              (Some content)
                              (Some (List.filter
                                       (fun keyword =>
                                          JsText.contains (toLowerCase content)
                                            (toLowerCase keyword)) keywords))],
                (5 <=? S (length results))%nat)) as Hbody.
  { intros dir results. simpl. rewrite Hext.
    destruct (List.filter _ keywords) as [|k matched]; [congruence|]. simpl.
    rewrite length_app. simpl. rewrite Nat.add_1_r.
    destruct (length results) as [|[|[|[|m]]]]; reflexivity. }
  revert directory. induction n as [|n IH]; intros directory.
  - unfold SourceCodeFinder.searchListing, nested. cbn [forOfState].
    rewrite Hbody. cbn [length Nat.leb]. rewrite Hbody.
    rewrite length_app. cbn [length Nat.add Nat.leb]. rewrite Hbody.
    rewrite !length_app. cbn [length Nat.add Nat.leb]. rewrite Hbody.
    rewrite !length_app. cbn [length Nat.add Nat.leb]. rewrite Hbody.
    rewrite !length_app. cbn [length Nat.add Nat.leb fst].
    rewrite !length_app. reflexivity.
  - unfold SourceCodeFinder.searchListing. cbn [nested forOfState].
    specialize (IH (join directory "sub")).
    unfold SourceCodeFinder.searchListing in IH.
    change (SourceCodeFinder.searchBody join extname toLowerCase this directory
              keywords
              (Fs.Directory "sub" (Normal (nested (Fs.File name (Normal content)) n)))
              [])
      with (fst (forOfState
                   (SourceCodeFinder.searchBody join extname toLowerCase this
                      (join directory "sub") keywords)
                   (nested (Fs.File name (Normal content)) n) []), false).
    cbv iota beta. rewrite Hbody.
    destruct (5 <=? S (length _))%nat; cbn [fst forOfState];
      rewrite length_app, IH; simpl; lia.
Qed.

End Search_facts.

Lemma findFileInDirectory_finds_witness :
  exists q,
    SourceCodeFinder.findFileInDirectory
      (fun a b => a +:+ "/" +:+ b)
      (fun _ => Normal [Fs.Directory "src" (Normal [Fs.File "a.ts" (Normal "x")])])
      "root" "a.ts" = Some q.
Proof.
  refine (proj1 (proj2 (findFileInDirectory_finds
                          (fun a b => a +:+ "/" +:+ b)
                          (fun _ => Normal [Fs.Directory "src"
                                              (Normal [Fs.File "a.ts" (Normal "x")])])
                          "root" "a.ts"))
                _ _ _ (Normal "x") eq_refl _).
  - intros [|c a] b; discriminate.
  - eapply listed_below; [apply list_elem_of_here|].
    apply listed_here. apply list_elem_of_here.
Defined.

Lemma findFile_result_witness :
  ("/a.ts" = "/a.ts" /\ true = true
   /\ SourceCodeFinder.fileExists (fun _ => Normal true) "/a.ts" = true)
  \/ exists root,
       root ∈ SourceCodeFinder.sourceRoots (SourceCodeFinder.new None None)
       /\ (("/a.ts" = root +:+ "/" +:+ "/a.ts"
            /\ SourceCodeFinder.fileExists (fun _ => Normal true) "/a.ts" = true)
           \/ exists files content,
                Throw "ENOENT" = Normal files
                /\ listed (fun a b => a +:+ "/" +:+ b) root files "/a.ts" "a.ts"
                     content).
Proof.
  exact (findFile_result
           (fun a b => a +:+ "/" +:+ b) (fun _ => "a.ts") (fun _ => true)
           (fun _ => Normal true) (fun _ => Throw "ENOENT")
           (SourceCodeFinder.new None None) "/a.ts" "/a.ts" eq_refl).
Defined.

Lemma search_exceeds_limit_witness :
  length (SourceCodeFinder.searchListing
            (fun a b => a +:+ "/" +:+ b) (fun _ => ".ts") (fun s => s)
            (SourceCodeFinder.new None None) "root"
            (Normal (nested (Fs.File "a.ts" (Normal "null ref")) 2))
            ["null"] [])
  = 7%nat.
Proof.
  refine (search_exceeds_limit
            (fun a b => a +:+ "/" +:+ b) (fun _ => ".ts") (fun s => s)
            (SourceCodeFinder.new None None) ["null"] "a.ts" "null ref" "root" 2
            eq_refl _).
  discriminate.
Defined.

(** * The LLM client and the configuration *)

Section Client_facts.

Lemma generateMockSolution_noLLM (issue : Issue.t) :
  LLMClient.generateMockSolution issue = LLMClient.noLLM.
Proof.
  unfold LLMClient.generateMockSolution.
  destruct (Issue.type issue); reflexivity.
Qed.

(** X29 (the answer without a model).  The texts [generateMockSolution]
    holds for [error], [warning] and [info] are never returned: the type
    of an issue is a number, which names none of them, so the mock
    solution is the same text for every issue.  [generateSolution] never
    throws; without a key it returns that text, and with a key either the
    content of the response or that text. *)
Theorem generateSolution_answers {SourceInfo : Type}
  (request : Issue.t -> option (list SourceInfo) -> completion (option string))
  (this : LLMClient.t) (issue : Issue.t) (sourceCode : option (list SourceInfo)) :
  LLMClient.generateMockSolution issue = LLMClient.noLLM
  /\ Forall (fun entry => snd entry <> LLMClient.generateMockSolution issue)
       LLMClient.solutions
  /\ (Json.truthy (LLMClient.apiKey this) = false ->
      LLMClient.generateSolution request this issue sourceCode = LLMClient.noLLM)
  /\ (LLMClient.generateSolution request this issue sourceCode = LLMClient.noLLM
      \/ (Json.truthy (LLMClient.apiKey this) = true
          /\ request issue sourceCode
             = Normal (Some (LLMClient.generateSolution request this issue
                               sourceCode)))).
Proof.
  rewrite !generateMockSolution_noLLM. split; [reflexivity|]. split.
  - repeat (constructor; [simpl; intros H; discriminate H|]). constructor.
  - unfold LLMClient.generateSolution. rewrite generateMockSolution_noLLM.
    destruct (Json.truthy (LLMClient.apiKey this)); simpl.
    + split; [discriminate|].
      destruct (request issue sourceCode) as [[content|]|e]; auto.
    + split; auto.
Qed.

Variable readFile : string -> completion string.
Variable parse : string -> completion Json.value.
Variable defaultTemplate : string.

(** X30 (the configuration).  [loadConfig] never throws and stores what
    it returns.  Each getter throws exactly when that value is falsy,
    which a file holding [null], [false], [0] or an empty string gives,
    and before any [loadConfig].  When the file cannot be read or parsed,
    the value is the default configuration: the report goes to
    [./reports] with the default template, no source directory is set,
    and the client of the resolver has no key, so that every answer of
    [generateSolution] is the text [generateMockSolution] gives. *)
Theorem loadConfig_getters (this : ConfigManager.t) :
  let this' := fst (ConfigManager.loadConfig readFile parse defaultTemplate this) in
  let value := snd (ConfigManager.loadConfig readFile parse defaultTemplate this) in
  ConfigManager.config this' = Some value
  /\ (Json.truthy value = false
      <-> ConfigManager.getLogScannerConfig this' = Throw ConfigManager.notLoaded)
  /\ (Json.truthy value = false
      <-> ConfigManager.getProblemResolverConfig this'
          = Throw ConfigManager.notLoaded)
  /\ (Json.truthy value = false
      <-> ConfigManager.getReportGeneratorConfig defaultTemplate this'
          = Throw ConfigManager.notLoaded)
  /\ ConfigManager.getLogScannerConfig
       (ConfigManager.new (ConfigManager.configPath this))
     = Throw ConfigManager.notLoaded
  /\ ConfigManager.getProblemResolverConfig
       (ConfigManager.new (ConfigManager.configPath this))
     = Throw ConfigManager.notLoaded
  /\ ConfigManager.getReportGeneratorConfig defaultTemplate
       (ConfigManager.new (ConfigManager.configPath this))
     = Throw ConfigManager.notLoaded
  /\ ((forall configData parsed,
          readFile (ConfigManager.configPath this) = Normal configData ->
          parse configData <> Normal parsed) ->
      value = ConfigManager.getDefaultConfig defaultTemplate
      /\ ConfigManager.getReportGeneratorConfig defaultTemplate this'
         = Normal (ConfigManager.Report (Json.Str defaultTemplate)
                     (Json.Str "./reports"))
      /\ exists resolverConfig,
           ConfigManager.getProblemResolverConfig this' = Normal resolverConfig
           /\ ConfigManager.sourceDir resolverConfig = Some Json.Null
           /\ forall (SourceInfo : Type)
                     (request : Issue.t -> option (list SourceInfo)
                                -> completion (option string))
                     (issue : Issue.t) (sourceCode : option (list SourceInfo)),
                LLMClient.generateSolution request
                  (LLMClient.ofResolverConfig resolverConfig) issue sourceCode
                = LLMClient.noLLM).
Proof.
  intros this' value.
  assert (ConfigManager.config this' = Some value) as Hconfig.
  { unfold this', value, ConfigManager.loadConfig.
    destruct (readFile (ConfigManager.configPath this)) as [configData|e];
      [destruct (parse configData) as [parsed|e]|]; reflexivity. }
  assert (forall A (f : Json.value -> A),
             Json.truthy value = false
             <-> (if Json.test (ConfigManager.config this')
                  then Normal (f (default Json.Null (ConfigManager.config this')))
                  else Throw ConfigManager.notLoaded)
                 = Throw ConfigManager.notLoaded) as Hthrow.
  { intros A f. rewrite Hconfig. simpl.
    destruct (Json.truthy value); split; congruence. }
  split; [exact Hconfig|].
  split; [apply (Hthrow _ (fun config => ConfigManager.Scanner _ _))|].
  split; [apply (Hthrow _ (fun config => ConfigManager.Resolver _ _))|].
  split; [apply (Hthrow _ (fun config => ConfigManager.Report _ _))|].
  split; [reflexivity|]. split; [reflexivity|]. split; [reflexivity|].
  intros Hfail.
  assert (this' = ConfigManager.mk (ConfigManager.configPath this)
                    (Some (ConfigManager.getDefaultConfig defaultTemplate))
          /\ value = ConfigManager.getDefaultConfig defaultTemplate) as [E1 E2].
  { unfold this', value, ConfigManager.loadConfig.
    destruct (readFile (ConfigManager.configPath this)) as [configData|e] eqn:Hr;
      [|split; reflexivity].
    destruct (parse configData) as [parsed|e] eqn:Hp; [|split; reflexivity].
    destruct (Hfail configData parsed eq_refl Hp). }
  rewrite E1. split; [exact E2|]. split.
  - unfold ConfigManager.getReportGeneratorConfig. simpl.
    destruct (String.eqb defaultTemplate EmptyString); reflexivity.
  - eexists. split; [reflexivity|]. split; [reflexivity|].
    intros SourceInfo request issue sourceCode.
    unfold LLMClient.generateSolution. simpl.
    apply generateMockSolution_noLLM.
Qed.

End Client_facts.
